(** * DecoTV: tiered cache and race-safe fetch coordination

    A shallow embedding of the client-side cache of [src/lib/unified-cache]
    ([MemoryCache], [LocalStorageCache], [UnifiedCache], [generateCacheKey])
    and of the [useCachedData] hook that coordinates fetches on top of it,
    followed by the properties of the design document that the code meets,
    and the places where it departs from them.

    Conventions.  Times are milliseconds since the epoch and TTLs are seconds,
    both in [Z]; the test [(now - timestamp) / 1000 > ttl] of the source is
    written [now - timestamp > 1000 * ttl], which is the same test on
    integers.  One synchronous call reads the clock once.  A JavaScript [Map]
    is an association list in insertion order.  Strings are byte strings. *)

From Stdlib Require Import List String Ascii ZArith Bool Lia.
From Stdlib Require Import Permutation Sorted Mergesort Orders.
From Stdlib Require Import DecimalString.
Import ListNotations.

Open Scope string_scope.
Open Scope Z_scope.

(* ================================================================== *)
(** * Part I: the program                                              *)
(* ================================================================== *)

(** ** [generateCacheKey] *)

Module KeyBuilder.

(** A parameter value: [string | number | boolean | undefined].  The
    numbers of the model are the integers below [10^21] in absolute value,
    whose template-literal rendering is the decimal numeral; fractions, and
    the larger numbers, which are rendered with an exponent, are not in the
    model. *)
Inductive Scalar : Type :=
| SStr (s : string)
| SNum (n : Z)
| SBool (b : bool)
| SUndefined.

(** [Object.entries(params)]: the own properties, each key once. *)
Definition Params : Type := list (string * Scalar).

Definition keys (p : Params) : list string := map fst p.

(** Each key once, as a test. *)
Fixpoint distinct (ks : list string) : bool :=
  match ks with
  | [] => true
  | k :: ks' => negb (existsb (String.eqb k) ks') && distinct ks'
  end.

(** [value !== undefined && value !== ''] *)
Definition keep (e : string * Scalar) : bool :=
  match snd e with
  | SUndefined => false
  | SStr s => negb (s =? "")%string
  | _ => true
  end.

(** The text [`${value}`] of a value. *)
Definition render_value (v : Scalar) : string :=
  match v with
  | SStr s => s
  | SNum n => NilZero.string_of_int (Z.to_int n)
  | SBool true => "true"
  | SBool false => "false"
  | SUndefined => "undefined"
  end.

(** [`${key}=${value}`] *)
Definition render_entry (e : string * Scalar) : string :=
  fst e ++ "=" ++ render_value (snd e).

Section Sorting.

(** [a.localeCompare(b)]: negative, zero or positive.  The collation is
    the host's, so it is a parameter of the model. *)
Variable localeCompare : string -> string -> Z.

(** [Array.prototype.sort] with the comparator on the keys.  The sort is
    stable: an element goes in front of the first element that does not
    come strictly before it. *)
Fixpoint insert_entry (x : string * Scalar) (l : Params) : Params :=
  match l with
  | [] => [x]
  | y :: l' =>
      if localeCompare (fst x) (fst y) <=? 0 then x :: y :: l'
      else y :: insert_entry x l'
  end.

Definition sort_entries (l : Params) : Params :=
  fold_right insert_entry [] l.

Definition generateCacheKey (prefix : string) (params : Params) : string :=
  let filteredParams :=
    String.concat "&"
      (map render_entry (sort_entries (filter keep params))) in
  prefix ++ "-" ++ filteredParams.

(** The comparator is a total order on the keys [ks] that tells any two
    of them apart. *)
Definition consistent_on (ks : list string) : bool :=
  forallb (fun a => forallb (fun b =>
    ((localeCompare a b <=? 0) || (localeCompare b a <=? 0)) &&
    (implb ((localeCompare a b <=? 0) && (localeCompare b a <=? 0))
           (a =? b)%string) &&
    forallb (fun c =>
      implb ((localeCompare a b <=? 0) && (localeCompare b c <=? 0))
            (localeCompare a c <=? 0)) ks) ks) ks.

(** The comparator orders the keys [ks] as their bytes do. *)
Definition bytewise_on (ks : list string) : bool :=
  forallb (fun a => forallb (fun b =>
    Bool.eqb (localeCompare a b <=? 0) (String.leb a b)) ks) ks.

End Sorting.

(** Comparison by byte value, as a comparator. *)
Definition byteCompare (a b : string) : Z :=
  match String.compare a b with
  | Lt => -1
  | Eq => 0
  | Gt => 1
  end.

(** The order of [localeCompare] on keys made of ASCII letters and digits
    in the default collation: alphabetical whatever the case, and between
    two keys with the same letters the one whose first differing letter is
    in lower case comes first. *)
Definition is_upper (c : ascii) : bool :=
  let n := N_of_ascii c in ((65 <=? n) && (n <=? 90))%N.

Definition to_lower (c : ascii) : ascii :=
  if is_upper c then ascii_of_N (N_of_ascii c + 32) else c.

Fixpoint fold_case (s : string) : string :=
  match s with
  | EmptyString => EmptyString
  | String c s' => String (to_lower c) (fold_case s')
  end.

Fixpoint case_mask (s : string) : string :=
  match s with
  | EmptyString => EmptyString
  | String c s' =>
      String (if is_upper c then "1"%char else "0"%char) (case_mask s')
  end.

Definition letterCollation (a b : string) : Z :=
  match String.compare (fold_case a) (fold_case b) with
  | Lt => -1
  | Gt => 1
  | Eq => byteCompare (case_mask a) (case_mask b)
  end.

(** A collation that, as [localeCompare] must, takes canonically equivalent
    strings for equal, on the one equivalence written out here: the letter
    [e] followed by the combining acute accent (U+0301; in UTF-8 the bytes
    204 and 129) is the letter e-acute (U+00E9; the bytes 195 and 169).
    Strings are compared by the bytes of their composed forms. *)
Definition e_acute : string :=
  String (ascii_of_nat 195) (String (ascii_of_nat 169) EmptyString).

Definition e_then_acute : string :=
  String "e" (String (ascii_of_nat 204) (String (ascii_of_nat 129)
                                                EmptyString)).

Fixpoint compose (s : string) : string :=
  match s with
  | EmptyString => EmptyString
  | String a s1 =>
      match s1 with
      | String b (String c s3) =>
          if Ascii.eqb a "e" && Ascii.eqb b (ascii_of_nat 204)
             && Ascii.eqb c (ascii_of_nat 129)
          then String (ascii_of_nat 195)
                 (String (ascii_of_nat 169) (compose s3))
          else String a (compose s1)
      | _ => String a (compose s1)
      end
  end.

Definition canonicalCollation (a b : string) : Z :=
  byteCompare (compose a) (compose b).

(** The reference definition, in the words of the design document: drop the
    entries whose value is undefined or empty, sort the rest ascending by
    the bytes of their keys, join them as [key=value] with [&], and put
    [prefix-] in front. *)
Module KeyOrder <: TotalLeBool.
Definition t : Type := (string * Scalar)%type.
Definition leb (x y : t) : bool := String.leb (fst x) (fst y).
Definition leb_total (x y : t) : leb x y = true \/ leb y x = true :=
  String.leb_total (fst x) (fst y).
End KeyOrder.

Module ByKey := Sort KeyOrder.

Definition buildKey_ref (prefix : string) (params : Params) : string :=
  prefix ++ "-" ++
  String.concat "&" (map render_entry (ByKey.sort (filter keep params))).

End KeyBuilder.

(** ** Cache entries *)

Module Entry.

(** [interface CacheEntry<T> { data; timestamp; ttl }] *)
Record CacheEntry (T : Type) : Type := mk {
  data : T;
  timestamp : Z;
  ttl : Z
}.

Arguments mk {T} _ _ _.
Arguments data {T} _.
Arguments timestamp {T} _.
Arguments ttl {T} _.

(** [(now - entry.timestamp) / 1000 > entry.ttl] *)
Definition expired {T : Type} (now : Z) (e : CacheEntry T) : bool :=
  now - timestamp e >? 1000 * ttl e.

End Entry.

(** ** The [Map] of the host: keys in insertion order, each once *)

Module JSMap.

Section Ops.
Variable V : Type.

Definition t : Type := list (string * V).

Fixpoint get (k : string) (m : t) : option V :=
  match m with
  | [] => None
  | (k', v) :: m' => if (k' =? k)%string then Some v else get k m'
  end.

Definition has (k : string) (m : t) : bool :=
  match get k m with Some _ => true | None => false end.

(** [Map.prototype.set]: a present key keeps its place, a new key goes to
    the end. *)
Fixpoint set (k : string) (v : V) (m : t) : t :=
  match m with
  | [] => [(k, v)]
  | (k', v') :: m' =>
      if (k' =? k)%string then (k, v) :: m' else (k', v') :: set k v m'
  end.

Definition delete (k : string) (m : t) : t :=
  filter (fun e => negb (fst e =? k)%string) m.

(** [m.keys().next().value] *)
Definition first_key (m : t) : option string :=
  match m with
  | [] => None
  | (k, _) :: _ => Some k
  end.

Definition size (m : t) : Z := Z.of_nat (List.length m).

End Ops.

Arguments get {V} _ _.
Arguments has {V} _ _.
Arguments set {V} _ _ _.
Arguments delete {V} _ _.
Arguments first_key {V} _.
Arguments size {V} _.

End JSMap.

(** ** [class MemoryCache] *)

Module MemoryCache.

Record t (T : Type) : Type := mk {
  store : JSMap.t (Entry.CacheEntry T);
  maxSize : Z
}.

Arguments mk {T} _ _.
Arguments store {T} _.
Arguments maxSize {T} _.

Section Ops.
Context {T : Type}.

(** [new MemoryCache(maxSize)] *)
Definition create (maxSize : Z) : t T := mk [] maxSize.

(** The eviction step of [set]: at capacity, drop the first key of the map,
    unless that key is falsy (the empty string). *)
Definition evict (c : t T) : JSMap.t (Entry.CacheEntry T) :=
  if JSMap.size (store c) >=? maxSize c then
    match JSMap.first_key (store c) with
    | Some oldestKey =>
        if (oldestKey =? "")%string then store c
        else JSMap.delete oldestKey (store c)
    | None => store c
    end
  else store c.

Definition set (now : Z) (key : string) (data : T) (ttlSeconds : Z)
  (c : t T) : t T :=
  mk (JSMap.set key (Entry.mk data now ttlSeconds) (evict c)) (maxSize c).

Definition get (now : Z) (key : string) (c : t T) : option T * t T :=
  match JSMap.get key (store c) with
  | None => (None, c)
  | Some entry =>
      if Entry.expired now entry then
        (None, mk (JSMap.delete key (store c)) (maxSize c))
      else
        (Some (Entry.data entry),
         mk (JSMap.set key entry (JSMap.delete key (store c))) (maxSize c))
  end.

Definition delete (key : string) (c : t T) : t T :=
  mk (JSMap.delete key (store c)) (maxSize c).

Definition clear (c : t T) : t T := mk [] (maxSize c).

Definition size (c : t T) : Z := JSMap.size (store c).

(** The keys from least to most recently used. *)
Definition order (c : t T) : list string := map fst (store c).

End Ops.

End MemoryCache.

(** ** Exceptions

    A call either returns or throws; both leave a state behind. *)

Inductive Outcome (S : Type) : Type :=
| Returned (s : S)
| Thrown (s : S).

Arguments Returned {S} _.
Arguments Thrown {S} _.

Definition state_of {S : Type} (o : Outcome S) : S :=
  match o with Returned s | Thrown s => s end.

(** [try { body } catch { handler }] *)
Definition try_catch {S : Type} (body : Outcome S)
  (handler : S -> Outcome S) : Outcome S :=
  match body with
  | Returned s => Returned s
  | Thrown s => handler s
  end.

(** [body; rest] *)
Definition and_then {S : Type} (body : Outcome S)
  (rest : S -> Outcome S) : Outcome S :=
  match body with
  | Returned s => rest s
  | Thrown s => Thrown s
  end.

Definition lift {S S' : Type} (f : S -> S') (o : Outcome S) : Outcome S' :=
  match o with
  | Returned s => Returned (f s)
  | Thrown s => Thrown (f s)
  end.

(** ** The [localStorage] of the host

    The items in the order [key(i)] enumerates them, and a record of the
    calls that change them.  A [setItem] throws when the items would no longer
    fit the quota, which is the host's to decide. *)

Module Storage.

Inductive Call : Type :=
| SetItem (key value : string)
| RemoveItem (key : string).

Record t : Type := mk {
  items : JSMap.t string;
  calls : list Call
}.

Section Host.
Variable quota : JSMap.t string -> bool.

Definition getItem (k : string) (st : t) : option string :=
  JSMap.get k (items st).

Definition setItem (k v : string) (st : t) : Outcome t :=
  let items' := JSMap.set k v (items st) in
  if quota items' then Returned (mk items' (calls st ++ [SetItem k v]))
  else Thrown (mk (items st) (calls st ++ [SetItem k v])).

Definition removeItem (k : string) (st : t) : t :=
  mk (JSMap.delete k (items st)) (calls st ++ [RemoveItem k]).

End Host.

End Storage.

(** ** [class LocalStorageCache] *)

Module LocalStorageCache.

(** [localStorage] is [None] where the host has none
    ([typeof localStorage === 'undefined']). *)
Record t : Type := mk {
  prefix : string;
  localStorage : option Storage.t
}.

Section Ops.
Context {T : Type}.

(** The host: the quota, and the JSON codec on entries.  [JSON_stringify]
    is [None] when it throws, and so is [JSON_parse]; a text that parses is
    taken to be that of an entry, as every text this class writes is. *)
Variable quota : JSMap.t string -> bool.
Variable JSON_stringify : Entry.CacheEntry T -> option string.
Variable JSON_parse : string -> option (Entry.CacheEntry T).

Definition getFullKey (c : t) (key : string) : string := prefix c ++ key.

(** [localStorage.setItem(fullKey, JSON.stringify(entry))] *)
Definition write (fullKey : string) (entry : Entry.CacheEntry T)
  (st : Storage.t) : Outcome Storage.t :=
  match JSON_stringify entry with
  | None => Thrown st
  | Some text => Storage.setItem quota fullKey text st
  end.

(** The loop of [cleanExpired]: the keys of this namespace whose text is an
    expired entry or is not an entry at all. *)
Definition doomed (pre : string) (now : Z) (item : string * string) : bool :=
  let (key, stored) := item in
  if (key =? "")%string || negb (String.prefix pre key) then false
  else if (stored =? "")%string then false
  else
    match JSON_parse stored with
    | Some entry => Entry.expired now entry
    | None => true
    end.

Definition keysToDelete (pre : string) (now : Z) (st : Storage.t)
  : list string :=
  map fst (filter (doomed pre now) (Storage.items st)).

Definition sweep (pre : string) (now : Z) (st : Storage.t) : Storage.t :=
  fold_left (fun s key => Storage.removeItem key s)
            (keysToDelete pre now st) st.

Definition cleanExpired (now : Z) (c : t) : Z * t :=
  match localStorage c with
  | None => (0, c)
  | Some st =>
      (Z.of_nat (List.length (keysToDelete (prefix c) now st)),
       mk (prefix c) (Some (sweep (prefix c) now st)))
  end.

Definition set (now : Z) (key : string) (data : T) (ttlSeconds : Z)
  (c : t) : Outcome t :=
  match localStorage c with
  | None => Returned c
  | Some st =>
      let fullKey := getFullKey c key in
      let entry := Entry.mk data now ttlSeconds in
      lift (fun s => mk (prefix c) (Some s))
        (try_catch (write fullKey entry st)
           (fun st1 =>
              let st2 := sweep (prefix c) now st1 in
              try_catch (write fullKey entry st2)
                (fun st3 => Returned st3)))
  end.

Definition get (now : Z) (key : string) (c : t) : option T * t :=
  match localStorage c with
  | None => (None, c)
  | Some st =>
      let fullKey := getFullKey c key in
      match Storage.getItem fullKey st with
      | None => (None, c)
      | Some stored =>
          if (stored =? "")%string then (None, c)
          else
            match JSON_parse stored with
            | Some entry =>
                if Entry.expired now entry then
                  (None, mk (prefix c) (Some (Storage.removeItem fullKey st)))
                else (Some (Entry.data entry), c)
            | None =>
                (None, mk (prefix c) (Some (Storage.removeItem fullKey st)))
            end
      end
  end.

Definition delete (key : string) (c : t) : t :=
  match localStorage c with
  | None => c
  | Some st =>
      mk (prefix c) (Some (Storage.removeItem (getFullKey c key) st))
  end.

Definition clear (c : t) : t :=
  match localStorage c with
  | None => c
  | Some st =>
      let keysToDelete :=
        map fst
          (filter (fun e => negb (fst e =? "")%string
                            && String.prefix (prefix c) (fst e))
                  (Storage.items st)) in
      mk (prefix c)
         (Some (fold_left (fun s key => Storage.removeItem key s)
                          keysToDelete st))
  end.

End Ops.

End LocalStorageCache.

(** ** [class UnifiedCache] *)

Module UnifiedCache.

(** [Required<CacheConfig>] *)
Record CacheConfig : Type := mkConfig {
  enableMemory : bool;
  enableLocalStorage : bool;
  defaultTTL : Z;
  maxMemoryEntries : Z;
  localStoragePrefix : string
}.

Record t (T : Type) : Type := mk {
  memoryCache : MemoryCache.t T;
  localStorageCache : LocalStorageCache.t;
  config : CacheConfig
}.

Arguments mk {T} _ _ _.
Arguments memoryCache {T} _.
Arguments localStorageCache {T} _.
Arguments config {T} _.

(** The configuration of [globalCache]. *)
Definition globalConfig : CacheConfig :=
  mkConfig true true 3600 100 "deco-cache:".

Section Ops.
Context {T : Type}.

(** The host: which payloads are [null] (the [T] of [get<T>] and [set<T>]
    is any type of the caller, [null] included), the quota, and the JSON
    codec on entries. *)
Variable is_null : T -> bool.
Variable quota : JSMap.t string -> bool.
Variable JSON_stringify : Entry.CacheEntry T -> option string.
Variable JSON_parse : string -> option (Entry.CacheEntry T).

(** [data !== null] on what the [get] of a tier returned: a payload that is
    [null] is taken for a miss. *)
Definition present (r : option T) : option T :=
  match r with
  | Some data => if is_null data then None else Some data
  | None => None
  end.

(** [new UnifiedCache(config)] over the host's storage. *)
Definition create (cfg : CacheConfig) (ls : option Storage.t) : t T :=
  mk (MemoryCache.create (maxMemoryEntries cfg))
     (LocalStorageCache.mk (localStoragePrefix cfg) ls)
     cfg.

Definition get (now : Z) (key : string) (c : t T) : option T * t T :=
  let first :=
    if enableMemory (config c) then MemoryCache.get now key (memoryCache c)
    else (None, memoryCache c) in
  let m := snd first in
  match present (fst first) with
  | Some data => (Some data, mk m (localStorageCache c) (config c))
  | None =>
      if enableLocalStorage (config c) then
        let second :=
          LocalStorageCache.get JSON_parse now key (localStorageCache c) in
        let l := snd second in
        match present (fst second) with
        | Some data =>
            let m' :=
              if enableMemory (config c) then
                MemoryCache.set now key data (defaultTTL (config c)) m
              else m in
            (Some data, mk m' l (config c))
        | None => (None, mk m l (config c))
        end
      else (None, mk m (localStorageCache c) (config c))
  end.

(** The cache holds an unexpired entry for [key] whose value [v] is not
    [null]: in the memory tier when it is enabled, or else in the storage
    tier when that is enabled and the memory tier has no unexpired entry for
    [key] but one whose value is [null]. *)
Definition holds (now : Z) (key : string) (c : t T) (v : T) : Prop :=
  is_null v = false
  /\
  ((enableMemory (config c) = true
   /\ exists e, JSMap.get key (MemoryCache.store (memoryCache c)) = Some e
                /\ Entry.expired now e = false /\ Entry.data e = v)
  \/
  ((enableMemory (config c) = true ->
    forall e, JSMap.get key (MemoryCache.store (memoryCache c)) = Some e ->
              Entry.expired now e = false -> is_null (Entry.data e) = true)
   /\ enableLocalStorage (config c) = true
   /\ exists st text e,
        LocalStorageCache.localStorage (localStorageCache c) = Some st
        /\ Storage.getItem
             (LocalStorageCache.getFullKey (localStorageCache c) key) st
           = Some text
        /\ text <> ""
        /\ JSON_parse text = Some e
        /\ Entry.expired now e = false /\ Entry.data e = v)).

Definition set (now : Z) (key : string) (data : T) (ttlSeconds : Z)
  (c : t T) : Outcome (t T) :=
  let m :=
    if enableMemory (config c) then
      MemoryCache.set now key data ttlSeconds (memoryCache c)
    else memoryCache c in
  if enableLocalStorage (config c) then
    lift (fun l => mk m l (config c))
      (LocalStorageCache.set quota JSON_stringify JSON_parse
         now key data ttlSeconds (localStorageCache c))
  else Returned (mk m (localStorageCache c) (config c)).

Definition delete (key : string) (c : t T) : t T :=
  mk (MemoryCache.delete key (memoryCache c))
     (LocalStorageCache.delete key (localStorageCache c))
     (config c).

Definition cleanExpired (now : Z) (c : t T) : t T :=
  mk (memoryCache c)
     (snd (LocalStorageCache.cleanExpired JSON_parse now
             (localStorageCache c)))
     (config c).

Definition clear (c : t T) : t T :=
  mk (MemoryCache.clear (memoryCache c))
     (LocalStorageCache.clear (localStorageCache c))
     (config c).

End Ops.

End UnifiedCache.

(** ** [useCachedData]

    The hook as a transition system.  Its state is the four state
    variables and the four refs of one mounted component, the options of
    its latest render, and the producer calls that have not settled yet;
    the world adds the process-wide [globalCache], which other components
    use too: [CacheChanges] is what they do to it.  A producer call is named
    by the request id it captured, which no other call shares. *)

Module UseCachedData.

(** What a rejected producer hands to [catch]: an [Error], or any other
    value, given by its text. *)
Inductive Rejection : Type :=
| ErrorObject (message : string)
| OtherValue (text : string).

(** [e instanceof Error ? e.message : '未知错误'] *)
Definition unknownError : string := "未知错误".

Definition errorMessage (e : Rejection) : string :=
  match e with
  | ErrorObject message => message
  | OtherValue _ => unknownError
  end.

Section Hook.
Context {T D : Type}.

(** The host: which payloads are [null], the storage quota, the JSON codec
    on entries, the text [JSON.stringify(dependencies)], and the comparison
    React makes between the dependency arrays of two renders. *)
Variable is_null : T -> bool.
Variable quota : JSMap.t string -> bool.
Variable JSON_stringify : Entry.CacheEntry T -> option string.
Variable JSON_parse : string -> option (Entry.CacheEntry T).
Variable stringify : D -> string.
Variable same_deps : D -> D -> bool.

(** [UseCachedDataOptions] with its defaults filled in.  The producer
    [fetchFn] is outside: its answers arrive as events.  [debounceMs] only
    sets when the timer fires, and [clearOnChange] guards an empty block. *)
Record Options : Type := mkOptions {
  cacheKey : string;
  dependencies : D;
  ttl : Z;
  enableCache : bool;
  fetchOnMount : bool
}.

(** A producer call that has not settled: the [currentRequestId] and
    [currentParams] of the [fetchData] call that made it, and the options
    that call closed over. *)
Record Pending : Type := mkPending {
  currentRequestId : Z;
  capturedParams : string;
  closure : Options
}.

Record Hook : Type := mkHook {
  data : option T;
  loading : bool;
  error : option string;
  fromCache : bool;
  debounceTimerRef : option Options;
  currentParamsRef : string;
  requestIdRef : Z;
  isMountedRef : bool;
  options : Options;
  inflight : list Pending;
  producerCalls : nat
}.

Record World : Type := mkWorld {
  hook : Hook;
  globalCache : UnifiedCache.t T
}.

(** The state updates of the source, one per group of setters. *)
Definition publish (v : T) (cached : bool) (h : Hook) : Hook :=
  mkHook (Some v) false None cached
         (debounceTimerRef h) (currentParamsRef h) (requestIdRef h)
         (isMountedRef h) (options h) (inflight h) (producerCalls h).

Definition fail (msg : string) (h : Hook) : Hook :=
  mkHook (data h) false (Some msg) (fromCache h)
         (debounceTimerRef h) (currentParamsRef h) (requestIdRef h)
         (isMountedRef h) (options h) (inflight h) (producerCalls h).

Definition setLoading (b : bool) (h : Hook) : Hook :=
  mkHook (data h) b (error h) (fromCache h)
         (debounceTimerRef h) (currentParamsRef h) (requestIdRef h)
         (isMountedRef h) (options h) (inflight h) (producerCalls h).

Definition setTimer (t : option Options) (h : Hook) : Hook :=
  mkHook (data h) (loading h) (error h) (fromCache h)
         t (currentParamsRef h) (requestIdRef h)
         (isMountedRef h) (options h) (inflight h) (producerCalls h).

Definition setOptions (o : Options) (h : Hook) : Hook :=
  mkHook (data h) (loading h) (error h) (fromCache h)
         (debounceTimerRef h) (currentParamsRef h) (requestIdRef h)
         (isMountedRef h) o (inflight h) (producerCalls h).

Definition setMounted (b : bool) (h : Hook) : Hook :=
  mkHook (data h) (loading h) (error h) (fromCache h)
         (debounceTimerRef h) (currentParamsRef h) (requestIdRef h)
         b (options h) (inflight h) (producerCalls h).

Definition setInflight (l : list Pending) (h : Hook) : Hook :=
  mkHook (data h) (loading h) (error h) (fromCache h)
         (debounceTimerRef h) (currentParamsRef h) (requestIdRef h)
         (isMountedRef h) (options h) l (producerCalls h).

(** [++requestIdRef.current; currentParamsRef.current = currentParams] *)
Definition begin (params : string) (h : Hook) : Hook :=
  mkHook (data h) (loading h) (error h) (fromCache h)
         (debounceTimerRef h) params (requestIdRef h + 1)
         (isMountedRef h) (options h) (inflight h) (producerCalls h).

(** [setLoading(true); await fetchFn()] *)
Definition callProducer (p : Pending) (h : Hook) : Hook :=
  mkHook (data h) true (error h) (fromCache h)
         (debounceTimerRef h) (currentParamsRef h) (requestIdRef h)
         (isMountedRef h) (options h) (inflight h ++ [p])
         (S (producerCalls h)).

(** [fetchData(ignoreCache)] up to its [await], for the render whose options
    are [o].  The test [cached !== null] is the match on what
    [UnifiedCache.get] returns, which is no payload that is [null]. *)
Definition fetchData (now : Z) (o : Options) (ignoreCache : bool)
  (w : World) : World :=
  let currentParams := stringify (dependencies o) in
  let h := begin currentParams (hook w) in
  let me := mkPending (requestIdRef h) currentParams o in
  if enableCache o && negb ignoreCache then
    match
      UnifiedCache.get is_null JSON_parse now (cacheKey o) (globalCache w)
    with
    | (Some cached, c) =>
        if (currentParamsRef h =? currentParams)%string && isMountedRef h
        then mkWorld (publish cached true h) c
        else mkWorld (callProducer me h) c
    | (None, c) => mkWorld (callProducer me h) c
    end
  else mkWorld (callProducer me h) (globalCache w).

Definition find_pending (id : Z) (l : list Pending) : option Pending :=
  find (fun p => currentRequestId p =? id) l.

Definition drop_pending (id : Z) (l : list Pending) : list Pending :=
  filter (fun p => negb (currentRequestId p =? id)) l.

(** The rest of [fetchData] once [fetchFn()] has resolved with [result]. *)
Definition resolved (now : Z) (p : Pending) (result : T) (w : World)
  : World :=
  let h := hook w in
  if negb (currentRequestId p =? requestIdRef h) then w
  else if negb (currentParamsRef h =? capturedParams p)%string then w
  else if negb (isMountedRef h) then w
  else
    let c :=
      if enableCache (closure p) then
        state_of
          (try_catch
             (UnifiedCache.set quota JSON_stringify JSON_parse now
                (cacheKey (closure p)) result (ttl (closure p))
                (globalCache w))
             (fun c' => Returned c'))
      else globalCache w in
    mkWorld (publish result false h) c.

(** The [catch] branch of [fetchData] once [fetchFn()] has rejected. *)
Definition rejected (p : Pending) (e : Rejection) (w : World) : World :=
  let h := hook w in
  if negb (currentRequestId p =? requestIdRef h) || negb (isMountedRef h)
  then w
  else mkWorld (fail (errorMessage e) h) (globalCache w).

(** The debounce effect, run at mount and after a render that changed
    [cacheKey] or a dependency. *)
Definition debounceEffect (o : Options) (h : Hook) : Hook :=
  let h1 := setTimer None h in
  if negb (fetchOnMount o) && (requestIdRef h1 =? 0) then setLoading false h1
  else setTimer (Some o) h1.

(** The first render and its effects. *)
Definition mount (o : Options) : Hook :=
  debounceEffect o
    (mkHook None true None false None (stringify (dependencies o)) 0 true
            o [] 0).

Inductive Event : Type :=
| Render (o : Options)
| TimerFires
| Refresh
| ClearCache
| Resolves (id : Z) (result : T)
| Rejects (id : Z) (e : Rejection)
| Unmount
| CacheChanges (c : UnifiedCache.t T).

Definition step (now : Z) (ev : Event) (w : World) : World :=
  let h := hook w in
  match ev with
  | Render o =>
      if isMountedRef h then
        let changed :=
          negb (cacheKey o =? cacheKey (options h))%string
          || negb (same_deps (dependencies o) (dependencies (options h))) in
        let h1 := setOptions o h in
        mkWorld (if changed then debounceEffect o h1 else h1) (globalCache w)
      else w
  | TimerFires =>
      match debounceTimerRef h with
      | Some o => fetchData now o false (mkWorld (setTimer None h)
                                                 (globalCache w))
      | None => w
      end
  | Refresh => fetchData now (options h) true w
  | ClearCache =>
      mkWorld h (UnifiedCache.delete (cacheKey (options h)) (globalCache w))
  | Resolves id result =>
      match find_pending id (inflight h) with
      | Some p =>
          resolved now p result
            (mkWorld (setInflight (drop_pending id (inflight h)) h)
                     (globalCache w))
      | None => w
      end
  | Rejects id e =>
      match find_pending id (inflight h) with
      | Some p =>
          rejected p e
            (mkWorld (setInflight (drop_pending id (inflight h)) h)
                     (globalCache w))
      | None => w
      end
  | Unmount =>
      mkWorld (setTimer None (setMounted false h)) (globalCache w)
  | CacheChanges c => mkWorld h c
  end.


(** An unmounted component renders no more, which is why [Render] leaves
    the world of an unmounted hook alone.

    A run: events with the time at which each happens. *)
Fixpoint run (evs : list (Z * Event)) (w : World) : World :=
  match evs with
  | [] => w
  | (now, ev) :: evs' => run evs' (step now ev w)
  end.

(** The worlds a mounted hook can be in. *)
Inductive reachable (o : Options) (c : UnifiedCache.t T) : World -> Prop :=
| reach_mount : reachable o c (mkWorld (mount o) c)
| reach_step w now ev :
    reachable o c w -> reachable o c (step now ev w).

End Hook.

End UseCachedData.

(** ** A host to run the program on

    Payloads are integers, the storage holds at most [limit] items, and the
    codec writes an entry as the JSON object with the fields [data],
    [timestamp] and [ttl], in that order. *)

Module TestHost.

Definition dq : string := String (ascii_of_nat 34) EmptyString.

Definition field (name : string) : string := dq ++ name ++ dq ++ ":".

Definition number (n : Z) : string := NilZero.string_of_int (Z.to_int n).

Definition entryText (d t l : Z) : string :=
  "{" ++ field "data" ++ number d ++ ","
      ++ field "timestamp" ++ number t ++ ","
      ++ field "ttl" ++ number l ++ "}".

Definition JSON_stringify (e : Entry.CacheEntry Z) : option string :=
  Some (entryText (Entry.data e) (Entry.timestamp e) (Entry.ttl e)).

(** [strip pre s] is what follows [pre] in [s]. *)
Fixpoint strip (pre s : string) : option string :=
  match pre, s with
  | EmptyString, _ => Some s
  | String a pre', String b s' =>
      if Ascii.eqb a b then strip pre' s' else None
  | String _ _, EmptyString => None
  end.

Definition is_num_char (c : ascii) : bool :=
  let n := N_of_ascii c in ((n =? 45) || ((48 <=? n) && (n <=? 57)))%N.

Fixpoint span_num (s : string) : string * string :=
  match s with
  | EmptyString => (EmptyString, EmptyString)
  | String c s' =>
      if is_num_char c then
        let (d, rest) := span_num s' in (String c d, rest)
      else (EmptyString, s)
  end.

Definition read_int (s : string) : option (Z * string) :=
  let (d, rest) := span_num s in
  match NilZero.int_of_string d with
  | Some i => Some (Z.of_int i, rest)
  | None => None
  end.

Definition read_field (name : string) (s : string) : option (Z * string) :=
  match strip (field name) s with
  | Some s' => read_int s'
  | None => None
  end.

Definition JSON_parse (s : string) : option (Entry.CacheEntry Z) :=
  match strip "{" s with
  | None => None
  | Some s0 =>
  match read_field "data" s0 with
  | None => None
  | Some (d, s1) =>
  match strip "," s1 with
  | None => None
  | Some s2 =>
  match read_field "timestamp" s2 with
  | None => None
  | Some (t, s3) =>
  match strip "," s3 with
  | None => None
  | Some s4 =>
  match read_field "ttl" s4 with
  | None => None
  | Some (l, s5) =>
      if (s5 =? "}")%string then Some (Entry.mk d t l) else None
  end end end end end end.

(** No integer is [null]. *)
Definition is_null (v : Z) : bool := false.

(** A storage that takes [limit] items and no more. *)
Definition quota (limit : Z) (items : JSMap.t string) : bool :=
  JSMap.size items <=? limit.

Definition emptyStorage : Storage.t := Storage.mk [] [].

(** Dependencies are a list of strings, compared element by element. *)
Definition stringify (d : list string) : string :=
  "[" ++ String.concat "," (map (fun s => dq ++ s ++ dq) d) ++ "]".

Definition same_deps (a b : list string) : bool :=
  if list_eq_dec string_dec a b then true else false.

Definition searchParams : KeyBuilder.Params :=
  [ ("type", KeyBuilder.SStr "movie"); ("tag", KeyBuilder.SStr "");
    ("page", KeyBuilder.SNum 2); ("adult", KeyBuilder.SBool false) ].

Definition searchParams' : KeyBuilder.Params :=
  [ ("page", KeyBuilder.SNum 2); ("q", KeyBuilder.SUndefined);
    ("adult", KeyBuilder.SBool false); ("type", KeyBuilder.SStr "movie") ].

(** A hook on the empty cache of a fresh page, and two sets of options. *)
Definition optsA : @UseCachedData.Options (list string) :=
  UseCachedData.mkOptions "douban-movie" ["movie"] 7200 true true.

Definition optsB : @UseCachedData.Options (list string) :=
  UseCachedData.mkOptions "douban-tv" ["tv"] 7200 true true.

Definition cache0 : UnifiedCache.t Z :=
  UnifiedCache.create UnifiedCache.globalConfig (Some emptyStorage).

(** The same cache after a value was stored for the first key. *)
Definition cache1 : UnifiedCache.t Z :=
  state_of
    (UnifiedCache.set (quota 100) JSON_stringify JSON_parse 0
       "douban-movie" 42 7200 cache0).

Definition step :=
  UseCachedData.step (T:=Z) is_null (quota 100) JSON_stringify JSON_parse
    stringify same_deps.

Definition run :=
  UseCachedData.run (T:=Z) is_null (quota 100) JSON_stringify JSON_parse
    stringify same_deps.

Definition w0 : UseCachedData.World :=
  UseCachedData.mkWorld (UseCachedData.mount stringify optsA) cache0.

End TestHost.

(** ** A host whose payloads may be [null]

    Payloads are an integer or [null] ([None]); the codec writes the
    latter as [null]. *)

Module NullableHost.

Definition is_null (v : option Z) : bool :=
  match v with
  | None => true
  | Some _ => false
  end.

Definition payload (v : option Z) : string :=
  match v with
  | Some n => TestHost.number n
  | None => "null"
  end.

Definition entryText (d : option Z) (t l : Z) : string :=
  "{" ++ TestHost.field "data" ++ payload d ++ ","
      ++ TestHost.field "timestamp" ++ TestHost.number t ++ ","
      ++ TestHost.field "ttl" ++ TestHost.number l ++ "}".

Definition JSON_stringify (e : Entry.CacheEntry (option Z))
  : option string :=
  Some (entryText (Entry.data e) (Entry.timestamp e) (Entry.ttl e)).

Definition read_payload (s : string) : option (option Z * string) :=
  match TestHost.strip "null" s with
  | Some rest => Some (None, rest)
  | None =>
      match TestHost.read_int s with
      | Some (n, rest) => Some (Some n, rest)
      | None => None
      end
  end.

Definition JSON_parse (s : string) : option (Entry.CacheEntry (option Z)) :=
  match TestHost.strip ("{" ++ TestHost.field "data") s with
  | None => None
  | Some s0 =>
  match read_payload s0 with
  | None => None
  | Some (d, s1) =>
  match TestHost.strip "," s1 with
  | None => None
  | Some s2 =>
  match TestHost.read_field "timestamp" s2 with
  | None => None
  | Some (t, s3) =>
  match TestHost.strip "," s3 with
  | None => None
  | Some s4 =>
  match TestHost.read_field "ttl" s4 with
  | None => None
  | Some (l, s5) =>
      if (s5 =? "}")%string then Some (Entry.mk d t l) else None
  end end end end end end.

Definition cache0 : UnifiedCache.t (option Z) :=
  UnifiedCache.create UnifiedCache.globalConfig (Some TestHost.emptyStorage).

Definition step :=
  UseCachedData.step (T:=option Z) is_null (TestHost.quota 100)
    JSON_stringify JSON_parse TestHost.stringify TestHost.same_deps.

Definition run :=
  UseCachedData.run (T:=option Z) is_null (TestHost.quota 100)
    JSON_stringify JSON_parse TestHost.stringify TestHost.same_deps.

(** The hook mounted on the empty cache of a fresh page. *)
Definition w0 : UseCachedData.World :=
  UseCachedData.mkWorld
    (UseCachedData.mount TestHost.stringify TestHost.optsA) cache0.

End NullableHost.


(** ** Runs of cache operations

    The calls a user of one tier can make, and a tier after a list of them. *)

Module MemoryCacheOps.

Inductive Op (T : Type) : Type :=
| OSet (now : Z) (key : string) (data : T) (ttlSeconds : Z)
| OGet (now : Z) (key : string)
| ODelete (key : string)
| OClear.

Arguments OSet {T} _ _ _ _.
Arguments OGet {T} _ _.
Arguments ODelete {T} _.
Arguments OClear {T}.

Definition apply {T : Type} (op : Op T) (c : MemoryCache.t T)
  : MemoryCache.t T :=
  match op with
  | OSet now key data ttlSeconds => MemoryCache.set now key data ttlSeconds c
  | OGet now key => snd (MemoryCache.get now key c)
  | ODelete key => MemoryCache.delete key c
  | OClear => MemoryCache.clear c
  end.

Definition run {T : Type} (ops : list (Op T)) (c : MemoryCache.t T)
  : MemoryCache.t T :=
  fold_left (fun c op => apply op c) ops c.

(** The key an operation stores under, if it stores. *)
Definition stored_key {T : Type} (op : Op T) : option string :=
  match op with
  | OSet _ key _ _ => Some key
  | _ => None
  end.

Definition stores_named {T : Type} (ops : list (Op T)) : bool :=
  forallb (fun op => match stored_key op with
                     | Some key => negb (key =? "")%string
                     | None => true
                     end) ops.

End MemoryCacheOps.

Module LocalStorageCacheOps.

Inductive Op (T : Type) : Type :=
| OSet (now : Z) (key : string) (data : T) (ttlSeconds : Z)
| OGet (now : Z) (key : string)
| ODelete (key : string)
| OCleanExpired (now : Z)
| OClear.

Arguments OSet {T} _ _ _ _.
Arguments OGet {T} _ _.
Arguments ODelete {T} _.
Arguments OCleanExpired {T} _.
Arguments OClear {T}.

Section Host.
Context {T : Type}.
Variable quota : JSMap.t string -> bool.
Variable JSON_stringify : Entry.CacheEntry T -> option string.
Variable JSON_parse : string -> option (Entry.CacheEntry T).

Definition apply (op : Op T) (c : LocalStorageCache.t)
  : LocalStorageCache.t :=
  match op with
  | OSet now key data ttlSeconds =>
      state_of (LocalStorageCache.set quota JSON_stringify JSON_parse
                  now key data ttlSeconds c)
  | OGet now key => snd (LocalStorageCache.get JSON_parse now key c)
  | ODelete key => LocalStorageCache.delete key c
  | OCleanExpired now =>
      snd (LocalStorageCache.cleanExpired JSON_parse now c)
  | OClear => LocalStorageCache.clear c
  end.

Definition run (ops : list (Op T)) (c : LocalStorageCache.t)
  : LocalStorageCache.t :=
  fold_left (fun c op => apply op c) ops c.

End Host.

(** The item the host's storage holds under [k], if it has a storage. *)
Definition item (k : string) (c : LocalStorageCache.t) : option string :=
  match LocalStorageCache.localStorage c with
  | Some st => Storage.getItem k st
  | None => None
  end.

End LocalStorageCacheOps.

(** ** [useSimpleCachedData] *)

Module UseSimpleCachedData.

Section Hook.
Context {D : Type}.
Variable localeCompare : string -> string -> Z.
Variable stringify : D -> string.

(** The key is generated from the prefix and the text of the
    dependencies; the other options are left to their defaults. *)
Definition cacheKey (cacheKeyPrefix : string) (dependencies : D) : string :=
  KeyBuilder.generateCacheKey localeCompare cacheKeyPrefix
    [("deps", KeyBuilder.SStr (stringify dependencies))].

Definition useSimpleCachedData (cacheKeyPrefix : string) (dependencies : D)
  : @UseCachedData.Options D :=
  UseCachedData.mkOptions (cacheKey cacheKeyPrefix dependencies)
    dependencies 7200 true true.

End Hook.

End UseSimpleCachedData.

(** ** Kinds of events of [useCachedData] *)

Module HookEvents.

Section Kinds.
Context {T D : Type}.

(** A render, and nothing else. *)
Definition is_render (ev : @UseCachedData.Event T D) : bool :=
  match ev with
  | UseCachedData.Render _ => true
  | _ => false
  end.

(** An event that is no call of [refresh], and no render with
    [fetchOnMount] set. *)
Definition no_fetch_asked (ev : @UseCachedData.Event T D) : bool :=
  match ev with
  | UseCachedData.Render o => negb (UseCachedData.fetchOnMount o)
  | UseCachedData.Refresh => false
  | _ => true
  end.

(** An event of a hook that is used with [enableCache] off and never asked
    to clear the cache, in a world where no other component changes the
    cache. *)
Definition cache_unused (ev : @UseCachedData.Event T D) : bool :=
  match ev with
  | UseCachedData.Render o => negb (UseCachedData.enableCache o)
  | UseCachedData.ClearCache => false
  | UseCachedData.CacheChanges _ => false
  | _ => true
  end.

End Kinds.

End HookEvents.

(** ** The version check

    The functions of the version check that compute: the timestamp format,
    the comparison, the choice among the answers of the mirrors, the result
    of the client-side check, and the cache of the result in memory and in
    [sessionStorage]. *)

Module VersionCheck.

Inductive UpdateStatus : Type :=
| CHECKING
| HAS_UPDATE
| NO_UPDATE
| FETCH_FAILED.

(** [interface VersionCheckResult]; an absent field is [None]. *)
Record VersionCheckResult : Type := mkResult {
  status : UpdateStatus;
  localTimestamp : option string;
  remoteTimestamp : option string;
  formattedLocalTime : option string;
  formattedRemoteTime : option string;
  error : option string
}.

Definition is_digit (c : ascii) : bool :=
  let n := N_of_ascii c in ((48 <=? n) && (n <=? 57))%N.

Fixpoint all_digits (s : string) : bool :=
  match s with
  | EmptyString => true
  | String c s' => is_digit c && all_digits s'
  end.

(** The digits of a string, in order. *)
Fixpoint digits_of (s : string) : string :=
  match s with
  | EmptyString => EmptyString
  | String c s' =>
      if is_digit c then String c (digits_of s') else digits_of s'
  end.

(** The regular expression [^\d{14}$]: fourteen decimal digits and nothing
    else. *)
Definition isValidTimestamp (timestamp : string) : bool :=
  (String.length timestamp =? 14)%nat && all_digits timestamp.

(** [s.slice(a, b)] for [0 <= a <= b <= s.length]. *)
Definition slice (a b : nat) (s : string) : string :=
  String.substring a (b - a) s.

Definition formatTimestamp (timestamp : string) : string :=
  if negb (isValidTimestamp timestamp) then timestamp
  else
    let year := slice 0 4 timestamp in
    let month := slice 4 6 timestamp in
    let day := slice 6 8 timestamp in
    let hour := slice 8 10 timestamp in
    let minute := slice 10 12 timestamp in
    let second := slice 12 14 timestamp in
    year ++ "-" ++ month ++ "-" ++ day ++ " "
         ++ hour ++ ":" ++ minute ++ ":" ++ second.

(** [BigInt(s)] for a string of decimal digits, the empty string included
    ([BigInt('')] is [0n]).  The other strings, which [BigInt] reads in
    other ways or rejects with a [SyntaxError], are not in the model:
    [None]. *)
Fixpoint digits_value (acc : Z) (s : string) : Z :=
  match s with
  | EmptyString => acc
  | String c s' =>
      digits_value (10 * acc + (Z.of_N (N_of_ascii c) - 48)) s'
  end.

Definition BigInt (s : string) : option Z :=
  if all_digits s then Some (digits_value 0 s) else None.

Definition compareTimestamps (local remote : string) : option Z :=
  match BigInt local, BigInt remote with
  | Some localNum, Some remoteNum =>
      Some (if localNum >? remoteNum then 1
            else if localNum <? remoteNum then -1
            else 0)
  | _, _ => None
  end.

(** What a fetch comes to: the promise rejects (network failure, abort on
    timeout), or there is a response, with its [ok] flag and its body. *)
Inductive Fetched : Type :=
| Failed
| Response (ok : bool) (text : string).

(** [!value] for a string that may be [null]. *)
Definition falsy (o : option string) : bool :=
  match o with
  | None => true
  | Some s => (s =? "")%string
  end.

Section Host.

(** [String.prototype.trim], and the message of the [SyntaxError] that
    [BigInt] throws. *)
Variable trim : string -> string.
Variable syntaxErrorMessage : string -> string.

(** One request of [fetchRemoteTimestamp] or [fetchLocalTimestamp]: the
    trimmed body of an [ok] response, if it is a timestamp. *)
Definition read_timestamp (f : Fetched) : option string :=
  match f with
  | Response true text =>
      let text := trim text in
      if isValidTimestamp text then Some text else None
  | _ => None
  end.

(** [fetchRemoteTimestamp], given what each of [REMOTE_VERSION_URLS]
    answers, in the order of that list: all are awaited, and the first
    answer of the list that is a timestamp is returned. *)
Fixpoint fetchRemoteTimestamp (answers : list Fetched) : option string :=
  match answers with
  | [] => None
  | f :: rest =>
      match read_timestamp f with
      | Some text => if falsy (Some text) then fetchRemoteTimestamp rest
                     else Some text
      | None => fetchRemoteTimestamp rest
      end
  end.

(** [fetchLocalTimestamp], given what each of its paths answers: the paths
    are tried in turn until one gives a timestamp. *)
Fixpoint fetchLocalTimestamp (answers : list Fetched) : option string :=
  match answers with
  | [] => None
  | f :: rest =>
      match read_timestamp f with
      | Some text => Some text
      | None => fetchLocalTimestamp rest
      end
  end.

Definition localUnreadable : string := "无法读取本地版本信息".
Definition serverUnreachable : string := "无法连接到更新服务器".

(** [checkViaClientDirect], given the answers to the two groups of
    requests. *)
Definition checkViaClientDirect (localAnswers remoteAnswers : list Fetched)
  : VersionCheckResult :=
  let localTimestamp := fetchLocalTimestamp localAnswers in
  let remoteTimestamp := fetchRemoteTimestamp remoteAnswers in
  let noLocal :=
    mkResult FETCH_FAILED None None None None (Some localUnreadable) in
  match localTimestamp with
  | None => noLocal
  | Some l =>
      if falsy localTimestamp then noLocal
      else
        let noRemote :=
          mkResult FETCH_FAILED localTimestamp None
            (Some (formatTimestamp l)) None (Some serverUnreachable) in
        match remoteTimestamp with
        | None => noRemote
        | Some r =>
            if falsy remoteTimestamp then noRemote
            else
              match compareTimestamps l r with
              | Some comparison =>
                  if comparison <? 0 then
                    mkResult HAS_UPDATE localTimestamp remoteTimestamp
                      (Some (formatTimestamp l)) (Some (formatTimestamp r))
                      None
                  else
                    mkResult NO_UPDATE localTimestamp remoteTimestamp
                      (Some (formatTimestamp l)) (Some (formatTimestamp r))
                      None
              | None =>
                  (* the catch branch: [BigInt] threw *)
                  mkResult FETCH_FAILED None None None None
                    (Some (syntaxErrorMessage
                             (match BigInt l with
                              | Some _ => r
                              | None => l
                              end)))
              end
        end
  end.

(** The JSON of the [/api/version/check] response that [checkViaApi]
    reads. *)
Record ApiData : Type := mkApiData {
  success : bool;
  apiLocalTimestamp : option string;
  hasUpdate : bool;
  apiRemoteTimestamp : option string
}.

(** What the request of [checkViaApi] comes to: the fetch or the parsing of
    the body fails, or there is a response with its [ok] flag and its
    data. *)
Inductive ApiAnswer : Type :=
| ApiFailed
| ApiResponse (ok : bool) (data : option ApiData).

Definition checkViaApi (answer : ApiAnswer) : option VersionCheckResult :=
  match answer with
  | ApiResponse true (Some data) =>
      match apiLocalTimestamp data with
      | Some l =>
          if negb (success data) || falsy (Some l) then None
          else
            Some (mkResult
                    (if hasUpdate data then HAS_UPDATE else NO_UPDATE)
                    (Some l) (apiRemoteTimestamp data)
                    (Some (formatTimestamp l))
                    (match apiRemoteTimestamp data with
                     | Some r =>
                         if falsy (Some r) then None
                         else Some (formatTimestamp r)
                     | None => None
                     end)
                    None)
      | None => None
      end
  | _ => None
  end.

(** The request of [checkForUpdates]: the API first, the client-side check
    when the API gives nothing. *)
Definition check (api : ApiAnswer) (localAnswers remoteAnswers : list Fetched)
  : VersionCheckResult :=
  match checkViaApi api with
  | Some apiResult => apiResult
  | None => checkViaClientDirect localAnswers remoteAnswers
  end.

End Host.

(** *** The cache of the result *)

Definition CACHE_TTL : Z := 5 * 60 * 1000.

(** [{ result, timestamp }] *)
Record Cached : Type := mkCached {
  result : VersionCheckResult;
  timestamp : Z
}.

(** The module's state: whether there is a [window], the two module
    variables, the item of [sessionStorage] under [CACHE_KEY], and the
    number of requests started so far. *)
Record State : Type := mkState {
  window : bool;
  memoryCache : option Cached;
  sessionItem : option string;
  pendingRequest : bool;
  requests : nat
}.

Section Cache.

(** The host: the JSON codec on the cached record ([JSON_parse] is [None]
    when it throws; a text that parses is taken to be that of a record),
    and whether [sessionStorage] takes a text. *)
Variable JSON_stringify : Cached -> string.
Variable JSON_parse : string -> option Cached.
Variable sessionFits : string -> bool.

Definition getCachedResult (now : Z) (st : State)
  : option VersionCheckResult * State :=
  if negb (window st) then (None, st)
  else
    let fromSession :=
      match sessionItem st with
      | None => (None, st)
      | Some cached =>
          if (cached =? "")%string then (None, st)
          else
            match JSON_parse cached with
            | Some c =>
                if now - timestamp c <? CACHE_TTL then
                  (Some (result c),
                   mkState (window st) (Some c) (sessionItem st)
                     (pendingRequest st) (requests st))
                else
                  (None,
                   mkState (window st) (memoryCache st) None
                     (pendingRequest st) (requests st))
            | None => (None, st)
            end
      end in
    match memoryCache st with
    | Some m =>
        if now - timestamp m <? CACHE_TTL then (Some (result m), st)
        else fromSession
    | None => fromSession
    end.

Definition setCachedResult (now : Z) (r : VersionCheckResult) (st : State)
  : State :=
  if negb (window st) then st
  else
    let c := mkCached r now in
    let text := JSON_stringify c in
    mkState (window st) (Some c)
      (if sessionFits text then Some text else sessionItem st)
      (pendingRequest st) (requests st).

(** What a call of [checkForUpdates] hands back: a result at once, or the
    promise of the request under way. *)
Inductive Handed : Type :=
| Now (r : VersionCheckResult)
| Pending.

(** [checkForUpdates()] up to its first [await]. *)
Definition checkForUpdates (now : Z) (st : State) : Handed * State :=
  match getCachedResult now st with
  | (Some cached, st') => (Now cached, st')
  | (None, st') =>
      if pendingRequest st' then (Pending, st')
      else
        (Pending,
         mkState (window st') (memoryCache st') (sessionItem st') true
           (S (requests st')))
  end.

(** The request under way comes to its result: it is cached, and
    [pendingRequest] is cleared. *)
Definition settle (now : Z) (r : VersionCheckResult) (st : State) : State :=
  if pendingRequest st then
    let st' := setCachedResult now r st in
    mkState (window st') (memoryCache st') (sessionItem st') false
      (requests st')
  else st.

Inductive Event : Type :=
| Call (now : Z)
| Settles (now : Z) (r : VersionCheckResult).

Definition step (ev : Event) (st : State) : State :=
  match ev with
  | Call now => snd (checkForUpdates now st)
  | Settles now r => settle now r st
  end.

Definition run (evs : list Event) (st : State) : State :=
  fold_left (fun st ev => step ev st) evs st.

(** A page freshly loaded. *)
Definition fresh (session : option string) : State :=
  mkState true None session false 0.

Definition is_call (ev : Event) : bool :=
  match ev with
  | Call _ => true
  | Settles _ _ => false
  end.

(** A call made at a time less than [CACHE_TTL] after [t]. *)
Definition call_within (t : Z) (ev : Event) : bool :=
  match ev with
  | Call now => now - t <? CACHE_TTL
  | Settles _ _ => false
  end.

End Cache.

End VersionCheck.

(** ** [useDoubanInfo]

    The hook as a transition system: its seven state variables, the
    arguments of its latest render, and the number of requests of each kind
    that have not settled.  A response carries no mark of the request it
    answers, and the hook keeps none. *)

Module UseDoubanInfo.

(** [doubanId: string | number | null | undefined] *)
Inductive DoubanId : Type :=
| IdString (s : string)
| IdNumber (n : Z)
| IdNull
| IdUndefined.

Definition truthy (id : DoubanId) : bool :=
  match id with
  | IdString s => negb (s =? "")%string
  | IdNumber n => negb (n =? 0)
  | IdNull | IdUndefined => false
  end.

(** [Object.is] on two ids. *)
Definition same_id (a b : DoubanId) : bool :=
  match a, b with
  | IdString s, IdString s' => (s =? s')%string
  | IdNumber n, IdNumber n' => n =? n'
  | IdNull, IdNull => true
  | IdUndefined, IdUndefined => true
  | _, _ => false
  end.

Section Hook.
Context {Detail Comment : Type}.

(** The arguments of the hook, the options with their defaults filled
    in. *)
Record Props : Type := mkProps {
  doubanId : DoubanId;
  shouldFetchDetail : bool;
  shouldFetchComments : bool;
  commentsCount : Z
}.

(** [DoubanCommentsResponse], of which the hook reads two fields that may
    be missing. *)
Record CommentsResponse : Type := mkComments {
  responseComments : option (list Comment);
  responseTotal : option Z
}.

Record Hook : Type := mkHook {
  detail : option Detail;
  detailLoading : bool;
  detailError : option string;
  comments : list Comment;
  commentsLoading : bool;
  commentsError : option string;
  commentsTotal : Z;
  props : Props;
  detailPending : nat;
  commentsPending : nat
}.

(** [refreshDetail()] up to its [await]. *)
Definition refreshDetail (h : Hook) : Hook :=
  if negb (truthy (doubanId (props h))) then h
  else
    mkHook (detail h) true None (comments h) (commentsLoading h)
           (commentsError h) (commentsTotal h) (props h)
           (S (detailPending h)) (commentsPending h).

(** [refreshComments()] up to its [await]. *)
Definition refreshComments (h : Hook) : Hook :=
  if negb (truthy (doubanId (props h))) then h
  else
    mkHook (detail h) (detailLoading h) (detailError h) (comments h) true
           None (commentsTotal h) (props h)
           (detailPending h) (S (commentsPending h)).

(** The effect, run at mount and after a render that changed one of its
    dependencies. *)
Definition effect (h : Hook) : Hook :=
  if negb (truthy (doubanId (props h))) then
    mkHook None (detailLoading h) (detailError h) [] (commentsLoading h)
           (commentsError h) 0 (props h)
           (detailPending h) (commentsPending h)
  else
    let h1 := if shouldFetchDetail (props h) then refreshDetail h else h in
    if shouldFetchComments (props h1) then refreshComments h1 else h1.

Definition setProps (p : Props) (h : Hook) : Hook :=
  mkHook (detail h) (detailLoading h) (detailError h) (comments h)
         (commentsLoading h) (commentsError h) (commentsTotal h) p
         (detailPending h) (commentsPending h).

Definition mount (p : Props) : Hook :=
  effect (mkHook None false None [] false None 0 p 0 0).

(** The dependencies of the effect: the id and the two flags, and the two
    callbacks, which change with the id and with [commentsCount]. *)
Definition deps_changed (p q : Props) : bool :=
  negb (same_id (doubanId p) (doubanId q))
  || negb (Bool.eqb (shouldFetchDetail p) (shouldFetchDetail q))
  || negb (Bool.eqb (shouldFetchComments p) (shouldFetchComments q))
  || negb (commentsCount p =? commentsCount q).

Inductive Event : Type :=
| Render (p : Props)
| RefreshDetail
| RefreshComments
| DetailResolves (data : Detail)
| DetailRejects (e : UseCachedData.Rejection)
| CommentsResolves (data : CommentsResponse)
| CommentsRejects (e : UseCachedData.Rejection).

Definition step (ev : Event) (h : Hook) : Hook :=
  match ev with
  | Render p =>
      if deps_changed p (props h) then effect (setProps p h)
      else setProps p h
  | RefreshDetail => refreshDetail h
  | RefreshComments => refreshComments h
  | DetailResolves data =>
      match detailPending h with
      | O => h
      | S n =>
          mkHook (Some data) false (detailError h) (comments h)
                 (commentsLoading h) (commentsError h) (commentsTotal h)
                 (props h) n (commentsPending h)
      end
  | DetailRejects e =>
      match detailPending h with
      | O => h
      | S n =>
          mkHook (detail h) false (Some (UseCachedData.errorMessage e))
                 (comments h) (commentsLoading h) (commentsError h)
                 (commentsTotal h) (props h) n (commentsPending h)
      end
  | CommentsResolves data =>
      match commentsPending h with
      | O => h
      | S n =>
          mkHook (detail h) (detailLoading h) (detailError h)
                 (match responseComments data with
                  | Some l => l
                  | None => []
                  end)
                 false (commentsError h)
                 (match responseTotal data with
                  | Some t => t
                  | None => 0
                  end)
                 (props h) (detailPending h) n
      end
  | CommentsRejects e =>
      match commentsPending h with
      | O => h
      | S n =>
          mkHook (detail h) (detailLoading h) (detailError h) (comments h)
                 false (Some (UseCachedData.errorMessage e))
                 (commentsTotal h) (props h) (detailPending h) n
      end
  end.

Definition run (evs : list Event) (h : Hook) : Hook :=
  fold_left (fun h ev => step ev h) evs h.

(** An event of a hook that is given no id: a render without one, or
    anything that is no render. *)
Definition without_id (ev : Event) : bool :=
  match ev with
  | Render p => negb (truthy (doubanId p))
  | _ => true
  end.

End Hook.

End UseDoubanInfo.

(** ** More of the host to run the program on *)

Module Scenario.

(** A storage with an expired entry, a fresh one and a text that does not
    parse in the namespace of the cache, and an item of another owner. *)
Definition mixedStorage : Storage.t :=
  Storage.mk
    [ ("deco-cache:old", TestHost.entryText 1 0 60);
      ("theme", "dark");
      ("deco-cache:fresh", TestHost.entryText 2 90000 60);
      ("deco-cache:bad", "garbage") ] [].

Definition mixedCache : LocalStorageCache.t :=
  LocalStorageCache.mk "deco-cache:" (Some mixedStorage).

Definition durableOps : list (LocalStorageCacheOps.Op Z) :=
  [ LocalStorageCacheOps.OSet 100000 "new" 7 60;
    LocalStorageCacheOps.OGet 100000 "bad";
    LocalStorageCacheOps.OCleanExpired 100000;
    LocalStorageCacheOps.ODelete "fresh";
    LocalStorageCacheOps.OClear ].

(** A result of the version check, and a codec for the cached record that
    writes the time and reads it back, the result being this one. *)
Definition upToDate : VersionCheck.VersionCheckResult :=
  VersionCheck.mkResult VersionCheck.NO_UPDATE
    (Some "20250101120000") (Some "20250101120000")
    (Some "2025-01-01 12:00:00") (Some "2025-01-01 12:00:00") None.

Definition stringifyCached (c : VersionCheck.Cached) : string :=
  "t=" ++ TestHost.number (VersionCheck.timestamp c).

Definition parseCached (text : string) : option VersionCheck.Cached :=
  match TestHost.strip "t=" text with
  | Some rest =>
      match TestHost.read_int rest with
      | Some (t, EmptyString) => Some (VersionCheck.mkCached upToDate t)
      | _ => None
      end
  | None => None
  end.

(** Arguments of [useDoubanInfo]: a film, and no film. *)
Definition film : @UseDoubanInfo.Props :=
  UseDoubanInfo.mkProps (UseDoubanInfo.IdNumber 1292052) true true 6.

Definition noFilm : @UseDoubanInfo.Props :=
  UseDoubanInfo.mkProps UseDoubanInfo.IdNull true true 6.

Definition noFilm' : @UseDoubanInfo.Props :=
  UseDoubanInfo.mkProps (UseDoubanInfo.IdString "") true false 3.

(** Options with [fetchOnMount] off, and options with [enableCache] off. *)
Definition optsIdle : @UseCachedData.Options (list string) :=
  UseCachedData.mkOptions "douban-movie" ["movie"] 7200 true false.

Definition optsIdle' : @UseCachedData.Options (list string) :=
  UseCachedData.mkOptions "douban-tv" ["tv"] 7200 true false.

Definition optsNoCache : @UseCachedData.Options (list string) :=
  UseCachedData.mkOptions "douban-movie" ["movie"] 7200 false true.

(** The hook mounted on the cache that holds a value for its key. *)
Definition w1 : UseCachedData.World :=
  UseCachedData.mkWorld
    (UseCachedData.mount TestHost.stringify TestHost.optsA) TestHost.cache1.

End Scenario.

(* ================================================================== *)
(** * Part II: properties                                              *)
(* ================================================================== *)

(** ** The order of strings by bytes *)

Lemma string_leb_trans (a b c : string) :
  String.leb a b = true -> String.leb b c = true -> String.leb a c = true.
Proof.
  unfold String.leb.
  revert b c.
  induction a as [|x a IH]; intros [|y b] [|z c]; simpl; try easy.
  unfold Ascii.compare.
  destruct (N.compare_spec (N_of_ascii x) (N_of_ascii y)) as [Hxy|Hxy|Hxy];
    destruct (N.compare_spec (N_of_ascii y) (N_of_ascii z)) as [Hyz|Hyz|Hyz];
    try easy;
    destruct (N.compare_spec (N_of_ascii x) (N_of_ascii z)) as [Hxz|Hxz|Hxz];
    try easy; try lia.
  apply IH.
Qed.

Lemma string_leb_antisym (a b : string) :
  String.leb a b = true -> String.leb b a = true -> a = b.
Proof.
  unfold String.leb.
  rewrite (String.compare_antisym a b).
  destruct (String.compare b a) eqn:E; simpl; try easy.
  intros _ _. symmetry. now apply String.compare_eq_iff.
Qed.

(** ** Sorting the entries *)

Section SortFacts.
Import KeyBuilder.
Variable cmp : string -> string -> Z.

Lemma insert_entry_perm (x : string * Scalar) (l : Params) :
  Permutation (insert_entry cmp x l) (x :: l).
Proof.
  induction l as [|y l IH]; simpl.
  - apply Permutation_refl.
  - destruct (cmp (fst x) (fst y) <=? 0).
    + apply Permutation_refl.
    + apply Permutation_trans with (y :: x :: l).
      * now apply perm_skip.
      * apply perm_swap.
Qed.

Lemma sort_entries_perm (l : Params) : Permutation (sort_entries cmp l) l.
Proof.
  induction l as [|x l IH]; simpl.
  - apply Permutation_refl.
  - apply Permutation_trans with (x :: sort_entries cmp l).
    + apply insert_entry_perm.
    + now apply perm_skip.
Qed.

(** The sort orders the entries for any relation on keys that the comparator
    decides on the keys at hand. *)
Section Sortedness.
Variable Rk : string -> string -> Prop.
Variable ks : list string.
Hypothesis before : forall a b,
  In a ks -> In b ks -> cmp a b <= 0 -> Rk a b.
Hypothesis after : forall a b,
  In a ks -> In b ks -> ~ cmp a b <= 0 -> Rk b a.
Hypothesis Rk_trans : forall a b c,
  In a ks -> In b ks -> In c ks -> Rk a b -> Rk b c -> Rk a c.

Let R (x y : string * Scalar) : Prop := Rk (fst x) (fst y).

Lemma insert_entry_sorted (x : string * Scalar) (l : Params) :
  In (fst x) ks ->
  (forall e, In e l -> In (fst e) ks) ->
  StronglySorted R l -> StronglySorted R (insert_entry cmp x l).
Proof.
  intros Hx Hl Hs.
  induction Hs as [|y l Hs IH Hy]; simpl.
  - constructor; constructor.
  - assert (Hyk : In (fst y) ks) by (apply Hl; now left).
    assert (Hl' : forall e, In e l -> In (fst e) ks)
      by (intros e He; apply Hl; now right).
    destruct (cmp (fst x) (fst y) <=? 0) eqn:E.
    + apply Z.leb_le in E.
      constructor.
      * now constructor.
      * constructor.
        -- now apply before.
        -- rewrite Forall_forall in *. intros z Hz.
           unfold R.
           apply Rk_trans with (fst y);
             [exact Hx | exact Hyk | now apply Hl' | now apply before
             | now apply Hy].
    + apply Z.leb_gt in E.
      constructor.
      * now apply IH.
      * rewrite Forall_forall in *. intros z Hz.
        apply (Permutation_in _ (insert_entry_perm x l)) in Hz.
        destruct Hz as [<-|Hz]; [|now apply Hy].
        unfold R. apply after; [exact Hx | exact Hyk | lia].
Qed.

Lemma sort_entries_sorted (l : Params) :
  (forall e, In e l -> In (fst e) ks) ->
  StronglySorted R (sort_entries cmp l).
Proof.
  induction l as [|x l IH]; intros Hl; simpl.
  - constructor.
  - apply insert_entry_sorted.
    + apply Hl. now left.
    + intros e He. apply Hl. right.
      now apply (Permutation_in _ (sort_entries_perm l)).
    + apply IH. intros e He. apply Hl. now right.
Qed.

End Sortedness.

End SortFacts.

(** Two sorted arrangements of the same entries, each key once, are the same
    list. *)
Lemma sorted_perm_unique (R : string * KeyBuilder.Scalar ->
                              string * KeyBuilder.Scalar -> Prop)
  (l1 l2 : KeyBuilder.Params) :
  (forall x y, In x l1 -> In y l1 -> R x y -> R y x -> fst x = fst y) ->
  NoDup (map fst l1) ->
  StronglySorted R l1 -> StronglySorted R l2 ->
  Permutation l1 l2 -> l1 = l2.
Proof.
  revert l2.
  induction l1 as [|x t1 IH]; intros l2 Hanti Hnd Hs1 Hs2 Hp.
  - apply Permutation_nil in Hp. now subst.
  - destruct l2 as [|y t2].
    + apply Permutation_sym, Permutation_nil in Hp. discriminate.
    + assert (Hxy : x = y).
      { assert (Hx : In x (y :: t2))
          by (apply (Permutation_in _ Hp); now left).
        assert (Hy : In y (x :: t1))
          by (apply (Permutation_in _ (Permutation_sym Hp)); now left).
        destruct Hx as [Hx|Hx]; [now subst|].
        destruct Hy as [Hy|Hy]; [now subst|].
        exfalso.
        inversion Hs1 as [|? ? _ F1]; subst.
        inversion Hs2 as [|? ? _ F2]; subst.
        rewrite Forall_forall in F1, F2.
        assert (E : fst x = fst y).
        { apply Hanti; [now left|now right|now apply F1|now apply F2]. }
        inversion Hnd as [|? ? Hnin _]; subst.
        apply Hnin. rewrite E. now apply in_map. }
      subst y. f_equal.
      apply IH.
      * intros a b Ha Hb. apply Hanti; now right.
      * now inversion Hnd.
      * now inversion Hs1.
      * now inversion Hs2.
      * now apply Permutation_cons_inv in Hp.
Qed.

Lemma NoDup_keys_filter (f : string * KeyBuilder.Scalar -> bool)
  (l : KeyBuilder.Params) :
  NoDup (map fst l) -> NoDup (map fst (filter f l)).
Proof.
  induction l as [|x l IH]; simpl; intros Hnd.
  - constructor.
  - inversion Hnd as [|? ? Hnin Hnd']; subst.
    destruct (f x); simpl; [constructor|]; auto.
    intros Hin. apply Hnin.
    apply in_map_iff in Hin. destruct Hin as [e [He Hin]].
    apply filter_In in Hin. rewrite <- He. apply in_map. tauto.
Qed.

Lemma consistent_on_spec (cmp : string -> string -> Z) (ks : list string) :
  KeyBuilder.consistent_on cmp ks = true ->
  (forall a b, In a ks -> In b ks -> cmp a b <= 0 \/ cmp b a <= 0) /\
  (forall a b, In a ks -> In b ks -> cmp a b <= 0 -> cmp b a <= 0 -> a = b) /\
  (forall a b c, In a ks -> In b ks -> In c ks ->
     cmp a b <= 0 -> cmp b c <= 0 -> cmp a c <= 0).
Proof.
  unfold KeyBuilder.consistent_on. intros H.
  rewrite forallb_forall in H.
  assert (H' : forall a b, In a ks -> In b ks ->
    ((cmp a b <=? 0) || (cmp b a <=? 0) = true) /\
    (implb ((cmp a b <=? 0) && (cmp b a <=? 0)) (a =? b)%string = true) /\
    (forall c, In c ks ->
       implb ((cmp a b <=? 0) && (cmp b c <=? 0)) (cmp a c <=? 0) = true)).
  { intros a b Ha Hb. specialize (H a Ha).
    rewrite forallb_forall in H. specialize (H b Hb).
    apply andb_prop in H. destruct H as [H H3].
    apply andb_prop in H. destruct H as [H1 H2].
    rewrite forallb_forall in H3. auto. }
  clear H. repeat split.
  - intros a b Ha Hb. destruct (H' a b Ha Hb) as [H _].
    apply orb_prop in H. rewrite !Z.leb_le in H. exact H.
  - intros a b Ha Hb Hab Hba. destruct (H' a b Ha Hb) as [_ [H _]].
    apply Z.leb_le in Hab, Hba. rewrite Hab, Hba in H. simpl in H.
    now apply String.eqb_eq.
  - intros a b c Ha Hb Hc Hab Hbc. destruct (H' a b Ha Hb) as [_ [_ H]].
    specialize (H c Hc).
    apply Z.leb_le in Hab, Hbc. rewrite Hab, Hbc in H. simpl in H.
    now apply Z.leb_le.
Qed.

Lemma bytewise_on_spec (cmp : string -> string -> Z) (ks : list string) :
  KeyBuilder.bytewise_on cmp ks = true ->
  forall a b, In a ks -> In b ks ->
    (cmp a b <= 0 <-> String.leb a b = true).
Proof.
  unfold KeyBuilder.bytewise_on. intros H a b Ha Hb.
  rewrite forallb_forall in H. specialize (H a Ha).
  rewrite forallb_forall in H. specialize (H b Hb).
  apply Bool.eqb_prop in H. rewrite <- H. apply iff_sym, Z.leb_le.
Qed.

(** ** The collations *)

Lemma byteCompare_le (a b : string) :
  KeyBuilder.byteCompare a b <= 0 <-> String.leb a b = true.
Proof.
  unfold KeyBuilder.byteCompare, String.leb.
  destruct (String.compare a b); split; intros H; try lia; easy.
Qed.

(** Byte order is a collation that orders any keys as their bytes do, and
    is a total order on them. *)
Lemma byteCompare_bytewise (ks : list string) :
  KeyBuilder.bytewise_on KeyBuilder.byteCompare ks = true.
Proof.
  unfold KeyBuilder.bytewise_on.
  apply forallb_forall. intros a _. apply forallb_forall. intros b _.
  apply Bool.eqb_true_iff.
  destruct (String.leb a b) eqn:E.
  - apply Z.leb_le. now apply byteCompare_le.
  - apply Z.leb_gt.
    destruct (Z.le_gt_cases (KeyBuilder.byteCompare a b) 0) as [H|H];
      [|lia].
    apply byteCompare_le in H. congruence.
Qed.

Lemma byteCompare_consistent (ks : list string) :
  KeyBuilder.consistent_on KeyBuilder.byteCompare ks = true.
Proof.
  unfold KeyBuilder.consistent_on.
  apply forallb_forall. intros a _. apply forallb_forall. intros b _.
  assert (L : forall x y,
            (KeyBuilder.byteCompare x y <=? 0) = String.leb x y).
  { intros x y. destruct (String.leb x y) eqn:E.
    - apply Z.leb_le. now apply byteCompare_le.
    - apply Z.leb_gt.
      destruct (Z.le_gt_cases (KeyBuilder.byteCompare x y) 0) as [H|H];
        [|lia].
      apply byteCompare_le in H. congruence. }
  rewrite !L.
  apply andb_true_intro. split; [apply andb_true_intro; split|].
  - destruct (String.leb_total a b) as [H|H]; rewrite H;
      [reflexivity|apply orb_true_r].
  - destruct (String.leb a b) eqn:E1;
      destruct (String.leb b a) eqn:E2; simpl; try reflexivity.
    apply String.eqb_eq. now apply string_leb_antisym.
  - apply forallb_forall. intros c _. rewrite !L.
    destruct (String.leb a b) eqn:E1;
      destruct (String.leb b c) eqn:E2; simpl; try reflexivity.
    now rewrite (string_leb_trans a b c).
Qed.

(** The default collation and byte order part ways on letters of different
    case. *)
Lemma letterCollation_case :
  KeyBuilder.letterCollation "a" "B" = -1
  /\ KeyBuilder.byteCompare "a" "B" = 1
  /\ KeyBuilder.letterCollation "a" "A" = -1.
Proof. repeat split. Qed.

(** ** [generateCacheKey] against its reference definition *)

Lemma sort_entries_NoDup (cmp : string -> string -> Z)
  (l : KeyBuilder.Params) :
  NoDup (map fst l) -> NoDup (map fst (KeyBuilder.sort_entries cmp l)).
Proof.
  apply Permutation_NoDup, Permutation_map, Permutation_sym,
    sort_entries_perm.
Qed.

Lemma sort_entries_keys (cmp : string -> string -> Z)
  (l : KeyBuilder.Params) (e : string * KeyBuilder.Scalar) :
  In e (KeyBuilder.sort_entries cmp l) -> In (fst e) (map fst l).
Proof.
  intros He. apply in_map.
  now apply (Permutation_in _ (sort_entries_perm cmp l)).
Qed.

(** C5 (as the code has it): the key is [prefix-] followed by the kept
    entries, sorted with the host's [localeCompare] and joined with [&].
    It is the reference definition, which sorts by byte value, whenever the
    collation orders the kept keys as their bytes do; and with no entry
    kept it is [prefix-], whatever the collation. *)
Theorem generateCacheKey_reference
  (localeCompare : string -> string -> Z) (prefix : string)
  (params : KeyBuilder.Params) :
  NoDup (KeyBuilder.keys params) ->
  KeyBuilder.bytewise_on localeCompare
    (KeyBuilder.keys (filter KeyBuilder.keep params)) = true ->
  KeyBuilder.generateCacheKey localeCompare prefix params
    = KeyBuilder.buildKey_ref prefix params
  /\ (filter KeyBuilder.keep params = [] ->
      KeyBuilder.generateCacheKey localeCompare prefix params
        = prefix ++ "-").
Proof.
  intros Hnd Hb. split.
  - unfold KeyBuilder.generateCacheKey, KeyBuilder.buildKey_ref.
    do 4 f_equal.
    set (l := filter KeyBuilder.keep params) in *.
    pose proof (bytewise_on_spec _ _ Hb) as Hspec.
    assert (Hndl : NoDup (map fst l)) by now apply NoDup_keys_filter.
    apply sorted_perm_unique
      with (R := fun x y => String.leb (fst x) (fst y) = true).
    + intros x y _ _. apply string_leb_antisym.
    + now apply sort_entries_NoDup.
    + apply sort_entries_sorted
        with (Rk := fun a b => String.leb a b = true)
             (ks := KeyBuilder.keys l).
      * intros a b Ha Hb'. now apply Hspec.
      * intros a b Ha Hb' Hn.
        destruct (String.leb_total a b) as [H|H]; [|exact H].
        exfalso. apply Hn. now apply Hspec.
      * intros a b c _ _ _. apply string_leb_trans.
      * intros e He. now apply in_map.
    + apply KeyBuilder.ByKey.StronglySorted_sort.
      intros x y z. unfold is_true, KeyBuilder.KeyOrder.leb.
      apply string_leb_trans.
    + apply Permutation_trans with l.
      * apply sort_entries_perm.
      * apply KeyBuilder.ByKey.Permuted_sort.
  - intros E. unfold KeyBuilder.generateCacheKey. now rewrite E.
Qed.

Lemma NoDup_keys_dec (p : KeyBuilder.Params) :
  KeyBuilder.distinct (KeyBuilder.keys p) = true ->
  NoDup (KeyBuilder.keys p).
Proof.
  induction (KeyBuilder.keys p) as [|k ks IH]; simpl; intros H.
  - constructor.
  - apply andb_prop in H. destruct H as [Hk Hd].
    constructor; [|now apply IH].
    intros Hin. apply negb_true_iff in Hk.
    assert (existsb (String.eqb k) ks = true); [|congruence].
    apply existsb_exists. exists k. split; [exact Hin|apply String.eqb_refl].
Qed.

Lemma generateCacheKey_reference_witness :
  KeyBuilder.generateCacheKey KeyBuilder.letterCollation "douban"
    TestHost.searchParams = "douban-adult=false&page=2&type=movie"
  /\ KeyBuilder.buildKey_ref "douban" TestHost.searchParams
     = "douban-adult=false&page=2&type=movie"
  /\ KeyBuilder.generateCacheKey KeyBuilder.letterCollation "douban"
       [("q", KeyBuilder.SUndefined)] = "douban-".
Proof.
  destruct (generateCacheKey_reference KeyBuilder.letterCollation "douban"
              TestHost.searchParams) as [H _].
  - apply NoDup_keys_dec. reflexivity.
  - reflexivity.
  - destruct (generateCacheKey_reference KeyBuilder.letterCollation
                "douban" [("q", KeyBuilder.SUndefined)]) as [_ H0].
    + apply NoDup_keys_dec. reflexivity.
    + reflexivity.
    + split; [|split].
      * reflexivity.
      * rewrite <- H. reflexivity.
      * apply H0. reflexivity.
Defined.

(** C5 (as stated) fails: [localeCompare] puts the key [a] before the key
    [B], whose byte is the smaller one. *)
Lemma generateCacheKey_reference_counterexample :
  KeyBuilder.generateCacheKey KeyBuilder.letterCollation "p"
    [("a", KeyBuilder.SNum 1); ("B", KeyBuilder.SNum 2)] = "p-a=1&B=2"
  /\ KeyBuilder.buildKey_ref "p"
       [("a", KeyBuilder.SNum 1); ("B", KeyBuilder.SNum 2)] = "p-B=2&a=1"
  /\ KeyBuilder.generateCacheKey KeyBuilder.letterCollation "p"
       [("a", KeyBuilder.SNum 1); ("B", KeyBuilder.SNum 2)]
     <> KeyBuilder.buildKey_ref "p"
          [("a", KeyBuilder.SNum 1); ("B", KeyBuilder.SNum 2)].
Proof.
  split; [|split]; try reflexivity.
  vm_compute. discriminate.
Qed.

(** C6 (as the code has it): two parameter maps with the same kept entries
    give the same key, in whatever order they were built and whichever
    undefined or empty entries they carry, when the collation is a total
    order on the kept keys that takes no two of them for equal. *)
Theorem generateCacheKey_deterministic
  (localeCompare : string -> string -> Z) (prefix : string)
  (P1 P2 : KeyBuilder.Params) :
  NoDup (KeyBuilder.keys P1) -> NoDup (KeyBuilder.keys P2) ->
  KeyBuilder.consistent_on localeCompare
    (KeyBuilder.keys (filter KeyBuilder.keep P1)) = true ->
  (forall e, In e (filter KeyBuilder.keep P1)
             <-> In e (filter KeyBuilder.keep P2)) ->
  KeyBuilder.generateCacheKey localeCompare prefix P1
    = KeyBuilder.generateCacheKey localeCompare prefix P2.
Proof.
  intros Hnd1 Hnd2 Hc Hset.
  unfold KeyBuilder.generateCacheKey. do 4 f_equal.
  set (l1 := filter KeyBuilder.keep P1) in *.
  set (l2 := filter KeyBuilder.keep P2) in *.
  destruct (consistent_on_spec _ _ Hc) as [Htot [Hanti Htrans]].
  assert (Hk1 : NoDup (map fst l1)) by now apply NoDup_keys_filter.
  assert (Hk2 : NoDup (map fst l2)) by now apply NoDup_keys_filter.
  assert (Hperm : Permutation l1 l2).
  { apply NoDup_Permutation; [| |exact Hset].
    - now apply NoDup_map_inv in Hk1.
    - now apply NoDup_map_inv in Hk2. }
  apply sorted_perm_unique
    with (R := fun x y => localeCompare (fst x) (fst y) <= 0).
  - intros x y Hx Hy. apply Hanti; now apply sort_entries_keys in Hx, Hy.
  - now apply sort_entries_NoDup.
  - apply sort_entries_sorted
      with (Rk := fun a b => localeCompare a b <= 0)
           (ks := KeyBuilder.keys l1).
    + auto.
    + intros a b Ha Hb Hn. destruct (Htot a b Ha Hb); tauto.
    + exact Htrans.
    + intros e He. now apply in_map.
  - apply sort_entries_sorted
      with (Rk := fun a b => localeCompare a b <= 0)
           (ks := KeyBuilder.keys l1).
    + auto.
    + intros a b Ha Hb Hn. destruct (Htot a b Ha Hb); tauto.
    + exact Htrans.
    + intros e He. apply in_map. now apply Hset.
  - apply Permutation_trans with l1; [apply sort_entries_perm|].
    apply Permutation_trans with l2; [exact Hperm|].
    apply Permutation_sym, sort_entries_perm.
Qed.

Lemma generateCacheKey_deterministic_witness :
  KeyBuilder.generateCacheKey KeyBuilder.letterCollation "douban"
    TestHost.searchParams
  = KeyBuilder.generateCacheKey KeyBuilder.letterCollation "douban"
      TestHost.searchParams'.
Proof.
  apply generateCacheKey_deterministic.
  - apply NoDup_keys_dec. reflexivity.
  - apply NoDup_keys_dec. reflexivity.
  - reflexivity.
  - intros e. simpl. tauto.
Defined.

(** C6 (as stated) fails: the two maps hold the same two entries, whose
    keys are two spellings of one letter that the collation takes for
    equal; the sort is stable, so each key keeps the order in which its map
    was built. *)
Lemma generateCacheKey_deterministic_counterexample :
  let P1 : KeyBuilder.Params :=
    [ (KeyBuilder.e_acute, KeyBuilder.SNum 1);
      (KeyBuilder.e_then_acute, KeyBuilder.SNum 2) ] in
  let P2 : KeyBuilder.Params :=
    [ (KeyBuilder.e_then_acute, KeyBuilder.SNum 2);
      (KeyBuilder.e_acute, KeyBuilder.SNum 1) ] in
  KeyBuilder.distinct (KeyBuilder.keys P1) = true
  /\ KeyBuilder.distinct (KeyBuilder.keys P2) = true
  /\ (forall e, In e (filter KeyBuilder.keep P1)
                <-> In e (filter KeyBuilder.keep P2))
  /\ KeyBuilder.canonicalCollation KeyBuilder.e_acute
       KeyBuilder.e_then_acute = 0
  /\ KeyBuilder.generateCacheKey KeyBuilder.canonicalCollation "p" P1
     = "p-" ++ KeyBuilder.e_acute ++ "=1&" ++ KeyBuilder.e_then_acute ++ "=2"
  /\ KeyBuilder.generateCacheKey KeyBuilder.canonicalCollation "p" P2
     = "p-" ++ KeyBuilder.e_then_acute ++ "=2&" ++ KeyBuilder.e_acute ++ "=1"
  /\ KeyBuilder.generateCacheKey KeyBuilder.canonicalCollation "p" P1
     <> KeyBuilder.generateCacheKey KeyBuilder.canonicalCollation "p" P2.
Proof.
  cbv zeta. split; [reflexivity|]. split; [reflexivity|].
  split; [intros e; simpl; tauto|]. split; [reflexivity|].
  split; [reflexivity|]. split; [reflexivity|].
  vm_compute. discriminate.
Qed.

(** ** The [Map] *)

Section JSMapFacts.
Context {V : Type}.

Lemma JSMap_get_set_same (k : string) (v : V) (m : JSMap.t V) :
  JSMap.get k (JSMap.set k v m) = Some v.
Proof.
  induction m as [|[k' v'] m IH]; simpl.
  - now rewrite String.eqb_refl.
  - destruct (k' =? k)%string eqn:E; simpl.
    + now rewrite String.eqb_refl.
    + now rewrite E.
Qed.

Lemma JSMap_get_set_other (k k' : string) (v : V) (m : JSMap.t V) :
  k <> k' -> JSMap.get k (JSMap.set k' v m) = JSMap.get k m.
Proof.
  intros Hne.
  induction m as [|[k0 v0] m IH]; simpl.
  - apply not_eq_sym, String.eqb_neq in Hne. now rewrite Hne.
  - destruct (k0 =? k')%string eqn:E; simpl.
    + apply String.eqb_eq in E. subst k0.
      apply not_eq_sym, String.eqb_neq in Hne. now rewrite Hne.
    + now rewrite IH.
Qed.

Lemma JSMap_get_delete_same (k : string) (m : JSMap.t V) :
  JSMap.get k (JSMap.delete k m) = None.
Proof.
  induction m as [|[k' v'] m IH]; simpl; [reflexivity|].
  destruct (k' =? k)%string eqn:E; simpl; [exact IH|].
  now rewrite E.
Qed.

Lemma JSMap_get_delete_other (k k' : string) (m : JSMap.t V) :
  k <> k' -> JSMap.get k (JSMap.delete k' m) = JSMap.get k m.
Proof.
  intros Hne.
  induction m as [|[k0 v0] m IH]; simpl; [reflexivity|].
  destruct (k0 =? k')%string eqn:E; simpl.
  - apply String.eqb_eq in E. subst k0.
    apply not_eq_sym, String.eqb_neq in Hne. now rewrite Hne.
  - now rewrite IH.
Qed.

Lemma JSMap_get_In (k : string) (v : V) (m : JSMap.t V) :
  JSMap.get k m = Some v -> In (k, v) m.
Proof.
  induction m as [|[k' v'] m IH]; simpl; [discriminate|].
  destruct (k' =? k)%string eqn:E.
  - apply String.eqb_eq in E. intros [= ->]. subst. now left.
  - intros H. right. now apply IH.
Qed.

End JSMapFacts.

(** ** [MemoryCache]: the eviction of [set] *)

(** C4 (the code at the failing inputs).  With room for two entries and
    the keys [a] and [b] stored, setting [b] again evicts [a], although [b]
    is already present.  With room for three, setting [a] again leaves it the
    oldest key, so that two more insertions evict [a], the key set last of
    the first two, and keep [b]. *)
Theorem MemoryCache_set_present_key :
  let full :=
    MemoryCache.set 2 "b" 20 60
      (MemoryCache.set 1 "a" 10 60 (MemoryCache.create 2)) in
  let roomy :=
    MemoryCache.set 3 "a" 11 60
      (MemoryCache.set 2 "b" 20 60
         (MemoryCache.set 1 "a" 10 60 (MemoryCache.create 3))) in
  MemoryCache.order full = ["a"; "b"]
  /\ MemoryCache.order (MemoryCache.set 3 "b" 21 60 full) = ["b"]
  /\ MemoryCache.order roomy = ["a"; "b"]
  /\ MemoryCache.order
       (MemoryCache.set 5 "d" 40 60 (MemoryCache.set 4 "c" 30 60 roomy))
     = ["b"; "c"; "d"].
Proof.
  repeat split.
Qed.

(** What [set] and [get] do get right: a new key at capacity evicts the
    first key of the map and nothing else, and a hit moves its key to the
    end. *)
Lemma MemoryCache_order_set_new {T : Type} (now : Z) (key : string)
  (data : T) (ttlSeconds : Z) (c : MemoryCache.t T) (oldest : string)
  (others : list string) :
  MemoryCache.order c = oldest :: others ->
  NoDup (oldest :: others) ->
  oldest <> "" ->
  ~ In key (oldest :: others) ->
  MemoryCache.size c = MemoryCache.maxSize c ->
  MemoryCache.order (MemoryCache.set now key data ttlSeconds c)
    = (others ++ [key])%list.
Proof.
  destruct c as [store maxSize].
  unfold MemoryCache.order, MemoryCache.size, MemoryCache.set,
    MemoryCache.evict. simpl.
  intros Ho Hnd Hne Hnew Hsz. rewrite Hsz, Z.geb_leb, Z.leb_refl.
  destruct store as [|[k e] store]; [discriminate|].
  simpl in Ho. injection Ho as -> Ho. simpl.
  apply String.eqb_neq in Hne. rewrite Hne. simpl.
  rewrite String.eqb_refl. simpl.
  subst others. inversion Hnd as [|? ? Hnin Hnd']; subst.
  assert (Hkey : ~ In key (map fst store)) by (intros H; apply Hnew; now right).
  clear Hnd Hnew Hnd' Hne.
  induction store as [|[k' e'] store IH]; simpl.
  - reflexivity.
  - destruct (k' =? oldest)%string eqn:E.
    + apply String.eqb_eq in E. subst. exfalso. apply Hnin. now left.
    + simpl. destruct (k' =? key)%string eqn:E'.
      * apply String.eqb_eq in E'. subst. exfalso. apply Hkey. now left.
      * simpl. f_equal. apply IH.
        -- intros H. apply Hnin. now right.
        -- intros H. apply Hkey. now right.
Qed.

Lemma JSMap_order_touch {V : Type} (k : string) (v : V) (m : JSMap.t V) :
  map fst (JSMap.set k v (JSMap.delete k m))
    = (filter (fun k' => negb (k' =? k)%string) (map fst m) ++ [k])%list.
Proof.
  induction m as [|[k' v'] m IH]; simpl; [reflexivity|].
  destruct (k' =? k)%string eqn:E; simpl; [exact IH|].
  rewrite E. simpl. now rewrite IH.
Qed.

Lemma MemoryCache_order_get_hit {T : Type} (now : Z) (key : string)
  (c : MemoryCache.t T) (v : T) :
  fst (MemoryCache.get now key c) = Some v ->
  MemoryCache.order (snd (MemoryCache.get now key c))
    = (filter (fun k => negb (k =? key)%string) (MemoryCache.order c)
       ++ [key])%list.
Proof.
  unfold MemoryCache.get, MemoryCache.order.
  destruct (JSMap.get key (MemoryCache.store c)) as [e|]; [|discriminate].
  destruct (Entry.expired now e); [discriminate|]. simpl. intros _.
  apply JSMap_order_touch.
Qed.

(** ** [UnifiedCache.get]: the backfill *)

(** C3 (as the code has it): a read that misses the memory tier (no
    unexpired entry there, or one whose value is [null]) and finds an
    unexpired entry in the storage tier tests the stored value against
    [null].  A value that is not [null] is returned after it has been
    written to the memory tier, where the new entry is stamped with the time
    of the read and given the cache's [defaultTTL]; a [null] value is a miss
    and nothing is written. *)
Theorem UnifiedCache_get_backfill {T : Type} (is_null : T -> bool)
  (JSON_parse : string -> option (Entry.CacheEntry T))
  (now : Z) (key : string) (c : UnifiedCache.t T) (v : T)
  (l : LocalStorageCache.t) :
  UnifiedCache.enableMemory (UnifiedCache.config c) = true ->
  UnifiedCache.enableLocalStorage (UnifiedCache.config c) = true ->
  UnifiedCache.present is_null
    (fst (MemoryCache.get now key (UnifiedCache.memoryCache c))) = None ->
  LocalStorageCache.get JSON_parse now key (UnifiedCache.localStorageCache c)
    = (Some v, l) ->
  let r := UnifiedCache.get is_null JSON_parse now key c in
  if is_null v then
    fst r = None
    /\ UnifiedCache.memoryCache (snd r)
       = snd (MemoryCache.get now key (UnifiedCache.memoryCache c))
  else
    fst r = Some v
    /\ JSMap.get key (MemoryCache.store (UnifiedCache.memoryCache (snd r)))
       = Some (Entry.mk v now
                 (UnifiedCache.defaultTTL (UnifiedCache.config c))).
Proof.
  intros Hm Hl Hmiss Hhit. cbv zeta.
  unfold UnifiedCache.get. rewrite Hm, Hl, Hmiss, Hhit.
  cbn [UnifiedCache.present fst snd].
  destruct (is_null v); cbn [fst snd UnifiedCache.memoryCache].
  - split; reflexivity.
  - split; [reflexivity|]. apply JSMap_get_set_same.
Qed.

Lemma UnifiedCache_get_backfill_witness :
  let c : UnifiedCache.t Z :=
    UnifiedCache.create UnifiedCache.globalConfig
      (Some (Storage.mk [("deco-cache:k", TestHost.entryText 5 1000 7200)]
                        [])) in
  let r := UnifiedCache.get TestHost.is_null TestHost.JSON_parse 2000 "k" c in
  fst r = Some 5
  /\ JSMap.get "k" (MemoryCache.store (UnifiedCache.memoryCache (snd r)))
     = Some (Entry.mk 5 2000 3600).
Proof.
  intros c r.
  exact (UnifiedCache_get_backfill TestHost.is_null TestHost.JSON_parse
           2000 "k" c 5 (UnifiedCache.localStorageCache c)
           eq_refl eq_refl eq_refl eq_refl).
Defined.

(** C3 (as stated) fails: the stored entry has a TTL of 7200 seconds, the
    entry written back has one of 3600.  And where the stored value is
    [null], the read misses the memory tier and finds the unexpired entry in
    the storage tier, yet it writes nothing back and returns no value. *)
Lemma UnifiedCache_get_backfill_counterexample :
  let stored := TestHost.entryText 5 1000 7200 in
  let c : UnifiedCache.t Z :=
    UnifiedCache.create UnifiedCache.globalConfig
      (Some (Storage.mk [("deco-cache:k", stored)] [])) in
  let r := UnifiedCache.get TestHost.is_null TestHost.JSON_parse 2000 "k" c in
  let c0 : UnifiedCache.t (option Z) :=
    UnifiedCache.create UnifiedCache.globalConfig
      (Some (Storage.mk
               [("deco-cache:k", NullableHost.entryText None 1000 7200)]
               [])) in
  let r0 :=
    UnifiedCache.get NullableHost.is_null NullableHost.JSON_parse 2000 "k"
      c0 in
  (fst (MemoryCache.get 2000 "k" (UnifiedCache.memoryCache c)) = None
   /\ option_map Entry.ttl (TestHost.JSON_parse stored) = Some 7200
   /\ fst r = Some 5
   /\ option_map Entry.ttl
        (JSMap.get "k"
           (MemoryCache.store (UnifiedCache.memoryCache (snd r))))
      = Some 3600
   /\ option_map Entry.ttl
        (JSMap.get "k"
           (MemoryCache.store (UnifiedCache.memoryCache (snd r))))
      <> option_map Entry.ttl (TestHost.JSON_parse stored))
  /\
  (fst (MemoryCache.get 2000 "k" (UnifiedCache.memoryCache c0)) = None
   /\ fst (LocalStorageCache.get NullableHost.JSON_parse 2000 "k"
             (UnifiedCache.localStorageCache c0)) = Some None
   /\ fst r0 = None
   /\ JSMap.get "k"
        (MemoryCache.store (UnifiedCache.memoryCache (snd r0))) = None).
Proof.
  cbv zeta. split.
  - split; [reflexivity|]. split; [reflexivity|]. split; [reflexivity|].
    split; [reflexivity|]. vm_compute. discriminate.
  - split; [reflexivity|]. split; [reflexivity|]. split; reflexivity.
Qed.

(** ** [LocalStorageCache.set]: the recovery from a failed write *)

Lemma removeItems_items (ks : list string) (st : Storage.t) :
  Storage.items (fold_left (fun s key => Storage.removeItem key s) ks st)
    = fold_left (fun m key => JSMap.delete key m) ks (Storage.items st).
Proof.
  revert st. induction ks as [|k ks IH]; intros st; simpl; [reflexivity|].
  now rewrite IH.
Qed.

Lemma removeItems_calls (ks : list string) (st : Storage.t) :
  Storage.calls (fold_left (fun s key => Storage.removeItem key s) ks st)
    = (Storage.calls st ++ map Storage.RemoveItem ks)%list.
Proof.
  revert st. induction ks as [|k ks IH]; intros st; simpl.
  - now rewrite app_nil_r.
  - rewrite IH. simpl. now rewrite <- app_assoc.
Qed.

Lemma deletes_keep_absent {V : Type} (k : string) (ks : list string)
  (m : JSMap.t V) :
  JSMap.get k m = None ->
  JSMap.get k (fold_left (fun m key => JSMap.delete key m) ks m) = None.
Proof.
  revert m. induction ks as [|k0 ks IH]; intros m Hm; simpl; [exact Hm|].
  apply IH.
  destruct (string_dec k k0) as [->|Hne].
  - apply JSMap_get_delete_same.
  - now rewrite JSMap_get_delete_other.
Qed.

Lemma deletes_remove {V : Type} (k : string) (ks : list string)
  (m : JSMap.t V) :
  In k ks ->
  JSMap.get k (fold_left (fun m key => JSMap.delete key m) ks m) = None.
Proof.
  revert m. induction ks as [|k0 ks IH]; intros m Hin; simpl; [easy|].
  destruct (string_dec k0 k) as [->|Hne].
  - apply deletes_keep_absent, JSMap_get_delete_same.
  - apply IH. destruct Hin; [contradiction|assumption].
Qed.

Lemma deletes_spare {V : Type} (k : string) (ks : list string)
  (m : JSMap.t V) :
  ~ In k ks ->
  JSMap.get k (fold_left (fun m key => JSMap.delete key m) ks m)
    = JSMap.get k m.
Proof.
  revert m. induction ks as [|k0 ks IH]; intros m Hin; simpl; [easy|].
  rewrite IH by (intros H; apply Hin; now right).
  apply JSMap_get_delete_other. intros ->. apply Hin. now left.
Qed.

Section DurableWrites.
Context {T : Type}.
Variable quota : JSMap.t string -> bool.
Variable JSON_stringify : Entry.CacheEntry T -> option string.
Variable JSON_parse : string -> option (Entry.CacheEntry T).

Local Abbreviation write := (LocalStorageCache.write quota JSON_stringify).
Local Abbreviation sweep := (LocalStorageCache.sweep JSON_parse).
Local Abbreviation keysToDelete := (LocalStorageCache.keysToDelete JSON_parse).
Local Abbreviation set :=
  (LocalStorageCache.set quota JSON_stringify JSON_parse).

(** A failed write leaves the items as they were. *)
Lemma write_thrown (fullKey : string) (entry : Entry.CacheEntry T)
  (st st1 : Storage.t) :
  write fullKey entry st = Thrown st1 ->
  Storage.items st1 = Storage.items st
  /\ Storage.calls st1
     = (Storage.calls st
        ++ match JSON_stringify entry with
           | Some text => [Storage.SetItem fullKey text]
           | None => []
           end)%list.
Proof.
  unfold LocalStorageCache.write, Storage.setItem.
  destruct (JSON_stringify entry) as [text|].
  - destruct (quota _); [discriminate|]. intros [= <-]. now split.
  - intros [= <-]. split; [reflexivity|]. now rewrite app_nil_r.
Qed.

Lemma write_calls (fullKey : string) (entry : Entry.CacheEntry T)
  (st : Storage.t) :
  Storage.calls (state_of (write fullKey entry st))
  = (Storage.calls st
     ++ match JSON_stringify entry with
        | Some text => [Storage.SetItem fullKey text]
        | None => []
        end)%list.
Proof.
  unfold LocalStorageCache.write, Storage.setItem.
  destruct (JSON_stringify entry) as [text|]; simpl.
  - now destruct (quota _).
  - now rewrite app_nil_r.
Qed.

(** The sweep removes every expired entry of the namespace. *)
Lemma sweep_removes_expired (pre : string) (now : Z) (st : Storage.t)
  (k stored : string) (e : Entry.CacheEntry T) :
  JSMap.get k (Storage.items st) = Some stored ->
  k <> "" -> String.prefix pre k = true -> stored <> "" ->
  JSON_parse stored = Some e -> Entry.expired now e = true ->
  JSMap.get k (Storage.items (sweep pre now st)) = None.
Proof.
  intros Hget Hk Hpre Hs Hparse Hexp.
  unfold LocalStorageCache.sweep. rewrite removeItems_items.
  apply deletes_remove.
  unfold LocalStorageCache.keysToDelete.
  apply in_map_iff. exists (k, stored). split; [reflexivity|].
  apply filter_In. split; [now apply JSMap_get_In|].
  unfold LocalStorageCache.doomed.
  apply String.eqb_neq in Hk, Hs.
  now rewrite Hk, Hpre, Hs, Hparse.
Qed.

(** The sweep leaves alone what is outside the namespace, and the entries
    of the namespace that have not expired. *)
Lemma sweep_spares (pre : string) (now : Z) (st : Storage.t) (k : string) :
  (forall stored, JSMap.get k (Storage.items st) = Some stored ->
     String.prefix pre k = false
     \/ exists e, JSON_parse stored = Some e
                  /\ Entry.expired now e = false) ->
  NoDup (map fst (Storage.items st)) ->
  JSMap.get k (Storage.items (sweep pre now st))
    = JSMap.get k (Storage.items st).
Proof.
  intros Hk Hnd.
  unfold LocalStorageCache.sweep. rewrite removeItems_items.
  apply deletes_spare.
  unfold LocalStorageCache.keysToDelete. intros Hin.
  apply in_map_iff in Hin. destruct Hin as [[k' stored] [E Hin]].
  simpl in E. subst k'.
  apply filter_In in Hin. destruct Hin as [Hin Hd].
  assert (Hget : JSMap.get k (Storage.items st) = Some stored).
  { clear Hk Hd. induction (Storage.items st) as [|[k0 v0] m IH];
      simpl in *; [easy|].
    inversion Hnd as [|? ? Hnin Hnd']; subst.
    destruct Hin as [[= -> ->]|Hin].
    - now rewrite String.eqb_refl.
    - destruct (k0 =? k)%string eqn:E; [|now apply IH].
      apply String.eqb_eq in E. subst. exfalso. apply Hnin.
      apply in_map_iff. now exists (k, stored). }
  unfold LocalStorageCache.doomed in Hd.
  destruct (Hk stored Hget) as [Hp|[e [Hp He]]].
  - rewrite Hp in Hd. simpl in Hd.
    now rewrite orb_true_r in Hd.
  - rewrite Hp, He in Hd.
    destruct ((k =? "")%string || negb (String.prefix pre k));
      [discriminate|].
    now destruct (stored =? "")%string.
Qed.

(** C7: [set] never throws.  When its write fails, it sweeps once, which
    removes every expired entry of the namespace, and writes once more; the
    calls made on the storage are the failed [setItem], the [removeItem]s of
    the sweep and the second [setItem], in that order.  If the second write
    fits the quota the entry is stored, otherwise the storage stays as the
    sweep left it. *)
Theorem LocalStorageCache_set_recovers (now : Z) (key : string) (data : T)
  (ttlSeconds : Z) (c : LocalStorageCache.t) :
  exists c',
    set now key data ttlSeconds c = Returned c'
    /\ LocalStorageCache.prefix c' = LocalStorageCache.prefix c
    /\ forall st st1,
         LocalStorageCache.localStorage c = Some st ->
         let fullKey := LocalStorageCache.getFullKey c key in
         let entry := Entry.mk data now ttlSeconds in
         let pre := LocalStorageCache.prefix c in
         let attempt :=
           match JSON_stringify entry with
           | Some text => [Storage.SetItem fullKey text]
           | None => []
           end in
         write fullKey entry st = Thrown st1 ->
         exists st',
           LocalStorageCache.localStorage c' = Some st'
           /\ Storage.calls st'
              = (Storage.calls st ++ attempt
                 ++ map Storage.RemoveItem (keysToDelete pre now st)
                 ++ attempt)%list
           /\ Storage.items st'
              = match write fullKey entry (sweep pre now st1) with
                | Returned s => Storage.items s
                | Thrown _ => Storage.items (sweep pre now st)
                end
           /\ (forall text, JSON_stringify entry = Some text ->
                 Storage.items st'
                 = let swept := Storage.items (sweep pre now st) in
                   if quota (JSMap.set fullKey text swept)
                   then JSMap.set fullKey text swept
                   else swept)
           /\ (forall k stored e,
                 JSMap.get k (Storage.items st) = Some stored ->
                 k <> "" -> String.prefix pre k = true -> stored <> "" ->
                 JSON_parse stored = Some e ->
                 Entry.expired now e = true ->
                 k <> fullKey ->
                 JSMap.get k (Storage.items st') = None).
Proof.
  unfold LocalStorageCache.set.
  destruct (LocalStorageCache.localStorage c) as [st0|] eqn:Els.
  2:{ exists c. repeat split. intros st st1 [=]. }
  set (fullKey := LocalStorageCache.getFullKey c key).
  set (entry := Entry.mk data now ttlSeconds).
  set (pre := LocalStorageCache.prefix c).
  destruct (write fullKey entry st0) as [s|s1] eqn:W1; simpl.
  { eexists. split; [reflexivity|]. split; [reflexivity|].
    intros st st1 [= <-]. simpl. rewrite W1. discriminate. }
  assert (Hsame : Storage.items s1 = Storage.items st0)
    by (now apply write_thrown in W1).
  assert (Hkeys : keysToDelete pre now s1 = keysToDelete pre now st0)
    by (unfold LocalStorageCache.keysToDelete; now rewrite Hsame).
  assert (Hswept : Storage.items (sweep pre now s1)
                   = Storage.items (sweep pre now st0)).
  { unfold LocalStorageCache.sweep.
    now rewrite !removeItems_items, Hkeys, Hsame. }
  exists (LocalStorageCache.mk pre
            (Some (state_of (write fullKey entry (sweep pre now s1))))).
  split.
  { destruct (write fullKey entry (sweep pre now s1)); reflexivity. }
  split; [reflexivity|].
  intros st st1 [= <-]. simpl. rewrite W1. intros [= <-].
  exists (state_of (write fullKey entry (sweep pre now s1))).
  split; [reflexivity|].
  split.
  { rewrite write_calls. unfold LocalStorageCache.sweep at 1.
    rewrite removeItems_calls, Hkeys.
    apply write_thrown in W1. destruct W1 as [_ ->].
    now rewrite <- !app_assoc. }
  split.
  { destruct (write fullKey entry (sweep pre now s1)) as [s|s] eqn:W2;
      simpl; [reflexivity|].
    apply write_thrown in W2. destruct W2 as [-> _]. exact Hswept. }
  split.
  { intros text Htext. unfold LocalStorageCache.write, Storage.setItem.
    rewrite Htext, Hswept. simpl.
    destruct (quota _); reflexivity. }
  intros k stored e Hget Hk Hpre Hs Hparse Hexp Hne.
  assert (Hgone : JSMap.get k (Storage.items (sweep pre now s1)) = None).
  { rewrite Hswept. eapply sweep_removes_expired; eauto. }
  unfold LocalStorageCache.write, Storage.setItem.
  destruct (JSON_stringify entry) as [text|]; simpl; [|exact Hgone].
  destruct (quota _); simpl; [|exact Hgone].
  now rewrite JSMap_get_set_other.
Qed.

End DurableWrites.

Lemma LocalStorageCache_set_recovers_witness :
  let st :=
    Storage.mk [ ("deco-cache:old", TestHost.entryText 1 0 60);
                 ("deco-cache:fresh", TestHost.entryText 2 90000 60) ] [] in
  let c := LocalStorageCache.mk "deco-cache:" (Some st) in
  let text := TestHost.entryText 7 100000 60 in
  exists st',
    LocalStorageCache.set (TestHost.quota 2) TestHost.JSON_stringify
      TestHost.JSON_parse 100000 "new" 7 60 c
    = Returned (LocalStorageCache.mk "deco-cache:" (Some st'))
    /\ Storage.calls st'
       = [ Storage.SetItem "deco-cache:new" text;
           Storage.RemoveItem "deco-cache:old";
           Storage.SetItem "deco-cache:new" text ]
    /\ JSMap.get "deco-cache:old" (Storage.items st') = None
    /\ JSMap.get "deco-cache:new" (Storage.items st') = Some text.
Proof.
  intros st c text.
  destruct (LocalStorageCache_set_recovers (TestHost.quota 2)
              TestHost.JSON_stringify TestHost.JSON_parse
              100000 "new" 7 60 c) as [c' [Hret [Hpre H]]].
  destruct (H st (Storage.mk (Storage.items st)
                    [Storage.SetItem "deco-cache:new" text])
              eq_refl eq_refl)
    as [st' [Hls [Hcalls [_ [Hitems Hgone]]]]].
  exists st'. split; [|split; [|split]].
  - rewrite Hret. destruct c' as [p l]. simpl in Hpre, Hls.
    now rewrite Hpre, Hls.
  - rewrite Hcalls. reflexivity.
  - apply (Hgone "deco-cache:old" (TestHost.entryText 1 0 60)
             (Entry.mk 1 0 60)); try reflexivity; discriminate.
  - rewrite (Hitems text eq_refl). reflexivity.
Defined.

(** ** [UnifiedCache.get]: hits *)

Lemma present_some {T : Type} (is_null : T -> bool) (v : T) :
  is_null v = false -> UnifiedCache.present is_null (Some v) = Some v.
Proof. intros H. cbn. now rewrite H. Qed.

Lemma present_inv {T : Type} (is_null : T -> bool) (r : option T) (v : T) :
  UnifiedCache.present is_null r = Some v -> r = Some v /\ is_null v = false.
Proof.
  destruct r as [d|]; cbn; [|discriminate].
  destruct (is_null d) eqn:E; [discriminate|]. intros [= <-]. auto.
Qed.

Lemma UnifiedCache_get_holds {T : Type} (is_null : T -> bool)
  (JSON_parse : string -> option (Entry.CacheEntry T))
  (now : Z) (key : string) (c : UnifiedCache.t T) (v : T) :
  UnifiedCache.holds is_null JSON_parse now key c v ->
  fst (UnifiedCache.get is_null JSON_parse now key c) = Some v.
Proof.
  unfold UnifiedCache.holds, UnifiedCache.get.
  intros [Hn [[Hm [e [Hget [Hexp Hv]]]]
         |[Hmem [Hl [st [text [e [Hst [Hitem [Htext [Hparse
                                                      [Hexp Hv]]]]]]]]]]]].
  - rewrite Hm. unfold MemoryCache.get. rewrite Hget, Hexp.
    cbn [fst snd]. rewrite Hv, (present_some is_null v Hn). reflexivity.
  - assert (Hmiss :
      UnifiedCache.present is_null
        (fst (if UnifiedCache.enableMemory (UnifiedCache.config c)
              then MemoryCache.get now key (UnifiedCache.memoryCache c)
              else (None, UnifiedCache.memoryCache c))) = None).
    { destruct (UnifiedCache.enableMemory (UnifiedCache.config c));
        [|reflexivity].
      unfold MemoryCache.get.
      destruct (JSMap.get key _) as [e0|] eqn:E; [|reflexivity].
      destruct (Entry.expired now e0) eqn:X; [reflexivity|].
      cbn [fst UnifiedCache.present].
      now rewrite (Hmem eq_refl e0 eq_refl X). }
    rewrite Hmiss, Hl. unfold LocalStorageCache.get. rewrite Hst, Hitem.
    apply String.eqb_neq in Htext. rewrite Htext, Hparse, Hexp.
    cbn [fst snd]. rewrite Hv, (present_some is_null v Hn). reflexivity.
Qed.

(** ** [useCachedData]: the request counter and the snapshot *)

Ltac conjs := repeat match goal with |- _ /\ _ => split end.

Section HookFacts.
Import UseCachedData.
Context {T D : Type}.
Variable is_null : T -> bool.
Variable quota : JSMap.t string -> bool.
Variable JSON_stringify : Entry.CacheEntry T -> option string.
Variable JSON_parse : string -> option (Entry.CacheEntry T).
Variable stringify : D -> string.
Variable same_deps : D -> D -> bool.

Local Abbreviation step :=
  (UseCachedData.step is_null quota JSON_stringify JSON_parse stringify
     same_deps).
Local Abbreviation run :=
  (UseCachedData.run is_null quota JSON_stringify JSON_parse stringify
     same_deps).
Local Abbreviation reachable :=
  (UseCachedData.reachable is_null quota JSON_stringify JSON_parse stringify
     same_deps).
Local Abbreviation fetchData :=
  (UseCachedData.fetchData is_null JSON_parse stringify).
Local Abbreviation resolved :=
  (UseCachedData.resolved quota JSON_stringify JSON_parse).

Lemma find_pending_some (id : Z) (l : list (@Pending D)) (p : @Pending D) :
  find_pending id l = Some p -> In p l /\ currentRequestId p = id.
Proof.
  unfold find_pending. intros H. apply find_some in H.
  destruct H as [Hin Hid]. split; [exact Hin|]. now apply Z.eqb_eq.
Qed.

Lemma drop_pending_incl (id : Z) (l : list (@Pending D)) :
  incl (drop_pending id l) l.
Proof.
  intros p Hp. unfold drop_pending in Hp. now apply filter_In in Hp.
Qed.

Lemma setInflight_same (h : @Hook T D) : setInflight (inflight h) h = h.
Proof. now destruct h. Qed.

(** [fetchData] adds one to the counter and stores the snapshot, and the
    call it may leave pending carries both. *)
Lemma fetchData_shape (now : Z) (o : @Options D) (ignoreCache : bool)
  (w : @World T D) :
  let w' := fetchData now o ignoreCache w in
  requestIdRef (hook w') = requestIdRef (hook w) + 1
  /\ currentParamsRef (hook w') = stringify (dependencies o)
  /\ isMountedRef (hook w') = isMountedRef (hook w)
  /\ debounceTimerRef (hook w') = debounceTimerRef (hook w)
  /\ forall p, In p (inflight (hook w')) ->
       In p (inflight (hook w))
       \/ (currentRequestId p = requestIdRef (hook w')
           /\ capturedParams p = currentParamsRef (hook w')).
Proof.
  unfold UseCachedData.fetchData.
  destruct (enableCache o && negb ignoreCache).
  - destruct (UnifiedCache.get is_null JSON_parse now (cacheKey o)
                (globalCache w))
      as [[cached|] c]; simpl.
    + rewrite String.eqb_refl. simpl.
      destruct (isMountedRef (hook w)) eqn:Hm; simpl; conjs; auto.
      intros p Hp. apply in_app_or in Hp.
      destruct Hp as [Hp|[<-|[]]]; auto.
    + conjs; auto.
      intros p Hp. apply in_app_or in Hp.
      destruct Hp as [Hp|[<-|[]]]; auto.
  - simpl. conjs; auto.
    intros p Hp. apply in_app_or in Hp.
    destruct Hp as [Hp|[<-|[]]]; auto.
Qed.

(** Settling a producer call changes neither the counter nor the snapshot,
    and leaves no new call pending. *)
Lemma resolved_shape (now : Z) (p : @Pending D) (result : T) (w : @World T D) :
  let w' := resolved now p result w in
  requestIdRef (hook w') = requestIdRef (hook w)
  /\ currentParamsRef (hook w') = currentParamsRef (hook w)
  /\ isMountedRef (hook w') = isMountedRef (hook w)
  /\ debounceTimerRef (hook w') = debounceTimerRef (hook w)
  /\ inflight (hook w') = inflight (hook w).
Proof.
  unfold UseCachedData.resolved.
  destruct (negb (currentRequestId p =? requestIdRef (hook w)));
    [conjs; reflexivity|].
  destruct (negb (currentParamsRef (hook w) =? capturedParams p)%string);
    [conjs; reflexivity|].
  destruct (negb (isMountedRef (hook w))); conjs; reflexivity.
Qed.

Lemma rejected_shape (p : @Pending D) (e : Rejection) (w : @World T D) :
  let w' := rejected p e w in
  requestIdRef (hook w') = requestIdRef (hook w)
  /\ currentParamsRef (hook w') = currentParamsRef (hook w)
  /\ isMountedRef (hook w') = isMountedRef (hook w)
  /\ debounceTimerRef (hook w') = debounceTimerRef (hook w)
  /\ inflight (hook w') = inflight (hook w).
Proof.
  unfold rejected.
  destruct (negb (currentRequestId p =? requestIdRef (hook w))
            || negb (isMountedRef (hook w))); conjs; reflexivity.
Qed.

Lemma debounceEffect_shape (o : @Options D) (h : @Hook T D) :
  let h' := debounceEffect o h in
  requestIdRef h' = requestIdRef h
  /\ currentParamsRef h' = currentParamsRef h
  /\ isMountedRef h' = isMountedRef h
  /\ inflight h' = inflight h.
Proof.
  unfold debounceEffect. simpl.
  destruct (negb (fetchOnMount o) && (requestIdRef h =? 0)); conjs; reflexivity.
Qed.

(** Every step either leaves the counter and the snapshot alone and starts no
    producer call, or adds one to the counter, and then a call it starts
    carries the new counter and the new snapshot. *)
Lemma step_shape (now : Z) (ev : Event) (w : @World T D) :
  let w' := step now ev w in
  (requestIdRef (hook w') = requestIdRef (hook w)
   /\ currentParamsRef (hook w') = currentParamsRef (hook w)
   /\ incl (inflight (hook w')) (inflight (hook w)))
  \/
  (requestIdRef (hook w') = requestIdRef (hook w) + 1
   /\ forall p, In p (inflight (hook w')) ->
        In p (inflight (hook w))
        \/ (currentRequestId p = requestIdRef (hook w')
            /\ capturedParams p = currentParamsRef (hook w'))).
Proof.
  destruct ev as [o| | | |id result|id e| |c]; simpl.
  - left.
    destruct (isMountedRef (hook w));
      [|conjs; try reflexivity; apply incl_refl].
    destruct (negb (cacheKey o =? cacheKey (options (hook w)))%string
              || negb (same_deps (dependencies o)
                         (dependencies (options (hook w))))); simpl.
    + destruct (debounceEffect_shape o (setOptions o (hook w)))
        as [H1 [H2 [_ H4]]].
      rewrite H1, H2, H4. conjs; try reflexivity; apply incl_refl.
    + conjs; try reflexivity; apply incl_refl.
  - destruct (debounceTimerRef (hook w)) as [o|].
    + right.
      destruct (fetchData_shape now o false
                  (mkWorld (setTimer None (hook w)) (globalCache w)))
        as [H1 [_ [_ [_ H5]]]].
      split; [exact H1|exact H5].
    + left. conjs; try reflexivity; apply incl_refl.
  - right.
    destruct (fetchData_shape now (options (hook w)) true w)
      as [H1 [_ [_ [_ H5]]]].
    split; [exact H1|exact H5].
  - left. conjs; try reflexivity; apply incl_refl.
  - left. destruct (find_pending id (inflight (hook w))) as [p|].
    + destruct (resolved_shape now p result
                  (mkWorld (setInflight (drop_pending id (inflight (hook w)))
                                        (hook w))
                           (globalCache w)))
        as [H1 [H2 [_ [_ H5]]]].
      rewrite H1, H2, H5. conjs; try reflexivity; apply drop_pending_incl.
    + conjs; try reflexivity; apply incl_refl.
  - left. destruct (find_pending id (inflight (hook w))) as [p|].
    + destruct (rejected_shape p e
                  (mkWorld (setInflight (drop_pending id (inflight (hook w)))
                                        (hook w))
                           (globalCache w)))
        as [H1 [H2 [_ [_ H5]]]].
      rewrite H1, H2, H5. conjs; try reflexivity; apply drop_pending_incl.
    + conjs; try reflexivity; apply incl_refl.
  - left. conjs; try reflexivity; apply incl_refl.
  - left. conjs; try reflexivity; apply incl_refl.
Qed.

Lemma requestIdRef_step (now : Z) (ev : Event) (w : @World T D) :
  requestIdRef (hook w) <= requestIdRef (hook (step now ev w)).
Proof.
  destruct (step_shape now ev w) as [[H _]|[H _]]; rewrite H; lia.
Qed.

Lemma requestIdRef_run (evs : list (Z * Event)) (w : @World T D) :
  requestIdRef (hook w) <= requestIdRef (hook (run evs w)).
Proof.
  revert w. induction evs as [|[now ev] evs IH]; intros w; simpl.
  - lia.
  - specialize (IH (step now ev w)).
    pose proof (requestIdRef_step now ev w). lia.
Qed.

Lemma reachable_run (o : @Options D) (c : UnifiedCache.t T)
  (evs : list (Z * Event)) (w : @World T D) :
  reachable o c w -> reachable o c (run evs w).
Proof.
  revert w. induction evs as [|[now ev] evs IH]; intros w Hw; simpl.
  - exact Hw.
  - apply IH. now constructor.
Qed.

(** The guard invariant: the counter is never negative, a pending call
    carries a positive counter that is not beyond the current one, and one
    that carries the current counter carries the current snapshot. *)
Lemma guard_invariant (o : @Options D) (c : UnifiedCache.t T) (w : @World T D) :
  reachable o c w ->
  0 <= requestIdRef (hook w)
  /\ forall p, In p (inflight (hook w)) ->
       0 < currentRequestId p <= requestIdRef (hook w)
       /\ (currentRequestId p = requestIdRef (hook w) ->
           capturedParams p = currentParamsRef (hook w)).
Proof.
  induction 1 as [|w now ev Hw [IH0 IH]].
  - destruct (debounceEffect_shape o
                (mkHook (T:=T) None true None false None
                        (stringify (dependencies o)) 0 true o [] 0))
      as [H1 [_ [_ H4]]].
    unfold mount. simpl. rewrite H1, H4. simpl. split; [lia|tauto].
  - destruct (step_shape now ev w) as [[H1 [H2 H3]]|[H1 H3]].
    + rewrite H1, H2. split; [exact IH0|].
      intros p Hp. apply IH. now apply H3.
    + split; [lia|]. intros p Hp.
      destruct (H3 p Hp) as [Hold|[Hid Hpar]].
      * destruct (IH p Hold) as [Hle _]. rewrite H1. split; lia.
      * split; [lia|auto].
Qed.


(** A producer call whose captured counter is no longer the current one
    settles without a trace: the cache is not written, and nothing of the
    hook changes but the list of pending calls. *)
Lemma stale_resolution (now : Z) (id : Z) (result : T) (w : @World T D) :
  id <> requestIdRef (hook w) ->
  let w' := step now (Resolves id result) w in
  globalCache w' = globalCache w
  /\ hook w' = setInflight (inflight (hook w')) (hook w).
Proof.
  intros Hne. simpl.
  destruct (find_pending id (inflight (hook w))) as [p|] eqn:Hf.
  - apply find_pending_some in Hf. destruct Hf as [_ Hid].
    unfold UseCachedData.resolved. simpl. rewrite Hid.
    apply Z.eqb_neq in Hne. rewrite Hne. simpl. now split.
  - split; [reflexivity|]. now rewrite setInflight_same.
Qed.

End HookFacts.

(** ** [useCachedData]: what is published and what is cached *)

Lemma memory_after_set {T : Type} (quota : JSMap.t string -> bool)
  (JSON_stringify : Entry.CacheEntry T -> option string)
  (JSON_parse : string -> option (Entry.CacheEntry T))
  (now : Z) (key : string) (v : T) (ttlSeconds : Z) (c : UnifiedCache.t T) :
  UnifiedCache.enableMemory (UnifiedCache.config c) = true ->
  JSMap.get key
    (MemoryCache.store
       (UnifiedCache.memoryCache
          (state_of
             (try_catch
                (UnifiedCache.set quota JSON_stringify JSON_parse now key v
                   ttlSeconds c)
                (fun c' => Returned c')))))
  = Some (Entry.mk v now ttlSeconds).
Proof.
  intros Hm. unfold UnifiedCache.set. rewrite Hm.
  destruct (UnifiedCache.enableLocalStorage (UnifiedCache.config c)).
  - destruct (LocalStorageCache.set _ _ _ _ _ _ _ _); simpl;
      apply JSMap_get_set_same.
  - simpl. apply JSMap_get_set_same.
Qed.

Section Coordinator.
Import UseCachedData.
Context {T D : Type}.
Variable is_null : T -> bool.
Variable quota : JSMap.t string -> bool.
Variable JSON_stringify : Entry.CacheEntry T -> option string.
Variable JSON_parse : string -> option (Entry.CacheEntry T).
Variable stringify : D -> string.
Variable same_deps : D -> D -> bool.

Local Abbreviation step :=
  (UseCachedData.step is_null quota JSON_stringify JSON_parse stringify
     same_deps).
Local Abbreviation run :=
  (UseCachedData.run is_null quota JSON_stringify JSON_parse stringify
     same_deps).
Local Abbreviation reachable :=
  (UseCachedData.reachable is_null quota JSON_stringify JSON_parse stringify
     same_deps).

(** A producer call that carries the current counter and snapshot, on a
    mounted hook, resolves into a publication and a cache write. *)
Lemma current_resolution (now : Z) (id : Z) (result : T) (w : @World T D)
  (p : @Pending D) :
  find_pending id (inflight (hook w)) = Some p ->
  id = requestIdRef (hook w) ->
  capturedParams p = currentParamsRef (hook w) ->
  isMountedRef (hook w) = true ->
  step now (Resolves id result) w
  = mkWorld
      (publish result false
         (setInflight (drop_pending id (inflight (hook w))) (hook w)))
      (if enableCache (closure p) then
         state_of
           (try_catch
              (UnifiedCache.set quota JSON_stringify JSON_parse now
                 (cacheKey (closure p)) result (ttl (closure p))
                 (globalCache w))
              (fun c' => Returned c'))
       else globalCache w).
Proof.
  intros Hf Hid Hpar Hm. simpl. rewrite Hf.
  apply find_pending_some in Hf. destruct Hf as [_ Hp].
  unfold UseCachedData.resolved. simpl.
  rewrite Hp, Hid, Z.eqb_refl, Hpar, String.eqb_refl, Hm. reflexivity.
Qed.

(** A step that leaves a call pending under the next counter value is a
    dispatch: the counter is that value, and the call carries the current
    snapshot. *)
Lemma dispatch_of_pending (o : @Options D) (c : UnifiedCache.t T)
  (w : @World T D) (now : Z) (ev : Event) (p : @Pending D) :
  reachable o c w ->
  find_pending (requestIdRef (hook w) + 1)
    (inflight (hook (step now ev w))) = Some p ->
  requestIdRef (hook (step now ev w)) = requestIdRef (hook w) + 1
  /\ capturedParams p = currentParamsRef (hook (step now ev w)).
Proof.
  intros Hw Hf. apply find_pending_some in Hf. destruct Hf as [Hin Hid].
  destruct (guard_invariant _ _ _ _ _ _ _ _ _ Hw) as [_ Hg].
  destruct (step_shape is_null quota JSON_stringify JSON_parse stringify
              same_deps
              now ev w) as [[_ [_ H3]]|[H1 H3]].
  - apply H3, Hg in Hin. lia.
  - split; [exact H1|].
    destruct (H3 p Hin) as [Hold|[_ Hpar]]; [|exact Hpar].
    apply Hg in Hold. lia.
Qed.

(** C1: a fetch for A is dispatched and its producer called; later a fetch
    for B is dispatched, its producer called, and B resolves first.  Then B's
    result is published and cached under B's key, and A's resolution changes
    neither the hook (but for the list of pending calls) nor the cache. *)
Theorem race_safety (o : @Options D) (c : UnifiedCache.t T) (w : @World T D)
  (tA tB t1 t2 : Z) (evA evB : Event) (mid : list (Z * Event))
  (pA pB : @Pending D) (vA vB : T) :
  reachable o c w ->
  let idA := requestIdRef (hook w) + 1 in
  let wA := step tA evA w in
  find_pending idA (inflight (hook wA)) = Some pA ->
  let wm := run mid wA in
  let idB := requestIdRef (hook wm) + 1 in
  let wB := step tB evB wm in
  find_pending idB (inflight (hook wB)) = Some pB ->
  isMountedRef (hook wB) = true ->
  let wB' := step t1 (Resolves idB vB) wB in
  let wA' := step t2 (Resolves idA vA) wB' in
  data (hook wB') = Some vB
  /\ fromCache (hook wB') = false
  /\ globalCache wA' = globalCache wB'
  /\ hook wA' = setInflight (inflight (hook wA')) (hook wB')
  /\ data (hook wA') = Some vB
  /\ (enableCache (closure pB) = true ->
      UnifiedCache.enableMemory (UnifiedCache.config (globalCache wB))
        = true ->
      JSMap.get (cacheKey (closure pB))
        (MemoryCache.store (UnifiedCache.memoryCache (globalCache wA')))
      = Some (Entry.mk vB t1 (ttl (closure pB)))).
Proof.
  intros Hw idA wA HA wm idB wB HB Hm wB' wA'.
  assert (HwA : reachable o c wA) by now constructor.
  assert (Hwm : reachable o c wm) by now apply reachable_run.
  destruct (dispatch_of_pending o c w tA evA pA Hw HA) as [HidA _].
  destruct (dispatch_of_pending o c wm tB evB pB Hwm HB) as [HidB HparB].
  fold wA in HidA. fold wB in HidB, HparB.
  assert (Hmono : requestIdRef (hook wA) <= requestIdRef (hook wm))
    by apply requestIdRef_run.
  assert (Hlt : idA < idB) by (unfold idA, idB; lia).
  assert (HB' : wB' = _)
    by (apply (current_resolution t1 idB vB wB pB HB); auto).
  assert (Hstale : idA <> requestIdRef (hook wB')).
  { rewrite HB'. simpl. fold idB in HidB. lia. }
  destruct (stale_resolution is_null quota JSON_stringify JSON_parse stringify
              same_deps t2 idA vA wB' Hstale) as [Hc Hh].
  fold wA' in Hc, Hh.
  assert (Hd : data (hook wB') = Some vB) by now rewrite HB'.
  split; [exact Hd|].
  split; [now rewrite HB'|].
  split; [exact Hc|].
  split; [exact Hh|].
  split; [now rewrite Hh|].
  intros Hen Hmem. rewrite Hc, HB'. simpl. rewrite Hen.
  now apply memory_after_set.
Qed.

(** C10: the stored snapshot changes only in a step that adds one to the
    request counter, so a pending call that carries the current counter
    carries the current snapshot, and the snapshot test of the guard passes
    whenever the counter test does. *)
Theorem snapshot_follows_counter (o : @Options D) (c : UnifiedCache.t T)
  (w : @World T D) :
  reachable o c w ->
  (forall now ev,
     currentParamsRef (hook (step now ev w)) <> currentParamsRef (hook w) ->
     requestIdRef (hook (step now ev w)) = requestIdRef (hook w) + 1)
  /\ (forall p, In p (inflight (hook w)) ->
        currentRequestId p = requestIdRef (hook w) ->
        capturedParams p = currentParamsRef (hook w))
  /\ (forall p, In p (inflight (hook w)) ->
        negb (currentRequestId p =? requestIdRef (hook w)) = false ->
        negb (currentParamsRef (hook w) =? capturedParams p)%string = false).
Proof.
  intros Hw.
  destruct (guard_invariant _ _ _ _ _ _ _ _ _ Hw) as [_ Hg].
  split; [|split].
  - intros now ev Hne.
    destruct (step_shape is_null quota JSON_stringify JSON_parse stringify
              same_deps
                now ev w) as [[_ [H2 _]]|[H1 _]]; [contradiction|exact H1].
  - intros p Hp. now apply Hg.
  - intros p Hp Hid. apply negb_false_iff in Hid. apply Z.eqb_eq in Hid.
    apply negb_false_iff, String.eqb_eq. symmetry. now apply Hg.
Qed.


(** C8 (as the code has it): a rejection that passes the validity check
    sets the error to the message of the [Error], or to the fixed text when
    what was thrown is no [Error]; it ends the loading, keeps the published
    data, and leaves the cache exactly as it was. *)
Theorem rejection_surfaces (now : Z) (id : Z) (e : Rejection)
  (w : @World T D) (p : @Pending D) :
  find_pending id (inflight (hook w)) = Some p ->
  id = requestIdRef (hook w) ->
  isMountedRef (hook w) = true ->
  let w' := step now (Rejects id e) w in
  error (hook w') = Some (errorMessage e)
  /\ loading (hook w') = false
  /\ data (hook w') = data (hook w)
  /\ fromCache (hook w') = fromCache (hook w)
  /\ globalCache w' = globalCache w.
Proof.
  intros Hf Hid Hm. simpl. rewrite Hf.
  apply find_pending_some in Hf. destruct Hf as [_ Hp].
  unfold rejected. simpl. rewrite Hp, Hid, Z.eqb_refl, Hm. simpl.
  conjs; reflexivity.
Qed.



End Coordinator.

(** ** The properties on a run *)

Lemma race_safety_witness :
  let final :=
    TestHost.run
      [ (100, UseCachedData.TimerFires);
        (150, UseCachedData.Render TestHost.optsB);
        (250, UseCachedData.TimerFires);
        (300, UseCachedData.Resolves 2 2);
        (750, UseCachedData.Resolves 1 1) ] TestHost.w0 in
  UseCachedData.data (UseCachedData.hook final) = Some 2
  /\ JSMap.get "douban-tv"
       (MemoryCache.store
          (UnifiedCache.memoryCache (UseCachedData.globalCache final)))
     = Some (Entry.mk 2 300 7200).
Proof.
  intro final.
  destruct (race_safety TestHost.is_null (TestHost.quota 100)
              TestHost.JSON_stringify
              TestHost.JSON_parse TestHost.stringify TestHost.same_deps
              TestHost.optsA TestHost.cache0 TestHost.w0
              100 250 300 750
              UseCachedData.TimerFires UseCachedData.TimerFires
              [(150, UseCachedData.Render TestHost.optsB)]
              (UseCachedData.mkPending 1 (TestHost.stringify ["movie"])
                 TestHost.optsA)
              (UseCachedData.mkPending 2 (TestHost.stringify ["tv"])
                 TestHost.optsB)
              1 2)
    as [_ [_ [_ [_ [Hdata Hcache]]]]].
  - apply UseCachedData.reach_mount.
  - reflexivity.
  - reflexivity.
  - reflexivity.
  - split; [exact Hdata|].
    exact (Hcache eq_refl eq_refl).
Defined.

Lemma snapshot_follows_counter_witness :
  let w1 := TestHost.step 100 UseCachedData.TimerFires TestHost.w0 in
  UseCachedData.inflight (UseCachedData.hook w1)
  = [ UseCachedData.mkPending 1 (TestHost.stringify ["movie"])
        TestHost.optsA ]
  /\ forall p,
       In p (UseCachedData.inflight (UseCachedData.hook w1)) ->
       UseCachedData.currentRequestId p
       = UseCachedData.requestIdRef (UseCachedData.hook w1) ->
       UseCachedData.capturedParams p
       = UseCachedData.currentParamsRef (UseCachedData.hook w1).
Proof.
  intro w1. split; [reflexivity|].
  apply (snapshot_follows_counter TestHost.is_null (TestHost.quota 100)
           TestHost.JSON_stringify TestHost.JSON_parse TestHost.stringify
           TestHost.same_deps TestHost.optsA TestHost.cache0 w1).
  apply UseCachedData.reach_step. apply UseCachedData.reach_mount.
Defined.



Lemma rejection_surfaces_witness :
  let w :=
    TestHost.step 100 UseCachedData.Refresh
      (UseCachedData.mkWorld (UseCachedData.mount TestHost.stringify
                                TestHost.optsA) TestHost.cache1) in
  let w' :=
    TestHost.step 200
      (UseCachedData.Rejects 1 (UseCachedData.ErrorObject "network down"))
      w in
  UseCachedData.error (UseCachedData.hook w') = Some "network down"
  /\ fst (UnifiedCache.get TestHost.is_null TestHost.JSON_parse 200
            "douban-movie"
            (UseCachedData.globalCache w')) = Some 42.
Proof.
  intros w w'.
  destruct (rejection_surfaces TestHost.is_null (TestHost.quota 100)
              TestHost.JSON_stringify
              TestHost.JSON_parse TestHost.stringify TestHost.same_deps
              200 1 (UseCachedData.ErrorObject "network down") w
              (UseCachedData.mkPending 1 (TestHost.stringify ["movie"])
                 TestHost.optsA))
    as [He [_ [_ [_ Hc]]]].
  - reflexivity.
  - reflexivity.
  - reflexivity.
  - split; [exact He|].
    unfold w', TestHost.step. rewrite Hc. reflexivity.
Defined.

(** C8 (as stated) fails: the producer rejects with the string [boom], and
    the error published is the fixed text. *)
Lemma rejection_surfaces_counterexample :
  let w := TestHost.step 100 UseCachedData.TimerFires TestHost.w0 in
  let w' :=
    TestHost.step 200
      (UseCachedData.Rejects 1 (UseCachedData.OtherValue "boom")) w in
  UseCachedData.find_pending 1 (UseCachedData.inflight (UseCachedData.hook w))
  = Some (UseCachedData.mkPending 1 (TestHost.stringify ["movie"])
            TestHost.optsA)
  /\ UseCachedData.requestIdRef (UseCachedData.hook w) = 1
  /\ UseCachedData.isMountedRef (UseCachedData.hook w) = true
  /\ UseCachedData.error (UseCachedData.hook w')
     = Some UseCachedData.unknownError
  /\ UseCachedData.error (UseCachedData.hook w') <> Some "boom".
Proof.
  split; [|split; [|split; [|split]]]; try reflexivity.
  vm_compute. discriminate.
Qed.



(* ================================================================== *)
(** * Part III: further properties of the cache and of the hooks       *)
(* ================================================================== *)

(** ** More on the [Map] *)

Section JSMapMore.
Context {V : Type}.

Lemma JSMap_keys_delete (k : string) (m : JSMap.t V) :
  map fst (JSMap.delete k m)
  = filter (fun k' => negb (k' =? k)%string) (map fst m).
Proof.
  induction m as [|[k' v'] m IH]; simpl; [reflexivity|].
  destruct (k' =? k)%string; simpl; now rewrite IH.
Qed.

Lemma JSMap_keys_set (k : string) (v : V) (m : JSMap.t V) :
  map fst (JSMap.set k v m)
  = if JSMap.has k m then map fst m else (map fst m ++ [k])%list.
Proof.
  unfold JSMap.has.
  induction m as [|[k' v'] m IH]; simpl; [reflexivity|].
  destruct (k' =? k)%string eqn:E; simpl.
  - apply String.eqb_eq in E. now subst.
  - rewrite IH. now destruct (JSMap.get k m).
Qed.

Lemma JSMap_get_None_keys (k : string) (m : JSMap.t V) :
  JSMap.get k m = None <-> ~ In k (map fst m).
Proof.
  induction m as [|[k' v'] m IH]; simpl; [tauto|].
  destruct (k' =? k)%string eqn:E.
  - apply String.eqb_eq in E. subst. split; [discriminate|tauto].
  - apply String.eqb_neq in E. rewrite IH. tauto.
Qed.

Lemma JSMap_NoDup_delete (k : string) (m : JSMap.t V) :
  NoDup (map fst m) -> NoDup (map fst (JSMap.delete k m)).
Proof.
  rewrite JSMap_keys_delete. apply NoDup_filter.
Qed.

Lemma JSMap_NoDup_set (k : string) (v : V) (m : JSMap.t V) :
  NoDup (map fst m) -> NoDup (map fst (JSMap.set k v m)).
Proof.
  intros Hnd. rewrite JSMap_keys_set. unfold JSMap.has.
  destruct (JSMap.get k m) eqn:E; [exact Hnd|].
  apply JSMap_get_None_keys in E.
  apply NoDup_app; [exact Hnd|repeat constructor; simpl; tauto|].
  intros x Hx [<-|[]]. contradiction.
Qed.

Lemma JSMap_length_set (k : string) (v : V) (m : JSMap.t V) :
  (List.length (JSMap.set k v m) <= S (List.length m))%nat.
Proof.
  induction m as [|[k' v'] m IH]; simpl; [lia|].
  destruct (k' =? k)%string; simpl; lia.
Qed.

Lemma JSMap_length_delete (k : string) (m : JSMap.t V) :
  (List.length (JSMap.delete k m) <= List.length m)%nat.
Proof. apply filter_length_le. Qed.

Lemma JSMap_length_delete_present (k : string) (m : JSMap.t V) (v : V) :
  JSMap.get k m = Some v ->
  (S (List.length (JSMap.delete k m)) <= List.length m)%nat.
Proof.
  induction m as [|[k' v'] m IH]; simpl; [discriminate|].
  destruct (k' =? k)%string; simpl.
  - intros _. pose proof (JSMap_length_delete k m). lia.
  - intros H. apply IH in H. lia.
Qed.

End JSMapMore.

(** ** [MemoryCache]: round trip, expiry and the capacity bound *)

Lemma MemoryCache_read_after_set {T : Type} (now now' : Z) (key : string)
  (v : T) (ttlSeconds : Z) (c : MemoryCache.t T) :
  let c1 := MemoryCache.set now key v ttlSeconds c in
  fst (MemoryCache.get now' key c1)
  = (if now' - now <=? 1000 * ttlSeconds then Some v else None)
  /\ JSMap.get key (MemoryCache.store (snd (MemoryCache.get now' key c1)))
     = (if now' - now <=? 1000 * ttlSeconds
        then Some (Entry.mk v now ttlSeconds) else None).
Proof.
  unfold MemoryCache.get, MemoryCache.set.
  cbn [MemoryCache.store MemoryCache.maxSize].
  rewrite JSMap_get_set_same. unfold Entry.expired.
  cbn [Entry.timestamp Entry.ttl Entry.data].
  rewrite Z.gtb_ltb, Z.ltb_antisym.
  destruct (now' - now <=? 1000 * ttlSeconds);
    cbn [negb fst snd MemoryCache.store].
  - split; [reflexivity|apply JSMap_get_set_same].
  - split; [reflexivity|apply JSMap_get_delete_same].
Qed.

(** X1: a value set is read back until its TTL has passed, the instant
    [now + 1000 * ttl] included; read after that it is a miss, and the read
    removes the entry. *)
Theorem MemoryCache_set_get {T : Type} (now now' : Z) (key : string)
  (v : T) (ttlSeconds : Z) (c : MemoryCache.t T) :
  let c1 := MemoryCache.set now key v ttlSeconds c in
  fst (MemoryCache.get now' key c1)
  = (if now' - now <=? 1000 * ttlSeconds then Some v else None)
  /\ JSMap.get key (MemoryCache.store (snd (MemoryCache.get now' key c1)))
     = (if now' - now <=? 1000 * ttlSeconds
        then Some (Entry.mk v now ttlSeconds) else None).
Proof. apply MemoryCache_read_after_set. Qed.

Section MemoryCacheInvariant.
Import MemoryCacheOps.
Context {T : Type}.

Local Abbreviation wf c :=
  (NoDup (MemoryCache.order c)
   /\ ~ In "" (MemoryCache.order c)
   /\ MemoryCache.size c <= Z.max 1 (MemoryCache.maxSize c)).

Lemma evict_room (c : MemoryCache.t T) :
  wf c ->
  NoDup (map fst (MemoryCache.evict c))
  /\ ~ In "" (map fst (MemoryCache.evict c))
  /\ JSMap.size (MemoryCache.evict c) + 1 <= Z.max 1 (MemoryCache.maxSize c).
Proof.
  destruct c as [store maxSize].
  unfold MemoryCache.order, MemoryCache.size, MemoryCache.evict, JSMap.size.
  cbn [MemoryCache.store MemoryCache.maxSize].
  intros [Hnd [Hne Hsz]].
  destruct (Z.of_nat (List.length store) >=? maxSize) eqn:E.
  - destruct store as [|[k e] store]; cbn [JSMap.first_key].
    + split; [exact Hnd|]. split; [exact Hne|]. cbn. lia.
    + destruct (k =? "")%string eqn:Ek.
      * exfalso. apply String.eqb_eq in Ek. subst. apply Hne. now left.
      * split; [|split].
        -- now apply JSMap_NoDup_delete.
        -- rewrite JSMap_keys_delete.
           intros H. apply filter_In in H. now apply Hne.
        -- assert (Hg : JSMap.get k ((k, e) :: store) = Some e)
             by (cbn; now rewrite String.eqb_refl).
           pose proof (JSMap_length_delete_present k _ _ Hg). lia.
  - rewrite Z.geb_leb in E. apply Z.leb_gt in E.
    split; [exact Hnd|]. split; [exact Hne|]. lia.
Qed.

Lemma wf_apply (op : Op T) (c : MemoryCache.t T) :
  match stored_key op with
  | Some key => key <> ""
  | None => True
  end ->
  wf c ->
  wf (apply op c)
  /\ MemoryCache.maxSize (apply op c) = MemoryCache.maxSize c.
Proof.
  intros Hk Hwf. split; [|destruct op; simpl; try reflexivity].
  2:{ unfold MemoryCache.get.
      destruct (JSMap.get key (MemoryCache.store c)) as [e|];
        [|reflexivity].
      now destruct (Entry.expired now e). }
  destruct op as [now key data ttl|now key|key|]; simpl in *.
  - destruct (evict_room c Hwf) as [Hnd [Hne Hsz]].
    unfold MemoryCache.order, MemoryCache.size, MemoryCache.set. simpl.
    split; [|split].
    + now apply JSMap_NoDup_set.
    + rewrite JSMap_keys_set.
      destruct (JSMap.has key (MemoryCache.evict c)); [exact Hne|].
      intros H. apply in_app_or in H. destruct H as [H|[H|[]]]; auto.
    + pose proof (JSMap_length_set key (Entry.mk data now ttl)
                    (MemoryCache.evict c)) as L.
      unfold JSMap.size in *. lia.
  - destruct Hwf as [Hnd [Hne Hsz]].
    unfold MemoryCache.get.
    destruct (JSMap.get key (MemoryCache.store c)) as [e|] eqn:Eg;
      [|now repeat split].
    unfold MemoryCache.order, MemoryCache.size, JSMap.size in *.
    destruct (Entry.expired now e); simpl.
    + split; [|split].
      * now apply JSMap_NoDup_delete.
      * rewrite JSMap_keys_delete. intros H. apply filter_In in H. tauto.
      * pose proof (JSMap_length_delete key (MemoryCache.store c)). lia.
    + split; [|split].
      * now apply JSMap_NoDup_set, JSMap_NoDup_delete.
      * rewrite JSMap_keys_set, JSMap_keys_delete.
        assert (Hin : In key (map fst (MemoryCache.store c))).
        { apply JSMap_get_In in Eg.
          now apply (in_map fst) in Eg. }
        destruct (JSMap.has key _).
        -- intros H. apply filter_In in H. tauto.
        -- intros H. apply in_app_or in H.
           destruct H as [H|[H|[]]].
           ++ apply filter_In in H. tauto.
           ++ subst. contradiction.
      * pose proof (JSMap_length_delete_present key _ _ Eg).
        pose proof (JSMap_length_set key e
                      (JSMap.delete key (MemoryCache.store c))).
        lia.
  - destruct Hwf as [Hnd [Hne Hsz]].
    unfold MemoryCache.order, MemoryCache.size, JSMap.size,
      MemoryCache.delete in *. simpl.
    split; [|split].
    + now apply JSMap_NoDup_delete.
    + rewrite JSMap_keys_delete. intros H. apply filter_In in H. tauto.
    + pose proof (JSMap_length_delete key (MemoryCache.store c)). lia.
  - unfold MemoryCache.order, MemoryCache.size, JSMap.size. simpl.
    split; [constructor|split; [tauto|lia]].
Qed.

(** X2: whatever the calls made on a fresh [MemoryCache], as long as no
    value is set under the empty key, the keys stay distinct and the cache
    never holds more than [maxSize] entries (one entry, when [maxSize] is
    below one). *)
Theorem MemoryCache_bounded (ops : list (Op T)) (maxSize : Z) :
  stores_named ops = true ->
  let c := run ops (MemoryCache.create maxSize) in
  NoDup (MemoryCache.order c)
  /\ MemoryCache.size c <= Z.max 1 maxSize.
Proof.
  intros Hops c.
  assert (H : wf c /\ MemoryCache.maxSize c = maxSize).
  { unfold c, run. clear c.
    assert (H0 : wf (MemoryCache.create (T:=T) maxSize)
                 /\ MemoryCache.maxSize (MemoryCache.create (T:=T) maxSize)
                    = maxSize).
    { unfold MemoryCache.order, MemoryCache.size, JSMap.size. simpl.
      split; [|reflexivity]. split; [constructor|split; [tauto|lia]]. }
    revert H0. generalize (MemoryCache.create (T:=T) maxSize).
    unfold stores_named in Hops.
    induction ops as [|op ops IH]; intros c [Hwf Hmax]; simpl.
    - now split.
    - simpl in Hops. apply andb_prop in Hops. destruct Hops as [Hop Hops].
      assert (Hk : match stored_key op with
                   | Some key => key <> ""
                   | None => True
                   end).
      { destruct (stored_key op); [|exact I].
        apply negb_true_iff in Hop. now apply String.eqb_neq. }
      destruct (wf_apply op c Hk Hwf) as [Hwf' Hmax'].
      apply IH; [exact Hops|]. split; [exact Hwf'|congruence]. }
  destruct H as [[Hnd [_ Hsz]] Hmax]. rewrite Hmax in Hsz. now split.
Qed.

End MemoryCacheInvariant.

Lemma MemoryCache_bounded_witness :
  let c :=
    MemoryCacheOps.run
      [ MemoryCacheOps.OSet 1 "a" 10 60; MemoryCacheOps.OSet 2 "b" 20 60;
        MemoryCacheOps.OGet 3 "a"; MemoryCacheOps.OSet 4 "c" 30 60;
        MemoryCacheOps.OSet 5 "b" 21 60 ]
      (MemoryCache.create 2) in
  NoDup (MemoryCache.order c) /\ MemoryCache.size c <= 2.
Proof.
  apply (MemoryCache_bounded
           [ MemoryCacheOps.OSet 1 "a" 10 60; MemoryCacheOps.OSet 2 "b" 20 60;
             MemoryCacheOps.OGet 3 "a"; MemoryCacheOps.OSet 4 "c" 30 60;
             MemoryCacheOps.OSet 5 "b" 21 60 ] 2).
  reflexivity.
Defined.

(** The empty key is the exception: it is never evicted, so a cache made
    for one entry ends up with two. *)
Lemma MemoryCache_empty_key_not_evicted :
  MemoryCache.order
    (MemoryCache.set 2 "a" 20 60
       (MemoryCache.set 1 "" 10 60 (MemoryCache.create 1)))
  = [""; "a"].
Proof. reflexivity. Qed.

(** ** [LocalStorageCache]: round trip, purge and the namespace *)

Lemma prefix_append (pre key : string) : String.prefix pre (pre ++ key) = true.
Proof.
  induction pre as [|a pre IH]; simpl.
  - now destruct key.
  - destruct (ascii_dec a a); [exact IH|contradiction].
Qed.

Lemma In_deletes {V : Type} (e : string * V) (ks : list string)
  (m : JSMap.t V) :
  In e (fold_left (fun m key => JSMap.delete key m) ks m) ->
  In e m /\ ~ In (fst e) ks.
Proof.
  revert m. induction ks as [|k ks IH]; intros m H; simpl in *.
  - tauto.
  - apply IH in H. destruct H as [H Hn].
    unfold JSMap.delete in H. apply filter_In in H. destruct H as [H Hk].
    apply negb_true_iff, String.eqb_neq in Hk.
    split; [exact H|]. intros [E|E]; [congruence|contradiction].
Qed.

Lemma length_deletes {V : Type} (ks : list string) (m : JSMap.t V) :
  NoDup ks -> NoDup (map fst m) -> incl ks (map fst m) ->
  (List.length (fold_left (fun m key => JSMap.delete key m) ks m)
   + List.length ks = List.length m)%nat.
Proof.
  revert m. induction ks as [|k ks IH]; intros m Hks Hm Hincl; simpl.
  - lia.
  - inversion Hks as [|? ? Hnin Hks']; subst.
    assert (Hlen : (S (List.length (JSMap.delete k m)) = List.length m)%nat).
    { assert (Hin : In k (map fst m)) by (apply Hincl; now left).
      clear - Hin Hm.
      induction m as [|[k' v'] m IHm]; simpl in *; [contradiction|].
      inversion Hm as [|? ? Hnin Hm']; subst.
      destruct (k' =? k)%string eqn:E; simpl.
      - apply String.eqb_eq in E. subst.
        f_equal. unfold JSMap.delete.
        rewrite forallb_filter_id; [reflexivity|].
        apply forallb_forall. intros [k0 v0] H0. simpl.
        apply negb_true_iff, String.eqb_neq. intros ->.
        apply Hnin. now apply (in_map fst) in H0.
      - apply String.eqb_neq in E. f_equal. apply IHm; [exact Hm'|].
        destruct Hin; [contradiction|assumption]. }
    rewrite <- Hlen.
    rewrite <- (IH (JSMap.delete k m)); [lia|exact Hks'| |].
    + now apply JSMap_NoDup_delete.
    + intros x Hx. rewrite JSMap_keys_delete. apply filter_In. split.
      * apply Hincl. now right.
      * apply negb_true_iff, String.eqb_neq. intros ->. contradiction.
Qed.

Lemma NoDup_fst_filter {A B : Type} (f : A * B -> bool) (l : list (A * B)) :
  NoDup (map fst l) -> NoDup (map fst (filter f l)).
Proof.
  induction l as [|x l IH]; simpl; intros Hnd; [constructor|].
  inversion Hnd as [|? ? Hnin Hnd']; subst.
  destruct (f x); simpl; [constructor|]; auto.
  intros H. apply Hnin.
  apply in_map_iff in H. destruct H as [y [E H]].
  apply filter_In in H. rewrite <- E. apply in_map. tauto.
Qed.

Section DurableMore.
Import LocalStorageCacheOps.
Context {T : Type}.
Variable quota : JSMap.t string -> bool.
Variable JSON_stringify : Entry.CacheEntry T -> option string.
Variable JSON_parse : string -> option (Entry.CacheEntry T).

Local Abbreviation set :=
  (LocalStorageCache.set quota JSON_stringify JSON_parse).
Local Abbreviation get := (LocalStorageCache.get JSON_parse).
Local Abbreviation sweep := (LocalStorageCache.sweep JSON_parse).
Local Abbreviation keysToDelete :=
  (LocalStorageCache.keysToDelete JSON_parse).
Local Abbreviation cleanExpired :=
  (LocalStorageCache.cleanExpired JSON_parse).
Local Abbreviation apply := (apply quota JSON_stringify JSON_parse).
Local Abbreviation run := (run quota JSON_stringify JSON_parse).

Lemma keysToDelete_prefixed (pre : string) (now : Z) (st : Storage.t)
  (k : string) :
  In k (keysToDelete pre now st) -> String.prefix pre k = true.
Proof.
  unfold LocalStorageCache.keysToDelete. intros H.
  apply in_map_iff in H. destruct H as [[k' s] [<- H]].
  apply filter_In in H. destruct H as [_ H].
  unfold LocalStorageCache.doomed in H. simpl.
  destruct (String.prefix pre k'); [reflexivity|].
  now rewrite orb_true_r in H.
Qed.

Lemma sweep_outside (pre : string) (now : Z) (st : Storage.t) (k : string) :
  String.prefix pre k = false ->
  Storage.getItem k (sweep pre now st) = Storage.getItem k st.
Proof.
  intros Hk. unfold Storage.getItem, LocalStorageCache.sweep.
  rewrite removeItems_items. apply deletes_spare.
  intros H. apply keysToDelete_prefixed in H. congruence.
Qed.

(** X3: an entry written to the storage, at once or after the sweep has made
    room, is read back until its TTL has passed and is a miss after that,
    the JSON text of the entry being one that parses back to it. *)
Theorem LocalStorageCache_set_get (now now' : Z) (key : string) (v : T)
  (ttlSeconds : Z) (c : LocalStorageCache.t) (st : Storage.t)
  (text : string) :
  LocalStorageCache.localStorage c = Some st ->
  JSON_stringify (Entry.mk v now ttlSeconds) = Some text ->
  text <> "" ->
  JSON_parse text = Some (Entry.mk v now ttlSeconds) ->
  quota (JSMap.set (LocalStorageCache.getFullKey c key) text
           (Storage.items st))
  || quota (JSMap.set (LocalStorageCache.getFullKey c key) text
              (Storage.items (sweep (LocalStorageCache.prefix c) now st)))
  = true ->
  fst (get now' key (state_of (set now key v ttlSeconds c)))
  = (if now' - now <=? 1000 * ttlSeconds then Some v else None).
Proof.
  intros Hls Hs Htext Hp Hq.
  assert (Hread : forall st',
    JSMap.get (LocalStorageCache.getFullKey c key) (Storage.items st')
    = Some text ->
    fst (get now' key
           (LocalStorageCache.mk (LocalStorageCache.prefix c) (Some st')))
    = (if now' - now <=? 1000 * ttlSeconds then Some v else None)).
  { intros st' Hg. unfold LocalStorageCache.get.
    cbn [LocalStorageCache.localStorage].
    unfold LocalStorageCache.getFullKey in *.
    cbn [LocalStorageCache.prefix]. unfold Storage.getItem. rewrite Hg.
    apply String.eqb_neq in Htext. rewrite Htext, Hp.
    unfold Entry.expired. cbn [Entry.timestamp Entry.ttl Entry.data].
    rewrite Z.gtb_ltb, Z.ltb_antisym.
    now destruct (now' - now <=? 1000 * ttlSeconds). }
  unfold LocalStorageCache.set. rewrite Hls.
  unfold LocalStorageCache.write. rewrite Hs. unfold Storage.setItem.
  destruct (quota (JSMap.set (LocalStorageCache.getFullKey c key) text
                     (Storage.items st))) eqn:Q1.
  - cbn [try_catch lift state_of]. apply Hread.
    cbn [Storage.items]. apply JSMap_get_set_same.
  - cbn [try_catch]. cbn [orb] in Hq.
    assert (Hsw : Storage.items
                    (sweep (LocalStorageCache.prefix c) now
                       (Storage.mk (Storage.items st)
                          (Storage.calls st
                           ++ [Storage.SetItem
                                 (LocalStorageCache.getFullKey c key)
                                 text])))
                  = Storage.items
                      (sweep (LocalStorageCache.prefix c) now st)).
    { unfold LocalStorageCache.sweep, LocalStorageCache.keysToDelete.
      now rewrite !removeItems_items. }
    rewrite Hsw, Hq. cbn [try_catch lift state_of]. apply Hread.
    cbn [Storage.items]. apply JSMap_get_set_same.
Qed.

(** X4: a read that finds a text which does not parse, or an entry whose
    TTL has passed, is a miss; it removes the item from the storage, unless
    the text is the empty string, which is left where it is. *)
Theorem LocalStorageCache_get_purges (now : Z) (key : string)
  (c : LocalStorageCache.t) (st : Storage.t) (text : string) :
  LocalStorageCache.localStorage c = Some st ->
  Storage.getItem (LocalStorageCache.getFullKey c key) st = Some text ->
  match JSON_parse text with
  | Some e => Entry.expired now e
  | None => true
  end = true ->
  fst (get now key c) = None
  /\ item (LocalStorageCache.getFullKey c key) (snd (get now key c))
     = (if (text =? "")%string then Some text else None).
Proof.
  intros Hls Hg Hbad.
  unfold LocalStorageCache.get, item. rewrite Hls, Hg.
  destruct (text =? "")%string.
  - cbn [fst snd]. rewrite Hls. auto.
  - destruct (JSON_parse text) as [e|]; [rewrite Hbad|];
      cbn [fst snd LocalStorageCache.localStorage];
      (split; [reflexivity|]);
      unfold Storage.getItem, Storage.removeItem; cbn [Storage.items];
      apply JSMap_get_delete_same.
Qed.

Lemma apply_prefix (op : Op T) (c : LocalStorageCache.t) :
  LocalStorageCache.prefix (apply op c) = LocalStorageCache.prefix c.
Proof.
  destruct op as [now key data ttl|now key|key|now|];
    unfold LocalStorageCacheOps.apply.
  - unfold LocalStorageCache.set.
    destruct (LocalStorageCache.localStorage c); [|reflexivity].
    destruct (LocalStorageCache.write _ _ _ _ _); cbn [try_catch];
      [reflexivity|].
    now destruct (LocalStorageCache.write _ _ _ _ _).
  - unfold LocalStorageCache.get.
    destruct (LocalStorageCache.localStorage c); [|reflexivity].
    destruct (Storage.getItem _ _); [|reflexivity].
    destruct (_ =? "")%string; [reflexivity|].
    destruct (JSON_parse _) as [e|]; [|reflexivity].
    now destruct (Entry.expired now e).
  - unfold LocalStorageCache.delete.
    now destruct (LocalStorageCache.localStorage c).
  - unfold LocalStorageCache.cleanExpired.
    now destruct (LocalStorageCache.localStorage c).
  - unfold LocalStorageCache.clear.
    now destruct (LocalStorageCache.localStorage c).
Qed.

Lemma write_outside (fullKey : string) (entry : Entry.CacheEntry T)
  (st : Storage.t) (k : string) :
  k <> fullKey ->
  Storage.getItem k
    (state_of (LocalStorageCache.write quota JSON_stringify fullKey entry st))
  = Storage.getItem k st.
Proof.
  intros Hne. unfold LocalStorageCache.write, Storage.setItem.
  destruct (JSON_stringify entry) as [text|]; [|reflexivity].
  destruct (quota _); [|reflexivity].
  unfold Storage.getItem. cbn [state_of Storage.items].
  now apply JSMap_get_set_other.
Qed.

Lemma apply_outside (op : Op T) (c : LocalStorageCache.t) (k : string) :
  String.prefix (LocalStorageCache.prefix c) k = false ->
  item k (apply op c) = item k c.
Proof.
  intros Hk.
  assert (Hfull : forall key, k <> LocalStorageCache.getFullKey c key).
  { intros key ->. unfold LocalStorageCache.getFullKey in Hk.
    now rewrite prefix_append in Hk. }
  destruct op as [now key data ttl|now key|key|now|];
    unfold LocalStorageCacheOps.apply, item.
  - unfold LocalStorageCache.set.
    destruct (LocalStorageCache.localStorage c) as [st|] eqn:Hls;
      [|cbn [state_of]; now rewrite Hls].
    pose proof (write_outside (LocalStorageCache.getFullKey c key)
                  (Entry.mk data now ttl) st k (Hfull key)) as W1.
    destruct (LocalStorageCache.write quota JSON_stringify _ _ st)
      as [s|s1]; cbn [try_catch lift state_of
                      LocalStorageCache.localStorage] in *;
      [exact W1|].
    pose proof (write_outside (LocalStorageCache.getFullKey c key)
                  (Entry.mk data now ttl)
                  (sweep (LocalStorageCache.prefix c) now s1) k (Hfull key))
      as W2.
    destruct (LocalStorageCache.write quota JSON_stringify _ _
                (sweep _ _ s1)) as [s|s];
      cbn [try_catch lift state_of LocalStorageCache.localStorage] in *;
      rewrite W2, sweep_outside by exact Hk; exact W1.
  - unfold LocalStorageCache.get.
    destruct (LocalStorageCache.localStorage c) as [st|] eqn:Hls;
      [|cbn [snd]; now rewrite Hls].
    destruct (Storage.getItem _ st) as [stored|];
      [|cbn [snd]; now rewrite Hls].
    destruct (stored =? "")%string; [cbn [snd]; now rewrite Hls|].
    assert (Hrm : Storage.getItem k
                    (Storage.removeItem
                       (LocalStorageCache.getFullKey c key) st)
                  = Storage.getItem k st).
    { unfold Storage.getItem, Storage.removeItem. cbn [Storage.items].
      apply JSMap_get_delete_other, Hfull. }
    destruct (JSON_parse stored) as [e|];
      [destruct (Entry.expired now e)|];
      cbn [snd LocalStorageCache.localStorage];
      try exact Hrm; now rewrite Hls.
  - unfold LocalStorageCache.delete.
    destruct (LocalStorageCache.localStorage c) as [st|] eqn:Hls;
      [|now rewrite Hls].
    cbn [LocalStorageCache.localStorage].
    unfold Storage.getItem, Storage.removeItem. cbn [Storage.items].
    apply JSMap_get_delete_other, Hfull.
  - unfold LocalStorageCache.cleanExpired.
    destruct (LocalStorageCache.localStorage c) as [st|] eqn:Hls;
      [|cbn [snd]; now rewrite Hls].
    cbn [snd LocalStorageCache.localStorage]. now apply sweep_outside.
  - unfold LocalStorageCache.clear.
    destruct (LocalStorageCache.localStorage c) as [st|] eqn:Hls;
      [|now rewrite Hls].
    cbn [LocalStorageCache.localStorage].
    unfold Storage.getItem. rewrite removeItems_items.
    apply deletes_spare. intros H.
    apply in_map_iff in H. destruct H as [[k' s] [E H]].
    simpl in E. subst k'.
    apply filter_In in H. destruct H as [_ H]. simpl in H.
    rewrite Hk in H. now rewrite andb_false_r in H.
Qed.

(** X5: no call of the class, in any number and order, touches an item of
    the storage whose key does not start with the prefix of the cache. *)
Theorem LocalStorageCache_namespace (ops : list (Op T))
  (c : LocalStorageCache.t) (k : string) :
  String.prefix (LocalStorageCache.prefix c) k = false ->
  item k (run ops c) = item k c.
Proof.
  revert c. unfold LocalStorageCacheOps.run.
  induction ops as [|op ops IH]; intros c Hk; simpl; [reflexivity|].
  rewrite IH by (now rewrite apply_prefix).
  now apply apply_outside.
Qed.

(** X6: after [clear] no item of the namespace is left, and every read
    through the class is a miss. *)
Theorem LocalStorageCache_clear_empties (c : LocalStorageCache.t)
  (k : string) :
  k <> "" ->
  String.prefix (LocalStorageCache.prefix c) k = true ->
  item k (LocalStorageCache.clear c) = None
  /\ forall now key,
       LocalStorageCache.getFullKey c key = k ->
       fst (get now key (LocalStorageCache.clear c)) = None.
Proof.
  intros Hk Hpre.
  assert (Hitem : item k (LocalStorageCache.clear c) = None).
  { unfold item, LocalStorageCache.clear.
    destruct (LocalStorageCache.localStorage c) as [st|] eqn:Hls;
      [|now rewrite Hls].
    cbn [LocalStorageCache.localStorage].
    unfold Storage.getItem. rewrite removeItems_items.
    destruct (JSMap.get k (Storage.items st)) as [s|] eqn:Hg.
    - apply deletes_remove. apply in_map_iff. exists (k, s).
      split; [reflexivity|]. apply filter_In.
      split; [now apply JSMap_get_In|]. simpl.
      apply String.eqb_neq in Hk. now rewrite Hk, Hpre.
    - now apply deletes_keep_absent. }
  split; [exact Hitem|].
  intros now key Hfull. unfold LocalStorageCache.get.
  unfold item in Hitem.
  assert (Hp : LocalStorageCache.prefix (LocalStorageCache.clear c)
               = LocalStorageCache.prefix c).
  { unfold LocalStorageCache.clear.
    now destruct (LocalStorageCache.localStorage c). }
  unfold LocalStorageCache.getFullKey in *. rewrite Hp, Hfull.
  destruct (LocalStorageCache.localStorage (LocalStorageCache.clear c));
    [|reflexivity].
  now rewrite Hitem.
Qed.

(** X7: [cleanExpired] returns the number of items it removes, and leaves
    nothing for a second sweep at the same time to remove. *)
Theorem LocalStorageCache_cleanExpired_count (now : Z)
  (c : LocalStorageCache.t) (st : Storage.t) :
  LocalStorageCache.localStorage c = Some st ->
  NoDup (map fst (Storage.items st)) ->
  exists st',
    LocalStorageCache.localStorage (snd (cleanExpired now c)) = Some st'
    /\ fst (cleanExpired now c)
       = Z.of_nat (List.length (Storage.items st))
         - Z.of_nat (List.length (Storage.items st'))
    /\ fst (cleanExpired now (snd (cleanExpired now c))) = 0.
Proof.
  intros Hls Hnd. unfold LocalStorageCache.cleanExpired. rewrite Hls.
  cbn [fst snd LocalStorageCache.localStorage LocalStorageCache.prefix].
  eexists. split; [reflexivity|]. split.
  - unfold LocalStorageCache.sweep. rewrite removeItems_items.
    assert (L := length_deletes
                   (keysToDelete (LocalStorageCache.prefix c) now st)
                   (Storage.items st)).
    rewrite <- L; [lia| |exact Hnd|].
    + unfold LocalStorageCache.keysToDelete.
      now apply NoDup_fst_filter.
    + unfold LocalStorageCache.keysToDelete. intros k Hk.
      apply in_map_iff in Hk. destruct Hk as [x [E H]].
      apply filter_In in H. rewrite <- E. apply in_map. tauto.
  - match goal with
    | |- Z.of_nat (List.length ?l) = 0 => assert (E : l = []); [|now rewrite E]
    end.
    unfold LocalStorageCache.keysToDelete.
    match goal with
    | |- map fst ?l = [] => assert (E : l = []); [|now rewrite E]
    end.
    destruct (filter _ _) as [|x l] eqn:F; [reflexivity|exfalso].
    assert (Hx : In x (x :: l)) by now left.
    rewrite <- F in Hx. apply filter_In in Hx. destruct Hx as [Hin Hd].
    unfold LocalStorageCache.sweep in Hin. rewrite removeItems_items in Hin.
    apply In_deletes in Hin. destruct Hin as [Hin Hn].
    apply Hn. unfold LocalStorageCache.keysToDelete.
    apply in_map. apply filter_In. now split.
Qed.

End DurableMore.

Lemma LocalStorageCache_set_get_witness :
  let c := LocalStorageCache.mk "deco-cache:" (Some TestHost.emptyStorage) in
  fst (LocalStorageCache.get TestHost.JSON_parse 31000 "k"
         (state_of
            (LocalStorageCache.set (TestHost.quota 2)
               TestHost.JSON_stringify TestHost.JSON_parse 1000 "k" 5 60 c)))
  = Some 5.
Proof.
  intro c.
  apply (LocalStorageCache_set_get (TestHost.quota 2)
           TestHost.JSON_stringify TestHost.JSON_parse 1000 31000 "k" 5 60
           c TestHost.emptyStorage (TestHost.entryText 5 1000 60)).
  - reflexivity.
  - reflexivity.
  - discriminate.
  - reflexivity.
  - reflexivity.
Defined.

Lemma LocalStorageCache_get_purges_witness :
  fst (LocalStorageCache.get TestHost.JSON_parse 100000 "bad"
         Scenario.mixedCache) = None
  /\ LocalStorageCacheOps.item "deco-cache:bad"
       (snd (LocalStorageCache.get TestHost.JSON_parse 100000 "bad"
               Scenario.mixedCache)) = None.
Proof.
  apply (LocalStorageCache_get_purges TestHost.JSON_parse 100000 "bad"
           Scenario.mixedCache Scenario.mixedStorage "garbage").
  - reflexivity.
  - reflexivity.
  - reflexivity.
Defined.

Lemma LocalStorageCache_namespace_witness :
  LocalStorageCacheOps.item "theme"
    (LocalStorageCacheOps.run (TestHost.quota 3) TestHost.JSON_stringify
       TestHost.JSON_parse Scenario.durableOps Scenario.mixedCache)
  = Some "dark".
Proof.
  rewrite (LocalStorageCache_namespace (TestHost.quota 3)
             TestHost.JSON_stringify TestHost.JSON_parse
             Scenario.durableOps Scenario.mixedCache "theme").
  - reflexivity.
  - reflexivity.
Defined.

Lemma LocalStorageCache_clear_empties_witness :
  LocalStorageCacheOps.item "deco-cache:fresh"
    (LocalStorageCache.clear Scenario.mixedCache) = None
  /\ fst (LocalStorageCache.get TestHost.JSON_parse 100000 "fresh"
            (LocalStorageCache.clear Scenario.mixedCache)) = None.
Proof.
  destruct (LocalStorageCache_clear_empties TestHost.JSON_parse
              Scenario.mixedCache "deco-cache:fresh") as [H1 H2].
  - discriminate.
  - reflexivity.
  - split; [exact H1|]. apply H2. reflexivity.
Defined.

Lemma LocalStorageCache_cleanExpired_count_witness :
  fst (LocalStorageCache.cleanExpired TestHost.JSON_parse 100000
         Scenario.mixedCache) = 2
  /\ fst (LocalStorageCache.cleanExpired TestHost.JSON_parse 100000
            (snd (LocalStorageCache.cleanExpired TestHost.JSON_parse 100000
                    Scenario.mixedCache))) = 0.
Proof.
  destruct (LocalStorageCache_cleanExpired_count TestHost.JSON_parse 100000
              Scenario.mixedCache Scenario.mixedStorage)
    as [st' [_ [_ H]]].
  - reflexivity.
  - apply NoDup_keys_dec
      with (p := [ ("deco-cache:old", KeyBuilder.SUndefined);
                   ("theme", KeyBuilder.SUndefined);
                   ("deco-cache:fresh", KeyBuilder.SUndefined);
                   ("deco-cache:bad", KeyBuilder.SUndefined) ]).
    reflexivity.
  - split; [reflexivity|exact H].
Defined.

(** ** [UnifiedCache]: the two tiers together *)

Section FacadeMore.
Context {T : Type}.
Variable is_null : T -> bool.
Variable quota : JSMap.t string -> bool.
Variable JSON_stringify : Entry.CacheEntry T -> option string.
Variable JSON_parse : string -> option (Entry.CacheEntry T).

Local Abbreviation uset :=
  (UnifiedCache.set quota JSON_stringify JSON_parse).
Local Abbreviation uget := (UnifiedCache.get is_null JSON_parse).

Lemma UnifiedCache_set_parts (now : Z) (key : string) (v : T)
  (ttlSeconds : Z) (c : UnifiedCache.t T) :
  UnifiedCache.config (state_of (uset now key v ttlSeconds c))
  = UnifiedCache.config c
  /\ UnifiedCache.memoryCache (state_of (uset now key v ttlSeconds c))
     = (if UnifiedCache.enableMemory (UnifiedCache.config c)
        then MemoryCache.set now key v ttlSeconds (UnifiedCache.memoryCache c)
        else UnifiedCache.memoryCache c).
Proof.
  unfold UnifiedCache.set.
  destruct (UnifiedCache.enableLocalStorage (UnifiedCache.config c)).
  - destruct (LocalStorageCache.set _ _ _ _ _ _ _ _); now split.
  - now split.
Qed.

Lemma UnifiedCache_read_after_set (now now' : Z) (key : string) (v : T)
  (ttlSeconds : Z) (c : UnifiedCache.t T) :
  UnifiedCache.enableMemory (UnifiedCache.config c) = true ->
  is_null v = false ->
  now' - now <= 1000 * ttlSeconds ->
  fst (uget now' key (state_of (uset now key v ttlSeconds c))) = Some v.
Proof.
  intros Hm Hn Ht.
  destruct (UnifiedCache_set_parts now key v ttlSeconds c) as [Hc Hmem].
  rewrite Hm in Hmem.
  unfold UnifiedCache.get. rewrite Hc, Hm, Hmem.
  destruct (MemoryCache_read_after_set now now' key v ttlSeconds
              (UnifiedCache.memoryCache c)) as [Hg _].
  apply Z.leb_le in Ht. rewrite Ht in Hg.
  cbv zeta. rewrite Hg, (present_some is_null v Hn). reflexivity.
Qed.

(** X8: with the memory tier enabled, a value other than [null] that is set
    through the cache is what [get] returns until its TTL has passed,
    whatever the storage tier holds and whether or not the write to it
    succeeded. *)
Theorem UnifiedCache_set_get (now now' : Z) (key : string) (v : T)
  (ttlSeconds : Z) (c : UnifiedCache.t T) :
  UnifiedCache.enableMemory (UnifiedCache.config c) = true ->
  is_null v = false ->
  now' - now <= 1000 * ttlSeconds ->
  fst (uget now' key (state_of (uset now key v ttlSeconds c))) = Some v.
Proof. apply UnifiedCache_read_after_set. Qed.

Lemma UnifiedCache_miss_after_delete (now : Z) (key : string)
  (c : UnifiedCache.t T) :
  uget now key (UnifiedCache.delete key c)
  = (None, UnifiedCache.delete key c).
Proof.
  unfold UnifiedCache.get, UnifiedCache.delete.
  cbn [UnifiedCache.config UnifiedCache.memoryCache
       UnifiedCache.localStorageCache].
  assert (Hmem : MemoryCache.get now key
                   (MemoryCache.delete key (UnifiedCache.memoryCache c))
                 = (None,
                    MemoryCache.delete key (UnifiedCache.memoryCache c))).
  { unfold MemoryCache.get, MemoryCache.delete. cbn [MemoryCache.store].
    now rewrite JSMap_get_delete_same. }
  assert (Hls : LocalStorageCache.get JSON_parse now key
                  (LocalStorageCache.delete key
                     (UnifiedCache.localStorageCache c))
                = (None,
                   LocalStorageCache.delete key
                     (UnifiedCache.localStorageCache c))).
  { unfold LocalStorageCache.get, LocalStorageCache.delete.
    destruct (LocalStorageCache.localStorage
                (UnifiedCache.localStorageCache c)) as [st|] eqn:E.
    - cbn [LocalStorageCache.localStorage].
      unfold LocalStorageCache.getFullKey. cbn [LocalStorageCache.prefix].
      unfold Storage.getItem, Storage.removeItem. cbn [Storage.items].
      now rewrite JSMap_get_delete_same.
    - now rewrite E. }
  rewrite Hmem, Hls.
  destruct (UnifiedCache.enableMemory (UnifiedCache.config c));
    destruct (UnifiedCache.enableLocalStorage (UnifiedCache.config c));
    reflexivity.
Qed.

(** X9: after [delete] the key is a miss in both tiers, whichever tiers are
    enabled and whatever they held, and the miss changes nothing. *)
Theorem UnifiedCache_delete_get (now : Z) (key : string)
  (c : UnifiedCache.t T) :
  uget now key (UnifiedCache.delete key c)
  = (None, UnifiedCache.delete key c).
Proof. apply UnifiedCache_miss_after_delete. Qed.

Lemma MemoryCache_get_fst (now : Z) (key : string) (m : MemoryCache.t T) :
  fst (MemoryCache.get now key m)
  = match JSMap.get key (MemoryCache.store m) with
    | Some e => if Entry.expired now e then None else Some (Entry.data e)
    | None => None
    end.
Proof.
  unfold MemoryCache.get.
  destruct (JSMap.get key (MemoryCache.store m)) as [e|];
    [destruct (Entry.expired now e)|]; reflexivity.
Qed.

Lemma LocalStorageCache_get_fst (now : Z) (key : string)
  (l : LocalStorageCache.t) :
  fst (LocalStorageCache.get JSON_parse now key l)
  = match LocalStorageCache.localStorage l with
    | Some st =>
        match Storage.getItem (LocalStorageCache.getFullKey l key) st with
        | Some text =>
            if (text =? "")%string then None
            else
              match JSON_parse text with
              | Some e =>
                  if Entry.expired now e then None else Some (Entry.data e)
              | None => None
              end
        | None => None
        end
    | None => None
    end.
Proof.
  unfold LocalStorageCache.get.
  destruct (LocalStorageCache.localStorage l) as [st|]; [|reflexivity].
  destruct (Storage.getItem _ st) as [text|]; [|reflexivity].
  destruct (text =? "")%string; [reflexivity|].
  destruct (JSON_parse text) as [e|]; [|reflexivity].
  destruct (Entry.expired now e); reflexivity.
Qed.

(** X10: [get] hits with a value exactly when the value is not [null] and
    an enabled tier holds it in an unexpired entry: the memory tier, or the
    storage tier when the memory tier is disabled or has no unexpired entry
    for the key but one whose value is [null]. *)
Theorem UnifiedCache_get_hit_iff (now : Z) (key : string)
  (c : UnifiedCache.t T) (v : T) :
  fst (uget now key c) = Some v
  <-> UnifiedCache.holds is_null JSON_parse now key c v.
Proof.
  split; [|apply UnifiedCache_get_holds].
  unfold UnifiedCache.get, UnifiedCache.holds. cbv zeta.
  set (r1 := fst (if UnifiedCache.enableMemory (UnifiedCache.config c)
                  then MemoryCache.get now key (UnifiedCache.memoryCache c)
                  else (None, UnifiedCache.memoryCache c))).
  assert (R1 : r1
               = if UnifiedCache.enableMemory (UnifiedCache.config c)
                 then
                   match JSMap.get key
                           (MemoryCache.store (UnifiedCache.memoryCache c))
                   with
                   | Some e =>
                       if Entry.expired now e then None
                       else Some (Entry.data e)
                   | None => None
                   end
                 else None).
  { unfold r1.
    destruct (UnifiedCache.enableMemory (UnifiedCache.config c));
      [apply MemoryCache_get_fst|reflexivity]. }
  clearbody r1.
  destruct (UnifiedCache.present is_null r1) as [d|] eqn:P1.
  - cbn [fst]. intros [= ->]. apply present_inv in P1.
    destruct P1 as [E N]. split; [exact N|]. left. rewrite R1 in E.
    destruct (UnifiedCache.enableMemory (UnifiedCache.config c));
      [|discriminate].
    split; [reflexivity|].
    destruct (JSMap.get key _) as [e|]; [|discriminate].
    destruct (Entry.expired now e) eqn:X; [discriminate|].
    injection E as E. exists e. auto.
  - destruct (UnifiedCache.enableLocalStorage (UnifiedCache.config c));
      [|discriminate].
    destruct (UnifiedCache.present is_null
                (fst (LocalStorageCache.get JSON_parse now key
                        (UnifiedCache.localStorageCache c))))
      as [d|] eqn:P2; [|discriminate].
    cbn [fst]. intros [= ->]. apply present_inv in P2.
    destruct P2 as [E N]. split; [exact N|]. right. split.
    + intros Hm e Hg X. rewrite R1, Hm, Hg, X in P1.
      cbn [UnifiedCache.present] in P1.
      destruct (is_null (Entry.data e)); [reflexivity|discriminate].
    + split; [reflexivity|]. rewrite LocalStorageCache_get_fst in E.
      destruct (LocalStorageCache.localStorage
                  (UnifiedCache.localStorageCache c)) as [st|];
        [|discriminate].
      destruct (Storage.getItem _ st) as [text|] eqn:Hi; [|discriminate].
      destruct (text =? "")%string eqn:Ht; [discriminate|].
      destruct (JSON_parse text) as [e|] eqn:Hp; [|discriminate].
      destruct (Entry.expired now e) eqn:X; [discriminate|].
      injection E as E. apply String.eqb_neq in Ht.
      exists st, text, e. auto 10.
Qed.

End FacadeMore.

Lemma UnifiedCache_set_get_witness :
  fst (UnifiedCache.get TestHost.is_null TestHost.JSON_parse 7200000
         "douban-movie" TestHost.cache1) = Some 42.
Proof.
  apply (UnifiedCache_set_get TestHost.is_null (TestHost.quota 100)
           TestHost.JSON_stringify TestHost.JSON_parse 0 7200000
           "douban-movie" 42 7200 TestHost.cache0).
  - reflexivity.
  - reflexivity.
  - vm_compute. discriminate.
Defined.

(** ** [useCachedData]: lifecycle, debounce and bookkeeping *)

Section CoordinatorMore.
Import UseCachedData.
Context {T D : Type}.
Variable is_null : T -> bool.
Variable quota : JSMap.t string -> bool.
Variable JSON_stringify : Entry.CacheEntry T -> option string.
Variable JSON_parse : string -> option (Entry.CacheEntry T).
Variable stringify : D -> string.
Variable same_deps : D -> D -> bool.

Local Abbreviation step :=
  (UseCachedData.step is_null quota JSON_stringify JSON_parse stringify
     same_deps).
Local Abbreviation run :=
  (UseCachedData.run is_null quota JSON_stringify JSON_parse stringify
     same_deps).
Local Abbreviation reachable :=
  (UseCachedData.reachable is_null quota JSON_stringify JSON_parse stringify
     same_deps).
Local Abbreviation fetchData :=
  (UseCachedData.fetchData is_null JSON_parse stringify).
Local Abbreviation resolved :=
  (UseCachedData.resolved quota JSON_stringify JSON_parse).

(** What [fetchData] leaves behind: either the cached value published and
    no producer call, or one producer call pending under the new counter,
    for the options of the call. *)
Lemma fetchData_cases (now : Z) (o : @Options D) (ignoreCache : bool)
  (w : @World T D) :
  let w' := fetchData now o ignoreCache w in
  (exists cached c,
     enableCache o && negb ignoreCache = true
     /\ isMountedRef (hook w) = true
     /\ UnifiedCache.get is_null JSON_parse now (cacheKey o) (globalCache w)
        = (Some cached, c)
     /\ w' = mkWorld
               (publish cached true
                  (begin (stringify (dependencies o)) (hook w))) c)
  \/
  (exists c,
     hook w'
     = callProducer
         (mkPending (requestIdRef (hook w) + 1)
            (stringify (dependencies o)) o)
         (begin (stringify (dependencies o)) (hook w))
     /\ globalCache w' = c
     /\ (enableCache o && negb ignoreCache = false -> c = globalCache w)).
Proof.
  unfold UseCachedData.fetchData.
  destruct (enableCache o && negb ignoreCache) eqn:E.
  - destruct (UnifiedCache.get is_null JSON_parse now (cacheKey o)
                (globalCache w))
      as [[cached|] c] eqn:G.
    + cbn [currentParamsRef begin]. rewrite String.eqb_refl.
      cbn [andb isMountedRef begin].
      destruct (isMountedRef (hook w)) eqn:M.
      * left. exists cached, c. auto.
      * right. exists c. cbn. split; [reflexivity|].
        split; [reflexivity|discriminate].
    + right. exists c. cbn. split; [reflexivity|].
      split; [reflexivity|discriminate].
  - right. exists (globalCache w). cbn. auto.
Qed.

(** Every step either calls the producer once, under the next counter value,
    or calls it not at all and leaves no new call pending. *)
Lemma step_calls (now : Z) (ev : Event) (w : @World T D) :
  let w' := step now ev w in
  (producerCalls (hook w') = producerCalls (hook w)
   /\ requestIdRef (hook w) <= requestIdRef (hook w')
   /\ (inflight (hook w') = inflight (hook w)
       \/ exists id, inflight (hook w')
                     = drop_pending id (inflight (hook w))))
  \/
  (producerCalls (hook w') = S (producerCalls (hook w))
   /\ requestIdRef (hook w') = requestIdRef (hook w) + 1
   /\ exists p, inflight (hook w') = (inflight (hook w) ++ [p])%list
                /\ currentRequestId p = requestIdRef (hook w')).
Proof.
  assert (Hfetch : forall o ig (w0 : @World T D),
    let w' := fetchData now o ig w0 in
    (producerCalls (hook w') = producerCalls (hook w0)
     /\ requestIdRef (hook w0) <= requestIdRef (hook w')
     /\ inflight (hook w') = inflight (hook w0))
    \/
    (producerCalls (hook w') = S (producerCalls (hook w0))
     /\ requestIdRef (hook w') = requestIdRef (hook w0) + 1
     /\ exists p, inflight (hook w') = (inflight (hook w0) ++ [p])%list
                  /\ currentRequestId p = requestIdRef (hook w'))).
  { intros o ig w0. cbv zeta.
    destruct (fetchData_cases now o ig w0)
      as [[cached [c [_ [_ [_ ->]]]]]|[c [-> _]]]; cbn.
    - left. repeat split. lia.
    - right. repeat split. eexists. split; reflexivity. }
  destruct ev as [o| | | |id result|id e| |c]; cbn [UseCachedData.step].
  - left. destruct (isMountedRef (hook w)); [|repeat split; auto; lia].
    destruct (negb (cacheKey o =? cacheKey (options (hook w)))%string
              || negb (same_deps (dependencies o)
                         (dependencies (options (hook w))))).
    + destruct (debounceEffect_shape o (setOptions o (hook w)))
        as [H1 [_ [_ H4]]].
      cbn [hook]. rewrite H1, H4.
      unfold debounceEffect. cbn.
      destruct (negb (fetchOnMount o) && (requestIdRef (hook w) =? 0));
        cbn; repeat split; auto; lia.
    + cbn. repeat split; auto; lia.
  - destruct (debounceTimerRef (hook w)) as [o|].
    + destruct (Hfetch o false
                  (mkWorld (setTimer None (hook w)) (globalCache w)))
        as [[H1 [H2 H3]]|H]; [left|right; exact H].
      split; [exact H1|]. split; [exact H2|]. left. exact H3.
    + left. repeat split; auto; lia.
  - destruct (Hfetch (options (hook w)) true w)
      as [[H1 [H2 H3]]|H]; [left|right; exact H].
    split; [exact H1|]. split; [exact H2|]. left. exact H3.
  - left. cbn. repeat split; auto; lia.
  - left. destruct (find_pending id (inflight (hook w))) as [p|].
    + unfold UseCachedData.resolved. cbn [hook].
      destruct (negb (currentRequestId p =? _));
        [cbn; repeat split; try lia; right; now exists id|].
      destruct (negb (_ =? capturedParams p)%string);
        [cbn; repeat split; try lia; right; now exists id|].
      destruct (negb _);
        cbn; repeat split; try lia; right; now exists id.
    + repeat split; auto; lia.
  - left. destruct (find_pending id (inflight (hook w))) as [p|].
    + unfold rejected. cbn [hook].
      destruct (_ || _);
        cbn; repeat split; try lia; right; now exists id.
    + repeat split; auto; lia.
  - left. cbn. repeat split; auto; lia.
  - left. cbn. repeat split; auto; lia.
Qed.

Lemma NoDup_ids_drop (id : Z) (l : list (@Pending D)) :
  NoDup (map currentRequestId l) ->
  NoDup (map currentRequestId (drop_pending id l)).
Proof.
  induction l as [|p l IH]; simpl; intros Hnd; [constructor|].
  inversion Hnd as [|? ? Hnin Hnd']; subst.
  destruct (negb (currentRequestId p =? id)); simpl; auto.
  constructor; auto. intros H. apply Hnin.
  apply in_map_iff in H. destruct H as [q [E H]].
  apply (drop_pending_incl id) in H. rewrite <- E. now apply in_map.
Qed.

Lemma length_drop (id : Z) (l : list (@Pending D)) :
  (List.length (drop_pending id l) <= List.length l)%nat.
Proof. apply filter_length_le. Qed.

(** X11: the pending producer calls carry distinct request ids, there are
    never more of them than producer calls made, and never more producer
    calls than fetches dispatched: a fetch calls the producer at most
    once. *)
Theorem pending_calls_distinct (o : @Options D) (c : UnifiedCache.t T)
  (w : @World T D) :
  reachable o c w ->
  NoDup (map currentRequestId (inflight (hook w)))
  /\ (List.length (inflight (hook w)) <= producerCalls (hook w))%nat
  /\ Z.of_nat (producerCalls (hook w)) <= requestIdRef (hook w).
Proof.
  induction 1 as [|w now ev Hw [IH1 [IH2 IH3]]].
  - unfold mount, debounceEffect. cbn.
    destruct (negb (fetchOnMount o) && true); cbn;
      (split; [constructor|split; lia]).
  - destruct (guard_invariant _ _ _ _ _ _ _ _ _ Hw) as [_ Hg].
    destruct (step_calls now ev w)
      as [[H1 [H2 [H3|[id H3]]]]|[H1 [H2 [p [H3 H4]]]]];
      rewrite H1, H3.
    + split; [exact IH1|]. split; lia.
    + split; [now apply NoDup_ids_drop|].
      pose proof (length_drop id (inflight (hook w))). split; lia.
    + split; [|split].
      * rewrite map_app. apply NoDup_app; [exact IH1| |].
        -- repeat constructor. simpl. tauto.
        -- intros x Hx [<-|[]].
           apply in_map_iff in Hx. destruct Hx as [q [E Hq]].
           apply Hg in Hq. lia.
      * rewrite length_app. simpl. lia.
      * lia.
Qed.

Lemma unmounted_step (now : Z) (ev : Event) (w : @World T D) :
  isMountedRef (hook w) = false ->
  let w' := step now ev w in
  isMountedRef (hook w') = false
  /\ data (hook w') = data (hook w)
  /\ error (hook w') = error (hook w)
  /\ fromCache (hook w') = fromCache (hook w).
Proof.
  intros Hm.
  assert (Hfetch : forall o ig (w0 : @World T D),
    isMountedRef (hook w0) = false ->
    let w' := fetchData now o ig w0 in
    isMountedRef (hook w') = false
    /\ data (hook w') = data (hook w0)
    /\ error (hook w') = error (hook w0)
    /\ fromCache (hook w') = fromCache (hook w0)).
  { intros o ig w0 Hm0. cbv zeta.
    destruct (fetchData_cases now o ig w0)
      as [[cached [c [_ [M _]]]]|[c [-> _]]]; [congruence|].
    cbn. auto. }
  destruct ev as [o| | | |id result|id e| |c]; cbn [UseCachedData.step].
  - rewrite Hm. auto.
  - destruct (debounceTimerRef (hook w)) as [o|]; [|auto].
    apply (Hfetch o false (mkWorld (setTimer None (hook w)) (globalCache w))).
    exact Hm.
  - now apply Hfetch.
  - cbn. auto.
  - destruct (find_pending id (inflight (hook w))) as [p|]; [|auto].
    unfold UseCachedData.resolved. cbn [hook].
    destruct (negb (currentRequestId p =? _)); [cbn; auto|].
    destruct (negb (_ =? capturedParams p)%string); [cbn; auto|].
    cbn [isMountedRef setInflight]. rewrite Hm. cbn. auto.
  - destruct (find_pending id (inflight (hook w))) as [p|]; [|auto].
    unfold rejected. cbn [hook isMountedRef setInflight]. rewrite Hm.
    rewrite orb_true_r. cbn. auto.
  - cbn. auto.
  - cbn. auto.
Qed.

(** X12: once the component is unmounted, nothing that happens afterwards
    changes the published data, error or [fromCache] flag, and a producer
    call that settles afterwards writes nothing to the cache. *)
Theorem unmount_is_final (w : @World T D) (t : Z)
  (evs : list (Z * Event)) :
  let w' := run evs (step t Unmount w) in
  isMountedRef (hook w') = false
  /\ data (hook w') = data (hook w)
  /\ error (hook w') = error (hook w)
  /\ fromCache (hook w') = fromCache (hook w)
  /\ (forall now id result,
        globalCache (step now (Resolves id result) w') = globalCache w')
  /\ (forall now id e,
        globalCache (step now (Rejects id e) w') = globalCache w').
Proof.
  assert (Hrun : forall evs (w0 : @World T D),
    isMountedRef (hook w0) = false ->
    isMountedRef (hook (run evs w0)) = false
    /\ data (hook (run evs w0)) = data (hook w0)
    /\ error (hook (run evs w0)) = error (hook w0)
    /\ fromCache (hook (run evs w0)) = fromCache (hook w0)).
  { clear evs. induction evs as [|[now ev] evs IH]; intros w0 Hm; simpl.
    - auto.
    - destruct (unmounted_step now ev w0 Hm) as [H1 [H2 [H3 H4]]].
      destruct (IH _ H1) as [K1 [K2 [K3 K4]]].
      repeat split; congruence. }
  intros w'.
  destruct (Hrun evs (step t Unmount w) eq_refl) as [H1 [H2 [H3 H4]]].
  fold w' in H1, H2, H3, H4.
  split; [exact H1|]. split; [exact H2|]. split; [exact H3|].
  split; [exact H4|]. split.
  - intros now id result. cbn [UseCachedData.step].
    destruct (find_pending id (inflight (hook w'))) as [p|]; [|reflexivity].
    unfold UseCachedData.resolved. cbn [hook].
    destruct (negb (currentRequestId p =? _)); [reflexivity|].
    destruct (negb (_ =? capturedParams p)%string); [reflexivity|].
    cbn [isMountedRef setInflight]. rewrite H1. reflexivity.
  - intros now id e. cbn [UseCachedData.step].
    destruct (find_pending id (inflight (hook w'))) as [p|]; [|reflexivity].
    unfold rejected. cbn [hook isMountedRef setInflight]. rewrite H1.
    rewrite orb_true_r. reflexivity.
Qed.

End CoordinatorMore.

Lemma state_of_catch {S : Type} (o : Outcome S) :
  state_of (try_catch o (fun s => Returned s)) = state_of o.
Proof. now destruct o. Qed.

Section CoordinatorRuns.
Import UseCachedData.
Context {T D : Type}.
Variable is_null : T -> bool.
Variable quota : JSMap.t string -> bool.
Variable JSON_stringify : Entry.CacheEntry T -> option string.
Variable JSON_parse : string -> option (Entry.CacheEntry T).
Variable stringify : D -> string.
Variable same_deps : D -> D -> bool.

Local Abbreviation step :=
  (UseCachedData.step is_null quota JSON_stringify JSON_parse stringify
     same_deps).
Local Abbreviation run :=
  (UseCachedData.run is_null quota JSON_stringify JSON_parse stringify
     same_deps).
Local Abbreviation reachable :=
  (UseCachedData.reachable is_null quota JSON_stringify JSON_parse stringify
     same_deps).
Local Abbreviation fetchData :=
  (UseCachedData.fetchData is_null JSON_parse stringify).

(** A render starts nothing: it moves the timer, the options and at most
    the loading flag. *)
Lemma render_step (now : Z) (o : @Options D) (w : @World T D) :
  let w' := step now (Render o) w in
  requestIdRef (hook w') = requestIdRef (hook w)
  /\ producerCalls (hook w') = producerCalls (hook w)
  /\ inflight (hook w') = inflight (hook w)
  /\ isMountedRef (hook w') = isMountedRef (hook w)
  /\ data (hook w') = data (hook w)
  /\ globalCache w' = globalCache w.
Proof.
  cbn [UseCachedData.step].
  destruct (isMountedRef (hook w)) eqn:M; [|rewrite M; auto 10].
  destruct (negb (cacheKey o =? cacheKey (options (hook w)))%string
            || negb (same_deps (dependencies o)
                       (dependencies (options (hook w))))).
  - unfold debounceEffect. cbn.
    destruct (negb (fetchOnMount o) && (requestIdRef (hook w) =? 0));
      cbn; auto 10.
  - cbn. auto 10.
Qed.

Lemma renders_run (evs : list (Z * Event)) (w : @World T D) :
  forallb HookEvents.is_render (map snd evs) = true ->
  requestIdRef (hook (run evs w)) = requestIdRef (hook w)
  /\ producerCalls (hook (run evs w)) = producerCalls (hook w)
  /\ inflight (hook (run evs w)) = inflight (hook w)
  /\ isMountedRef (hook (run evs w)) = isMountedRef (hook w)
  /\ data (hook (run evs w)) = data (hook w)
  /\ globalCache (run evs w) = globalCache w.
Proof.
  revert w. induction evs as [|[now ev] evs IH]; intros w H; simpl.
  - auto 10.
  - simpl in H. apply andb_prop in H. destruct H as [Hev H].
    destruct ev; try discriminate.
    destruct (render_step now o w) as [A1 [A2 [A3 [A4 [A5 A6]]]]].
    destruct (IH (step now (Render o) w) H)
      as [B1 [B2 [B3 [B4 [B5 B6]]]]].
    repeat split; congruence.
Qed.

Lemma fetchData_decides (now : Z) (o : @Options D) (ignoreCache : bool)
  (w : @World T D) :
  fetchData now o ignoreCache w
  = let h := begin (stringify (dependencies o)) (hook w) in
    let me :=
      mkPending (requestIdRef (hook w) + 1) (stringify (dependencies o)) o in
    match
      (if enableCache o && negb ignoreCache
       then UnifiedCache.get is_null JSON_parse now (cacheKey o)
              (globalCache w)
       else (None, globalCache w))
    with
    | (Some cached, c) =>
        if isMountedRef (hook w) then mkWorld (publish cached true h) c
        else mkWorld (callProducer me h) c
    | (None, c) => mkWorld (callProducer me h) c
    end.
Proof.
  unfold UseCachedData.fetchData. cbv zeta.
  destruct (enableCache o && negb ignoreCache); [|reflexivity].
  destruct (UnifiedCache.get is_null JSON_parse now (cacheKey o)
              (globalCache w)) as [[cached|] c]; [|reflexivity].
  cbn [currentParamsRef begin isMountedRef].
  rewrite String.eqb_refl. reflexivity.
Qed.

(** X13: on a mounted hook that has [fetchOnMount] on or has dispatched a
    fetch before, however many renders change the dependencies before the
    timer fires, none of them starts a fetch, and only the timer of the last
    one is left; when it fires, one fetch is dispatched, for the options of
    the last render: on a cache hit it publishes the cached value and does
    not call the producer, and on a miss, or with caching disabled, it calls
    the producer once. *)
Theorem debounce_coalesces (w : @World T D) (renders : list (Z * Event))
  (oLast : @Options D) (tN tF : Z) :
  isMountedRef (hook w) = true ->
  forallb HookEvents.is_render (map snd renders) = true ->
  fetchOnMount oLast || negb (requestIdRef (hook w) =? 0) = true ->
  let w1 := run renders w in
  negb (cacheKey oLast =? cacheKey (options (hook w1)))%string
  || negb (same_deps (dependencies oLast) (dependencies (options (hook w1))))
  = true ->
  let w2 := step tN (Render oLast) w1 in
  let w3 := step tF TimerFires w2 in
  producerCalls (hook w2) = producerCalls (hook w)
  /\ requestIdRef (hook w2) = requestIdRef (hook w)
  /\ globalCache w2 = globalCache w
  /\ debounceTimerRef (hook w2) = Some oLast
  /\ debounceTimerRef (hook w3) = None
  /\ requestIdRef (hook w3) = requestIdRef (hook w) + 1
  /\ match
       (if enableCache oLast
        then fst (UnifiedCache.get is_null JSON_parse tF (cacheKey oLast)
                    (globalCache w))
        else None)
     with
     | Some cached =>
         producerCalls (hook w3) = producerCalls (hook w)
         /\ inflight (hook w3) = inflight (hook w)
         /\ data (hook w3) = Some cached
         /\ fromCache (hook w3) = true
     | None =>
         producerCalls (hook w3) = S (producerCalls (hook w))
         /\ inflight (hook w3)
            = (inflight (hook w)
               ++ [mkPending (requestIdRef (hook w) + 1)
                     (stringify (dependencies oLast)) oLast])%list
     end.
Proof.
  intros Hm Hr Hf w1 Hch w2 w3.
  destruct (renders_run renders w Hr) as [R1 [R2 [R3 [R4 [R5 R6]]]]].
  fold w1 in R1, R2, R3, R4, R5, R6.
  assert (H2 : w2 = mkWorld (setTimer (Some oLast)
                               (setOptions oLast (hook w1)))
                            (globalCache w1)).
  { unfold w2. cbn [UseCachedData.step]. rewrite R4, Hm, Hch.
    unfold debounceEffect. cbn [requestIdRef setTimer setOptions].
    rewrite R1.
    destruct (fetchOnMount oLast); cbn [negb andb orb] in *.
    - reflexivity.
    - apply negb_true_iff in Hf. rewrite Hf. reflexivity. }
  assert (H3 : w3 = fetchData tF oLast false
                      (mkWorld (setTimer None
                                  (setTimer (Some oLast)
                                     (setOptions oLast (hook w1))))
                               (globalCache w1))).
  { unfold w3. rewrite H2. reflexivity. }
  rewrite H2. cbn [hook globalCache producerCalls requestIdRef
                   debounceTimerRef setTimer setOptions].
  split; [exact R2|]. split; [exact R1|]. split; [exact R6|].
  split; [reflexivity|].
  rewrite H3, fetchData_decides. cbv zeta.
  cbn [hook globalCache isMountedRef requestIdRef setTimer setOptions].
  rewrite andb_true_r, R4, Hm, R6, R1.
  destruct (enableCache oLast).
  - destruct (UnifiedCache.get is_null JSON_parse tF (cacheKey oLast)
                (globalCache w)) as [[cached|] c'];
      cbn; rewrite ?R1, ?R2, ?R3; auto 10.
  - cbn. rewrite ?R1, ?R2, ?R3. auto 10.
Qed.

Lemma find_pending_new (id : Z) (l : list (@Pending D)) (p : @Pending D) :
  (forall q, In q l -> currentRequestId q <> id) ->
  currentRequestId p = id ->
  find_pending id (l ++ [p]) = Some p.
Proof.
  intros Hl Hp. unfold find_pending.
  induction l as [|q l IH]; simpl.
  - rewrite Hp, Z.eqb_refl. reflexivity.
  - assert (Hq : currentRequestId q <> id) by (apply Hl; now left).
    apply Z.eqb_neq in Hq. rewrite Hq.
    apply IH. intros q' Hq'. apply Hl. now right.
Qed.

(** X14: [refresh] calls the producer without reading the cache, whatever
    the cache holds; when that call resolves on the mounted hook, before any
    other fetch is dispatched, its value is published with [fromCache] off
    and, caching being enabled and the value not being [null], it is the
    value the cache returns for the key until the TTL has passed. *)
Theorem refresh_fetches_and_caches (o : @Options D) (c : UnifiedCache.t T)
  (w : @World T D) (t1 t2 t3 : Z) (v : T) :
  reachable o c w ->
  isMountedRef (hook w) = true ->
  let w1 := step t1 Refresh w in
  let w2 := step t2 (Resolves (requestIdRef (hook w) + 1) v) w1 in
  producerCalls (hook w1) = S (producerCalls (hook w))
  /\ globalCache w1 = globalCache w
  /\ data (hook w1) = data (hook w)
  /\ loading (hook w1) = true
  /\ data (hook w2) = Some v
  /\ fromCache (hook w2) = false
  /\ loading (hook w2) = false
  /\ error (hook w2) = None
  /\ (enableCache (options (hook w)) = true ->
      UnifiedCache.enableMemory (UnifiedCache.config (globalCache w))
        = true ->
      is_null v = false ->
      t3 - t2 <= 1000 * ttl (options (hook w)) ->
      fst (UnifiedCache.get is_null JSON_parse t3
             (cacheKey (options (hook w))) (globalCache w2)) = Some v).
Proof.
  intros Hw Hm. cbv zeta.
  destruct (guard_invariant _ _ _ _ _ _ _ _ _ Hw) as [_ Hg].
  set (p := mkPending (requestIdRef (hook w) + 1)
              (stringify (dependencies (options (hook w))))
              (options (hook w))).
  assert (H1 : step t1 Refresh w
               = mkWorld
                   (callProducer p
                      (begin (stringify (dependencies (options (hook w))))
                         (hook w)))
                   (globalCache w)).
  { cbn [UseCachedData.step]. unfold UseCachedData.fetchData.
    rewrite andb_false_r. reflexivity. }
  rewrite H1.
  set (w1 := mkWorld
               (callProducer p
                  (begin (stringify (dependencies (options (hook w))))
                     (hook w)))
               (globalCache w)).
  assert (Hf : find_pending (requestIdRef (hook w) + 1)
                 (inflight (hook w1)) = Some p).
  { cbn. apply find_pending_new; [|reflexivity].
    intros q Hq. apply Hg in Hq. lia. }
  rewrite (current_resolution is_null quota JSON_stringify JSON_parse stringify
             same_deps t2 (requestIdRef (hook w) + 1) v w1 p Hf
             eq_refl eq_refl Hm).
  cbn -[Z.mul].
  repeat (split; [reflexivity|]).
  intros Hen Hmem Hn Ht. rewrite Hen, state_of_catch.
  apply UnifiedCache_read_after_set; assumption.
Qed.

(** X15: a hook mounted with [fetchOnMount] off stays idle until [refresh]
    is called or a render turns [fetchOnMount] on: no timer, no fetch, no
    producer call, and the loading flag off. *)
Theorem no_fetch_until_asked (o : @Options D) (c : UnifiedCache.t T)
  (evs : list (Z * Event)) :
  fetchOnMount o = false ->
  forallb HookEvents.no_fetch_asked (map snd evs) = true ->
  let w := run evs (mkWorld (mount stringify o) c) in
  requestIdRef (hook w) = 0
  /\ producerCalls (hook w) = 0%nat
  /\ inflight (hook w) = []
  /\ debounceTimerRef (hook w) = None
  /\ loading (hook w) = false
  /\ data (hook w) = None.
Proof.
  intros Hf Hevs.
  assert (H0 : let w0 := mkWorld (T:=T) (mount stringify o) c in
               requestIdRef (hook w0) = 0
               /\ producerCalls (hook w0) = 0%nat
               /\ inflight (hook w0) = []
               /\ debounceTimerRef (hook w0) = None
               /\ loading (hook w0) = false
               /\ data (hook w0) = None).
  { unfold mount, debounceEffect. cbn. rewrite Hf. cbn. auto 10. }
  revert H0. generalize (mkWorld (T:=T) (mount stringify o) c).
  induction evs as [|[now ev] evs IH]; intros w0 H0; [exact H0|].
  simpl in Hevs. apply andb_prop in Hevs. destruct Hevs as [Hev Hevs].
  simpl. apply IH; [exact Hevs|].
  cbv zeta in H0. destruct H0 as [I1 [I2 [I3 [I4 [I5 I6]]]]].
  cbv zeta.
  destruct ev as [o'| | | |id result|id e| |c']; cbn [UseCachedData.step];
    try discriminate.
  - simpl in Hev.
    destruct (isMountedRef (hook w0)); [|auto 10].
    destruct (negb (cacheKey o' =? cacheKey (options (hook w0)))%string
              || negb (same_deps (dependencies o')
                         (dependencies (options (hook w0))))).
    + unfold debounceEffect. cbn. rewrite Hev, I1. cbn. auto 10.
    + cbn. auto 10.
  - rewrite I4. auto 10.
  - cbn. auto 10.
  - rewrite I3. cbn. auto 10.
  - rewrite I3. cbn. auto 10.
  - cbn. auto 10.
  - cbn. auto 10.
Qed.

(** X16: a hook that is only ever rendered with [enableCache] off, and not
    asked to clear the cache, neither reads nor writes [globalCache]:
    whatever the timers, refreshes and producer answers, the cache stays as
    it was. *)
Theorem disabled_cache_untouched (o : @Options D) (c : UnifiedCache.t T)
  (evs : list (Z * Event)) :
  enableCache o = false ->
  forallb HookEvents.cache_unused (map snd evs) = true ->
  globalCache (run evs (mkWorld (mount stringify o) c)) = c.
Proof.
  intros Ho Hevs.
  assert (H0 : let w0 := mkWorld (T:=T) (mount stringify o) c in
               enableCache (options (hook w0)) = false
               /\ (forall o', debounceTimerRef (hook w0) = Some o' ->
                     enableCache o' = false)
               /\ (forall p, In p (inflight (hook w0)) ->
                     enableCache (closure p) = false)
               /\ globalCache w0 = c).
  { unfold mount, debounceEffect. cbn.
    destruct (negb (fetchOnMount o) && true); cbn;
      (split; [exact Ho|]); (split; [|split; [tauto|reflexivity]]).
    - discriminate.
    - now intros o' [= <-]. }
  cut (let w := run evs (mkWorld (T:=T) (mount stringify o) c) in
       enableCache (options (hook w)) = false
       /\ (forall o', debounceTimerRef (hook w) = Some o' ->
             enableCache o' = false)
       /\ (forall p, In p (inflight (hook w)) ->
             enableCache (closure p) = false)
       /\ globalCache w = c); [cbv zeta; tauto|].
  revert H0. generalize (mkWorld (T:=T) (mount stringify o) c).
  induction evs as [|[now ev] evs IH]; intros w0 H0; [exact H0|].
  simpl in Hevs. apply andb_prop in Hevs. destruct Hevs as [Hev Hevs].
  simpl. apply IH; [exact Hevs|].
  cbv zeta in H0. destruct H0 as [I1 [I2 [I3 I4]]]. cbv zeta.
  assert (Hfetch : forall o' ig (w1 : @World T D),
    enableCache o' = false ->
    fetchData now o' ig w1
    = mkWorld
        (callProducer
           (mkPending (requestIdRef (hook w1) + 1)
              (stringify (dependencies o')) o')
           (begin (stringify (dependencies o')) (hook w1)))
        (globalCache w1)).
  { intros o' ig w1 E. unfold UseCachedData.fetchData. now rewrite E. }
  destruct ev as [o'| | | |id result|id e| |c']; cbn [UseCachedData.step];
    try discriminate.
  - simpl in Hev. apply negb_true_iff in Hev.
    destruct (isMountedRef (hook w0)); [|auto].
    destruct (negb (cacheKey o' =? cacheKey (options (hook w0)))%string
              || negb (same_deps (dependencies o')
                         (dependencies (options (hook w0))))).
    + unfold debounceEffect. cbn.
      destruct (negb (fetchOnMount o') && (requestIdRef (hook w0) =? 0));
        cbn; (split; [exact Hev|]); (split; [|split; [exact I3|exact I4]]).
      * discriminate.
      * now intros o'' [= <-].
    + cbn. auto.
  - destruct (debounceTimerRef (hook w0)) as [o'|] eqn:Ht;
      [|split; [exact I1|];
        split; [intros o'' E; congruence|split; [exact I3|exact I4]]].
    rewrite Hfetch by (now apply I2). cbn.
    split; [exact I1|]. split; [discriminate|]. split; [|exact I4].
    intros p Hp. apply in_app_or in Hp.
    destruct Hp as [Hp|[<-|[]]]; [now apply I3|]. cbn. now apply I2.
  - rewrite Hfetch by exact I1. cbn.
    split; [exact I1|]. split; [exact I2|]. split; [|exact I4].
    intros p Hp. apply in_app_or in Hp.
    destruct Hp as [Hp|[<-|[]]]; [now apply I3|]. exact I1.
  - destruct (find_pending id (inflight (hook w0))) as [p|] eqn:Hf; [|auto].
    apply find_pending_some in Hf. destruct Hf as [Hin _].
    assert (Hdrop : forall q,
              In q (drop_pending id (inflight (hook w0))) ->
              enableCache (closure q) = false).
    { intros q Hq. apply I3. now apply (drop_pending_incl id). }
    unfold UseCachedData.resolved. cbn [hook globalCache].
    rewrite (I3 p Hin).
    destruct (negb (currentRequestId p =? _)); [cbn; auto|].
    destruct (negb (_ =? capturedParams p)%string); [cbn; auto|].
    destruct (negb _); cbn; auto.
  - destruct (find_pending id (inflight (hook w0))) as [p|] eqn:Hf; [|auto].
    assert (Hdrop : forall q,
              In q (drop_pending id (inflight (hook w0))) ->
              enableCache (closure q) = false).
    { intros q Hq. apply I3. now apply (drop_pending_incl id). }
    unfold rejected. cbn [hook globalCache].
    destruct (_ || _); cbn; auto.
  - cbn. split; [exact I1|]. split; [discriminate|]. auto.
Qed.

(** X17: a producer call that has been superseded stays superseded: however
    late it rejects, and whatever happened in between, its rejection sets no
    error, changes no published state and does not touch the cache. *)
Theorem superseded_rejection (w : @World T D) (id : Z)
  (mid : list (Z * Event)) (now : Z) (e : Rejection) :
  id < requestIdRef (hook w) ->
  let w1 := run mid w in
  let w2 := step now (Rejects id e) w1 in
  globalCache w2 = globalCache w1
  /\ hook w2 = setInflight (inflight (hook w2)) (hook w1).
Proof.
  intros Hlt w1 w2.
  assert (Hne : id <> requestIdRef (hook w1)).
  { pose proof (requestIdRef_run is_null quota JSON_stringify JSON_parse
                  stringify
                  same_deps mid w). fold w1 in H. lia. }
  unfold w2. cbn [UseCachedData.step].
  destruct (find_pending id (inflight (hook w1))) as [p|] eqn:Hf.
  - apply find_pending_some in Hf. destruct Hf as [_ Hid].
    unfold rejected. cbn [hook requestIdRef setInflight].
    rewrite Hid. apply Z.eqb_neq in Hne. rewrite Hne. cbn. now split.
  - split; [reflexivity|]. now rewrite setInflight_same.
Qed.

(** The pending timer is for the key of the latest render. *)
Lemma timer_key (o : @Options D) (c : UnifiedCache.t T) (w : @World T D) :
  reachable o c w ->
  forall o', debounceTimerRef (hook w) = Some o' ->
    cacheKey o' = cacheKey (options (hook w)).
Proof.
  induction 1 as [|w now ev Hw IH].
  - unfold mount, debounceEffect. cbn.
    destruct (negb (fetchOnMount o) && true); cbn; [discriminate|].
    now intros o' [= <-].
  - assert (Hfetch : forall o1 ig (w0 : @World T D),
      debounceTimerRef (hook (fetchData now o1 ig w0))
      = debounceTimerRef (hook w0)
      /\ options (hook (fetchData now o1 ig w0)) = options (hook w0)).
    { intros o1 ig w0.
      destruct (fetchData_cases is_null JSON_parse stringify now o1 ig w0)
        as [[cached [c' [_ [_ [_ ->]]]]]|[c' [-> _]]]; cbn; auto. }
    destruct ev as [o1| | | |id result|id e| |c']; cbn [UseCachedData.step].
    + destruct (isMountedRef (hook w)); [|exact IH].
      destruct (negb (cacheKey o1 =? cacheKey (options (hook w)))%string
                || negb (same_deps (dependencies o1)
                           (dependencies (options (hook w))))) eqn:Ech.
      * unfold debounceEffect. cbn.
        destruct (negb (fetchOnMount o1) && (requestIdRef (hook w) =? 0));
          cbn; [discriminate|]. now intros o' [= <-].
      * cbn. intros o' Ht. rewrite (IH o' Ht).
        apply orb_false_elim in Ech. destruct Ech as [Ek _].
        apply negb_false_iff, String.eqb_eq in Ek. now symmetry.
    + destruct (debounceTimerRef (hook w)) as [o1|] eqn:Ht;
        [|intros o' E; congruence].
      destruct (Hfetch o1 false
                  (mkWorld (setTimer None (hook w)) (globalCache w)))
        as [-> _]. cbn. discriminate.
    + destruct (Hfetch (options (hook w)) true w) as [-> ->]. exact IH.
    + exact IH.
    + destruct (find_pending id (inflight (hook w))) as [p|]; [|exact IH].
      unfold UseCachedData.resolved. cbn [hook].
      destruct (negb (currentRequestId p =? _)); [exact IH|].
      destruct (negb (_ =? capturedParams p)%string); [exact IH|].
      destruct (negb _); exact IH.
    + destruct (find_pending id (inflight (hook w))) as [p|]; [|exact IH].
      unfold rejected. cbn [hook]. destruct (_ || _); exact IH.
    + cbn. discriminate.
    + exact IH.
Qed.

(** X18: [clearCache] changes nothing that is published or pending, and
    the debounced fetch that follows it misses the cache and calls the
    producer. *)
Theorem clearCache_forces_fetch (o : @Options D) (c : UnifiedCache.t T)
  (w : @World T D) (o' : @Options D) (t1 t2 : Z) :
  reachable o c w ->
  debounceTimerRef (hook w) = Some o' ->
  let w1 := step t1 ClearCache w in
  let w2 := step t2 TimerFires w1 in
  hook w1 = hook w
  /\ producerCalls (hook w2) = S (producerCalls (hook w))
  /\ inflight (hook w2)
     = (inflight (hook w)
        ++ [mkPending (requestIdRef (hook w) + 1)
              (stringify (dependencies o')) o'])%list
  /\ data (hook w2) = data (hook w).
Proof.
  intros Hw Ht w1 w2.
  pose proof (timer_key o c w Hw o' Ht) as Hkey.
  split; [reflexivity|].
  unfold w2, w1. cbn [UseCachedData.step hook globalCache]. rewrite Ht.
  unfold UseCachedData.fetchData. cbn [hook globalCache].
  rewrite <- Hkey, UnifiedCache_miss_after_delete.
  destruct (enableCache o' && negb false); cbn; auto.
Qed.

(** X19: the loading flag does not stick: while the hook is mounted, if it
    shows loading then the debounce timer is pending or the latest fetch is
    still waiting for its producer. *)
Theorem loading_has_cause (o : @Options D) (c : UnifiedCache.t T)
  (w : @World T D) :
  reachable o c w ->
  isMountedRef (hook w) = true ->
  loading (hook w) = true ->
  debounceTimerRef (hook w) <> None
  \/ exists p, In p (inflight (hook w))
               /\ currentRequestId p = requestIdRef (hook w).
Proof.
  induction 1 as [|w now ev Hw IH].
  - unfold mount, debounceEffect. cbn.
    destruct (negb (fetchOnMount o) && true); cbn; [discriminate|].
    intros _ _. left. discriminate.
  - destruct (guard_invariant _ _ _ _ _ _ _ _ _ Hw) as [_ Hg].
    assert (Hfetch : forall o1 ig (h0 : @Hook T D) c0,
      let w' := fetchData now o1 ig (mkWorld h0 c0) in
      loading (hook w') = true ->
      exists p, In p (inflight (hook w'))
                /\ currentRequestId p = requestIdRef (hook w')).
    { intros o1 ig h0 c0. cbv zeta.
      destruct (fetchData_cases is_null JSON_parse stringify now o1 ig
                  (mkWorld h0 c0))
        as [[cached [c' [_ [_ [_ ->]]]]]|[c' [-> _]]]; cbn.
      - discriminate.
      - intros _. eexists. split; [apply in_or_app; right; now left|].
        reflexivity. }
    assert (Hdrop : forall id,
      isMountedRef (hook w) = true -> loading (hook w) = true ->
      id <> requestIdRef (hook w) ->
      debounceTimerRef (hook w) <> None
      \/ exists p, In p (drop_pending id (inflight (hook w)))
                   /\ currentRequestId p = requestIdRef (hook w)).
    { intros id M L Hne. destruct (IH M L) as [Ht|[p [Hp Hid]]];
        [now left|right].
      exists p. split; [|exact Hid].
      apply filter_In. split; [exact Hp|].
      apply negb_true_iff, Z.eqb_neq. congruence. }
    destruct ev as [o1| | | |id result|id e| |c']; cbn [UseCachedData.step].
    + destruct (isMountedRef (hook w)) eqn:M; [|rewrite M; discriminate].
      destruct (negb (cacheKey o1 =? cacheKey (options (hook w)))%string
                || negb (same_deps (dependencies o1)
                           (dependencies (options (hook w))))).
      * unfold debounceEffect. cbn.
        destruct (negb (fetchOnMount o1) && (requestIdRef (hook w) =? 0));
          cbn; [discriminate|]. intros _ _. left. discriminate.
      * cbn. intros _ L. exact (IH eq_refl L).
    + destruct (debounceTimerRef (hook w)) as [o1|] eqn:Ht.
      * intros _ L. right.
        exact (Hfetch o1 false (setTimer None (hook w)) (globalCache w) L).
      * intros M L. destruct (IH M L) as [H|H]; [contradiction|now right].
    + intros _ L. right. destruct w as [h0 c0].
      exact (Hfetch (options h0) true h0 c0 L).
    + exact IH.
    + destruct (find_pending id (inflight (hook w))) as [p|] eqn:Hf;
        [|exact IH].
      apply find_pending_some in Hf. destruct Hf as [Hin Hid].
      unfold UseCachedData.resolved. cbn [hook requestIdRef setInflight
                                          currentParamsRef isMountedRef].
      destruct (currentRequestId p =? requestIdRef (hook w)) eqn:E;
        cbn [negb].
      * apply Z.eqb_eq in E.
        destruct (Hg p Hin) as [_ Hpar]. rewrite (Hpar E).
        rewrite String.eqb_refl. cbn [negb].
        destruct (isMountedRef (hook w)) eqn:M; cbn; intros M' L;
          [discriminate|congruence].
      * apply Z.eqb_neq in E. cbn. intros M L.
        apply Hdrop; congruence.
    + destruct (find_pending id (inflight (hook w))) as [p|] eqn:Hf;
        [|exact IH].
      apply find_pending_some in Hf. destruct Hf as [Hin Hid].
      unfold rejected. cbn [hook requestIdRef setInflight isMountedRef].
      destruct (currentRequestId p =? requestIdRef (hook w)) eqn:E;
        cbn [negb orb].
      * destruct (isMountedRef (hook w)) eqn:M; cbn; intros M' L;
          [discriminate|congruence].
      * apply Z.eqb_neq in E. cbn. intros M L.
        apply Hdrop; congruence.
    + cbn. discriminate.
    + exact IH.
Qed.

End CoordinatorRuns.

(** ** The further properties on runs *)

Lemma pending_calls_distinct_witness :
  let w :=
    TestHost.step 300 UseCachedData.TimerFires
      (TestHost.step 200 (UseCachedData.Render TestHost.optsB)
         (TestHost.step 150 UseCachedData.Refresh
            (TestHost.step 100 UseCachedData.TimerFires TestHost.w0))) in
  map UseCachedData.currentRequestId
    (UseCachedData.inflight (UseCachedData.hook w)) = [1; 2; 3]
  /\ NoDup (map UseCachedData.currentRequestId
              (UseCachedData.inflight (UseCachedData.hook w)))
  /\ Z.of_nat (UseCachedData.producerCalls (UseCachedData.hook w))
     <= UseCachedData.requestIdRef (UseCachedData.hook w).
Proof.
  intro w.
  destruct (pending_calls_distinct TestHost.is_null (TestHost.quota 100)
              TestHost.JSON_stringify TestHost.JSON_parse
              TestHost.stringify TestHost.same_deps
              TestHost.optsA TestHost.cache0 w) as [H1 [_ H3]].
  - repeat apply UseCachedData.reach_step. apply UseCachedData.reach_mount.
  - split; [reflexivity|]. split; [exact H1|exact H3].
Defined.

Lemma debounce_coalesces_witness :
  let w := TestHost.step 100 UseCachedData.TimerFires TestHost.w0 in
  let w2 :=
    TestHost.run
      [ (150, UseCachedData.Render TestHost.optsB);
        (160, UseCachedData.Render TestHost.optsA);
        (170, UseCachedData.Render TestHost.optsB) ] w in
  let w3 := TestHost.step 270 UseCachedData.TimerFires w2 in
  UseCachedData.producerCalls (UseCachedData.hook w2) = 1%nat
  /\ UseCachedData.debounceTimerRef (UseCachedData.hook w2)
     = Some TestHost.optsB
  /\ UseCachedData.requestIdRef (UseCachedData.hook w3) = 2
  /\ UseCachedData.producerCalls (UseCachedData.hook w3) = 2%nat.
Proof.
  intros w w2 w3.
  destruct (debounce_coalesces TestHost.is_null (TestHost.quota 100)
              TestHost.JSON_stringify TestHost.JSON_parse
              TestHost.stringify TestHost.same_deps w
              [ (150, UseCachedData.Render TestHost.optsB);
                (160, UseCachedData.Render TestHost.optsA) ]
              TestHost.optsB 170 270)
    as [H1 [_ [_ [H4 [_ [H6 H7]]]]]].
  - reflexivity.
  - reflexivity.
  - reflexivity.
  - reflexivity.
  - vm_compute in H1, H4, H6, H7. destruct H7 as [H7 _].
    vm_compute. auto.
Defined.

Lemma refresh_fetches_and_caches_witness :
  let w1 := TestHost.step 100 UseCachedData.Refresh Scenario.w1 in
  let w2 := TestHost.step 200 (UseCachedData.Resolves 1 43) w1 in
  UseCachedData.producerCalls (UseCachedData.hook w1) = 1%nat
  /\ UseCachedData.data (UseCachedData.hook w2) = Some 43
  /\ fst (UnifiedCache.get TestHost.is_null TestHost.JSON_parse 300
            "douban-movie" (UseCachedData.globalCache w2)) = Some 43.
Proof.
  intros w1 w2.
  destruct (refresh_fetches_and_caches TestHost.is_null (TestHost.quota 100)
              TestHost.JSON_stringify TestHost.JSON_parse
              TestHost.stringify TestHost.same_deps
              TestHost.optsA TestHost.cache1 Scenario.w1 100 200 300 43)
    as [H1 [_ [_ [_ [H5 [_ [_ [_ H9]]]]]]]].
  - apply UseCachedData.reach_mount.
  - reflexivity.
  - split; [exact H1|]. split; [exact H5|].
    apply H9; [reflexivity|reflexivity|reflexivity|].
    vm_compute. discriminate.
Defined.

Lemma no_fetch_until_asked_witness :
  let w :=
    TestHost.run
      [ (10, UseCachedData.TimerFires);
        (20, UseCachedData.Render Scenario.optsIdle');
        (30, UseCachedData.ClearCache);
        (40, UseCachedData.Resolves 1 5) ]
      (UseCachedData.mkWorld
         (UseCachedData.mount TestHost.stringify Scenario.optsIdle)
         TestHost.cache1) in
  UseCachedData.producerCalls (UseCachedData.hook w) = 0%nat
  /\ UseCachedData.loading (UseCachedData.hook w) = false
  /\ UseCachedData.data (UseCachedData.hook w) = None.
Proof.
  intro w.
  destruct (no_fetch_until_asked TestHost.is_null (TestHost.quota 100)
              TestHost.JSON_stringify TestHost.JSON_parse
              TestHost.stringify TestHost.same_deps
              Scenario.optsIdle TestHost.cache1
              [ (10, UseCachedData.TimerFires);
                (20, UseCachedData.Render Scenario.optsIdle');
                (30, UseCachedData.ClearCache);
                (40, UseCachedData.Resolves 1 5) ])
    as [_ [H2 [_ [_ [H5 H6]]]]].
  - reflexivity.
  - reflexivity.
  - split; [exact H2|]. split; [exact H5|exact H6].
Defined.

Lemma disabled_cache_untouched_witness :
  UseCachedData.globalCache
    (TestHost.run
       [ (100, UseCachedData.TimerFires);
         (200, UseCachedData.Resolves 1 5);
         (300, UseCachedData.Refresh);
         (400, UseCachedData.Rejects 2 (UseCachedData.OtherValue "boom")) ]
       (UseCachedData.mkWorld
          (UseCachedData.mount TestHost.stringify Scenario.optsNoCache)
          TestHost.cache1))
  = TestHost.cache1.
Proof.
  apply (disabled_cache_untouched TestHost.is_null (TestHost.quota 100)
           TestHost.JSON_stringify TestHost.JSON_parse
           TestHost.stringify TestHost.same_deps
           Scenario.optsNoCache TestHost.cache1).
  - reflexivity.
  - reflexivity.
Defined.

Lemma superseded_rejection_witness :
  let w :=
    TestHost.step 150 UseCachedData.Refresh
      (TestHost.step 100 UseCachedData.TimerFires TestHost.w0) in
  let w1 := TestHost.run [(200, UseCachedData.Render TestHost.optsB)] w in
  let w2 :=
    TestHost.step 300
      (UseCachedData.Rejects 1 (UseCachedData.ErrorObject "timeout")) w1 in
  UseCachedData.error (UseCachedData.hook w2) = None
  /\ UseCachedData.globalCache w2 = UseCachedData.globalCache w1.
Proof.
  intros w w1 w2.
  destruct (superseded_rejection TestHost.is_null (TestHost.quota 100)
              TestHost.JSON_stringify TestHost.JSON_parse
              TestHost.stringify TestHost.same_deps w 1
              [(200, UseCachedData.Render TestHost.optsB)] 300
              (UseCachedData.ErrorObject "timeout")) as [Hc Hh].
  - reflexivity.
  - split; [|exact Hc].
    exact (eq_trans (f_equal UseCachedData.error Hh) eq_refl).
Defined.

Lemma clearCache_forces_fetch_witness :
  let w1 := TestHost.step 50 UseCachedData.ClearCache Scenario.w1 in
  let w2 := TestHost.step 100 UseCachedData.TimerFires w1 in
  UseCachedData.producerCalls (UseCachedData.hook w2) = 1%nat
  /\ UseCachedData.data (UseCachedData.hook w2) = None.
Proof.
  intros w1 w2.
  destruct (clearCache_forces_fetch TestHost.is_null (TestHost.quota 100)
              TestHost.JSON_stringify TestHost.JSON_parse
              TestHost.stringify TestHost.same_deps
              TestHost.optsA TestHost.cache1 Scenario.w1 TestHost.optsA
              50 100) as [_ [H2 [_ H4]]].
  - apply UseCachedData.reach_mount.
  - reflexivity.
  - split; [exact H2|exact H4].
Defined.

Lemma loading_has_cause_witness :
  let w := TestHost.step 100 UseCachedData.TimerFires TestHost.w0 in
  UseCachedData.debounceTimerRef (UseCachedData.hook w) <> None
  \/ exists p,
       In p (UseCachedData.inflight (UseCachedData.hook w))
       /\ UseCachedData.currentRequestId p
          = UseCachedData.requestIdRef (UseCachedData.hook w).
Proof.
  intro w.
  apply (loading_has_cause TestHost.is_null (TestHost.quota 100)
           TestHost.JSON_stringify TestHost.JSON_parse
           TestHost.stringify TestHost.same_deps
           TestHost.optsA TestHost.cache0 w).
  - apply UseCachedData.reach_step. apply UseCachedData.reach_mount.
  - reflexivity.
  - reflexivity.
Defined.

(** ** [useSimpleCachedData]: the generated key *)

Lemma append_inj_l (p a b : string) : (p ++ a = p ++ b)%string -> a = b.
Proof.
  induction p as [|c p IH]; simpl; [tauto|].
  intros [= H]. now apply IH.
Qed.

(** X20: the key that [useSimpleCachedData] generates is the prefix,
    [-deps=] and the JSON text of the dependencies, whatever the collation
    of the host; under one prefix, two dependency arrays get the same key
    exactly when they have the same JSON text. *)
Theorem useSimpleCachedData_key {D : Type}
  (localeCompare : string -> string -> Z) (stringify : D -> string)
  (cacheKeyPrefix : string) (d1 d2 : D) :
  stringify d1 <> "" -> stringify d2 <> "" ->
  let o1 :=
    UseSimpleCachedData.useSimpleCachedData localeCompare stringify
      cacheKeyPrefix d1 in
  let o2 :=
    UseSimpleCachedData.useSimpleCachedData localeCompare stringify
      cacheKeyPrefix d2 in
  UseCachedData.cacheKey o1 = cacheKeyPrefix ++ "-deps=" ++ stringify d1
  /\ (UseCachedData.cacheKey o1 = UseCachedData.cacheKey o2
      <-> stringify d1 = stringify d2).
Proof.
  intros H1 H2.
  assert (K : forall d, stringify d <> "" ->
    UseSimpleCachedData.cacheKey localeCompare stringify cacheKeyPrefix d
    = cacheKeyPrefix ++ "-deps=" ++ stringify d).
  { intros d Hd.
    unfold UseSimpleCachedData.cacheKey, KeyBuilder.generateCacheKey.
    cbn [filter KeyBuilder.keep snd].
    apply String.eqb_neq in Hd. rewrite Hd. reflexivity. }
  cbn [UseSimpleCachedData.useSimpleCachedData UseCachedData.cacheKey].
  rewrite !K by assumption. split; [reflexivity|].
  split.
  - intros E. apply append_inj_l in E.
    now apply (append_inj_l "-deps=") in E.
  - now intros ->.
Qed.

Lemma useSimpleCachedData_key_witness :
  UseCachedData.cacheKey
    (UseSimpleCachedData.useSimpleCachedData KeyBuilder.letterCollation
       TestHost.stringify "my-data" ["42"])
  = "my-data-deps=" ++ TestHost.stringify ["42"].
Proof.
  destruct (useSimpleCachedData_key KeyBuilder.letterCollation
              TestHost.stringify "my-data" ["42"] ["43"]) as [H _].
  - discriminate.
  - discriminate.
  - exact H.
Defined.

(** ** The version check *)

Section TimestampFacts.
Import VersionCheck.

Lemma is_digit_range (c : ascii) :
  is_digit c = true ->
  0 <= Z.of_N (N_of_ascii c) - 48 <= 9.
Proof.
  unfold is_digit. intros H. apply andb_prop in H. destruct H as [H1 H2].
  apply N.leb_le in H1, H2. lia.
Qed.

(** On digit strings of one length, the order of the numbers is the order
    of the strings. *)
Lemma digits_value_compare (a : string) :
  forall (b : string) (x y : Z),
    String.length a = String.length b ->
    all_digits a = true -> all_digits b = true ->
    (x < y -> digits_value x a < digits_value y b)
    /\ (y < x -> digits_value y b < digits_value x a)
    /\ (x = y ->
        Z.compare (digits_value x a) (digits_value y b)
        = String.compare a b).
Proof.
  induction a as [|c a IH]; intros [|d b] x y Hlen Ha Hb;
    try discriminate; cbn [digits_value String.compare].
  - split; [tauto|]. split; [tauto|]. intros ->. apply Z.compare_refl.
  - simpl in Hlen, Ha, Hb. injection Hlen as Hlen.
    apply andb_prop in Ha, Hb. destruct Ha as [Hc Ha], Hb as [Hd Hb].
    pose proof (is_digit_range c Hc) as Rc.
    pose proof (is_digit_range d Hd) as Rd.
    split; [|split].
    + intros Hxy. apply (IH b); auto. lia.
    + intros Hxy. apply (IH b); auto. lia.
    + intros ->. unfold Ascii.compare.
      destruct (N.compare_spec (N_of_ascii c) (N_of_ascii d)) as [E|E|E].
      * rewrite E. now apply (IH b).
      * apply Z.compare_lt_iff. apply (IH b); auto. lia.
      * apply Z.compare_gt_iff. apply (IH b); auto. lia.
Qed.

Lemma valid_parts (ts : string) :
  isValidTimestamp ts = true ->
  String.length ts = 14%nat /\ all_digits ts = true /\ ts <> "".
Proof.
  unfold isValidTimestamp. intros H. apply andb_prop in H.
  destruct H as [H1 H2]. apply Nat.eqb_eq in H1.
  repeat split; auto. intros ->. discriminate.
Qed.

Lemma compareTimestamps_valid (l r : string) :
  isValidTimestamp l = true -> isValidTimestamp r = true ->
  compareTimestamps l r = Some (KeyBuilder.byteCompare l r).
Proof.
  intros Hl Hr.
  destruct (valid_parts l Hl) as [L1 [L2 L3]].
  destruct (valid_parts r Hr) as [R1 [R2 R3]].
  unfold compareTimestamps, BigInt. rewrite L2, R2.
  destruct (digits_value_compare l r 0 0) as [_ [_ H]]; auto;
    [congruence|].
  specialize (H eq_refl). unfold KeyBuilder.byteCompare. rewrite <- H.
  rewrite Z.gtb_ltb.
  destruct (Z.compare_spec (digits_value 0 l) (digits_value 0 r)) as [E|E|E].
  - rewrite E, Z.ltb_irrefl. reflexivity.
  - assert (E1 : (digits_value 0 r <? digits_value 0 l) = false)
      by (apply Z.ltb_ge; lia).
    rewrite E1. apply Z.ltb_lt in E. now rewrite E.
  - apply Z.ltb_lt in E. now rewrite E.
Qed.

(** X21: on two valid timestamps [compareTimestamps] never throws, and its
    sign is the order of the two strings: negative when the local one comes
    first, zero exactly when they are the same, positive otherwise. *)
Theorem compareTimestamps_order (l r : string) :
  isValidTimestamp l = true -> isValidTimestamp r = true ->
  compareTimestamps l r
  = Some (match String.compare l r with
          | Lt => -1
          | Eq => 0
          | Gt => 1
          end)
  /\ (compareTimestamps l r = Some 0 <-> l = r).
Proof.
  intros Hl Hr. rewrite (compareTimestamps_valid l r Hl Hr).
  split; [reflexivity|]. unfold KeyBuilder.byteCompare.
  destruct (String.compare l r) eqn:E; split; try discriminate.
  - intros _. now apply String.compare_eq_iff.
  - reflexivity.
  - intros ->. pose proof (String.compare_antisym r r) as A.
    rewrite E in A. discriminate.
  - intros ->. pose proof (String.compare_antisym r r) as A.
    rewrite E in A. discriminate.
Qed.

(** X22: [formatTimestamp] turns a valid timestamp into nineteen
    characters, the fourteen digits in their order with [-], [-], a space,
    [:] and [:] between the groups, and returns anything else as it is. *)
Theorem formatTimestamp_shape (ts : string) :
  if isValidTimestamp ts then
    String.length (formatTimestamp ts) = 19%nat
    /\ digits_of (formatTimestamp ts) = ts
    /\ String.get 4 (formatTimestamp ts) = Some "-"%char
    /\ String.get 7 (formatTimestamp ts) = Some "-"%char
    /\ String.get 10 (formatTimestamp ts) = Some " "%char
    /\ String.get 13 (formatTimestamp ts) = Some ":"%char
    /\ String.get 16 (formatTimestamp ts) = Some ":"%char
  else formatTimestamp ts = ts.
Proof.
  destruct (isValidTimestamp ts) eqn:V;
    [|unfold formatTimestamp; now rewrite V].
  destruct (valid_parts ts V) as [L [A _]].
  unfold formatTimestamp. rewrite V. cbn [negb].
  do 14 (destruct ts as [|? ts]; [discriminate|]).
  destruct ts; [|discriminate].
  cbn in A.
  repeat match type of A with
         | (_ && _) = true =>
             let H := fresh "D" in
             apply andb_prop in A; destruct A as [H A]
         end.
  cbn. rewrite D, D0, D1, D2, D3, D4, D5, D6, D7, D8, D9, D10, D11, D12.
  repeat split.
Qed.

End TimestampFacts.

Lemma compareTimestamps_order_witness :
  VersionCheck.compareTimestamps "20250101120000" "20250309083000"
  = Some (-1).
Proof.
  destruct (VersionCheck.compareTimestamps "20250101120000"
              "20250309083000") as [z|] eqn:E.
  - destruct (compareTimestamps_order "20250101120000" "20250309083000")
      as [H _].
    + reflexivity.
    + reflexivity.
    + rewrite E in H. exact H.
  - discriminate.
Defined.

Section ClientCheck.
Import VersionCheck.
Variable trim : string -> string.
Variable syntaxErrorMessage : string -> string.

Lemma read_timestamp_valid (f : Fetched) (t : string) :
  read_timestamp trim f = Some t -> isValidTimestamp t = true.
Proof.
  destruct f as [|[|] text]; simpl; try discriminate.
  destruct (isValidTimestamp (trim text)) eqn:V; [|discriminate].
  now intros [= <-].
Qed.

Lemma fetchLocalTimestamp_valid (answers : list Fetched) (t : string) :
  fetchLocalTimestamp trim answers = Some t ->
  isValidTimestamp t = true
  /\ exists f, In f answers /\ read_timestamp trim f = Some t.
Proof.
  induction answers as [|f rest IH]; simpl; [discriminate|].
  destruct (read_timestamp trim f) as [t'|] eqn:R.
  - intros [= <-]. split; [now apply (read_timestamp_valid f)|].
    exists f. auto.
  - intros H. destruct (IH H) as [V [g [Hg Rg]]]. split; [exact V|].
    exists g. auto.
Qed.

Lemma fetchRemoteTimestamp_valid (answers : list Fetched) (t : string) :
  fetchRemoteTimestamp trim answers = Some t ->
  isValidTimestamp t = true
  /\ exists f, In f answers /\ read_timestamp trim f = Some t.
Proof.
  induction answers as [|f rest IH]; simpl; [discriminate|].
  destruct (read_timestamp trim f) as [t'|] eqn:R.
  - destruct (t' =? "")%string.
    + intros H. destruct (IH H) as [V [g [Hg Rg]]]. split; [exact V|].
      exists g. auto.
    + intros [= <-]. split; [now apply (read_timestamp_valid f)|].
      exists f. auto.
  - intros H. destruct (IH H) as [V [g [Hg Rg]]]. split; [exact V|].
    exists g. auto.
Qed.

Lemma checkViaClientDirect_cases
  (localAnswers remoteAnswers : list Fetched) :
  let r :=
    checkViaClientDirect trim syntaxErrorMessage localAnswers
      remoteAnswers in
  match fetchLocalTimestamp trim localAnswers,
        fetchRemoteTimestamp trim remoteAnswers with
  | Some l, Some rm =>
      isValidTimestamp l = true /\ isValidTimestamp rm = true
      /\ status r = (if String.ltb l rm then HAS_UPDATE else NO_UPDATE)
      /\ error r = None
      /\ localTimestamp r = Some l /\ remoteTimestamp r = Some rm
      /\ formattedLocalTime r = Some (formatTimestamp l)
      /\ formattedRemoteTime r = Some (formatTimestamp rm)
  | Some l, None =>
      status r = FETCH_FAILED /\ error r = Some serverUnreachable
      /\ localTimestamp r = Some l
      /\ formattedLocalTime r = Some (formatTimestamp l)
  | None, _ =>
      status r = FETCH_FAILED /\ error r = Some localUnreadable
      /\ localTimestamp r = None
  end.
Proof.
  unfold checkViaClientDirect.
  destruct (fetchLocalTimestamp trim localAnswers) as [l|] eqn:EL;
    [|cbn; auto].
  destruct (fetchLocalTimestamp_valid _ _ EL) as [VL _].
  destruct (valid_parts l VL) as [_ [_ NL]].
  apply String.eqb_neq in NL. cbn [falsy]. rewrite NL.
  destruct (fetchRemoteTimestamp trim remoteAnswers) as [rm|] eqn:ER;
    [|cbn; auto].
  destruct (fetchRemoteTimestamp_valid _ _ ER) as [VR _].
  destruct (valid_parts rm VR) as [_ [_ NR]].
  apply String.eqb_neq in NR. cbn [falsy]. rewrite NR.
  rewrite (compareTimestamps_valid l rm VL VR).
  unfold KeyBuilder.byteCompare, String.ltb.
  destruct (String.compare l rm); cbn; auto 10.
Qed.

(** X23: the client-side check reports an update exactly when both
    timestamps were found and the local one is the earlier; with both found
    it never fails (the comparison does not throw) and carries the two
    timestamps, which are valid, and their formatted times; with the local
    one missing or the remote one missing it fails with the message of that
    case. *)
Theorem checkViaClientDirect_decides
  (localAnswers remoteAnswers : list Fetched) :
  let r :=
    checkViaClientDirect trim syntaxErrorMessage localAnswers
      remoteAnswers in
  match fetchLocalTimestamp trim localAnswers,
        fetchRemoteTimestamp trim remoteAnswers with
  | Some l, Some rm =>
      isValidTimestamp l = true /\ isValidTimestamp rm = true
      /\ status r = (if String.ltb l rm then HAS_UPDATE else NO_UPDATE)
      /\ error r = None
      /\ localTimestamp r = Some l /\ remoteTimestamp r = Some rm
      /\ formattedLocalTime r = Some (formatTimestamp l)
      /\ formattedRemoteTime r = Some (formatTimestamp rm)
  | Some l, None =>
      status r = FETCH_FAILED /\ error r = Some serverUnreachable
      /\ localTimestamp r = Some l
      /\ formattedLocalTime r = Some (formatTimestamp l)
  | None, _ =>
      status r = FETCH_FAILED /\ error r = Some localUnreadable
      /\ localTimestamp r = None
  end.
Proof. apply checkViaClientDirect_cases. Qed.

(** X30: whichever of the two strategies answers, the result of the check
    is never [CHECKING]; it carries an error when its status is
    [FETCH_FAILED], and otherwise no error but a local timestamp that is
    not empty, with its formatted time. *)
Theorem check_status_error (api : ApiAnswer)
  (localAnswers remoteAnswers : list Fetched) :
  let r := check trim syntaxErrorMessage api localAnswers remoteAnswers in
  match status r with
  | CHECKING => False
  | FETCH_FAILED => exists e, error r = Some e
  | HAS_UPDATE | NO_UPDATE =>
      error r = None
      /\ exists l, (l =? "")%string = false
                   /\ localTimestamp r = Some l
                   /\ formattedLocalTime r = Some (formatTimestamp l)
  end.
Proof.
  unfold check. destruct (checkViaApi api) as [apiResult|] eqn:A.
  - unfold checkViaApi in A.
    destruct api as [|[|] [data|]]; try discriminate.
    destruct (apiLocalTimestamp data) as [l|]; [|discriminate].
    destruct (negb (success data) || falsy (Some l)) eqn:F;
      [discriminate|].
    apply orb_false_iff in F. destruct F as [_ F]. cbn [falsy] in F.
    injection A as <-. cbv zeta.
    destruct (hasUpdate data); cbn [status error localTimestamp
                                      formattedLocalTime];
      (split; [reflexivity|exists l; auto]).
  - pose proof (checkViaClientDirect_cases localAnswers remoteAnswers) as C.
    cbv zeta in C |- *.
    destruct (fetchLocalTimestamp trim localAnswers) as [l|] eqn:EL.
    + destruct (fetchLocalTimestamp_valid _ _ EL) as [VL _].
      destruct (valid_parts l VL) as [_ [_ NL]].
      apply String.eqb_neq in NL.
      destruct (fetchRemoteTimestamp trim remoteAnswers) as [rm|].
      * destruct C as [_ [_ [S [E [L [_ [F _]]]]]]].
        rewrite S. destruct (String.ltb l rm);
          (split; [exact E|exists l; auto]).
      * destruct C as [S [E _]]. rewrite S. eauto.
    + destruct C as [S [E _]]. rewrite S. eauto.
Qed.

End ClientCheck.

Section ResultCache.
Import VersionCheck.
Variable JSON_stringify : Cached -> string.
Variable JSON_parse : string -> option Cached.
Variable sessionFits : string -> bool.

Local Abbreviation getCachedResult := (getCachedResult JSON_parse).
Local Abbreviation setCachedResult :=
  (setCachedResult JSON_stringify sessionFits).
Local Abbreviation checkForUpdates := (checkForUpdates JSON_parse).
Local Abbreviation settle := (settle JSON_stringify sessionFits).
Local Abbreviation step := (step JSON_stringify JSON_parse sessionFits).
Local Abbreviation run := (run JSON_stringify JSON_parse sessionFits).

(** X24: a result cached is what [getCachedResult] returns for the next
    five minutes, whether or not [sessionStorage] took it, and the read
    changes nothing. *)
Theorem getCachedResult_after_set (now now' : Z) (r : VersionCheckResult)
  (st : State) :
  window st = true ->
  now' - now < CACHE_TTL ->
  getCachedResult now' (setCachedResult now r st)
  = (Some r, setCachedResult now r st).
Proof.
  intros W Ht. unfold VersionCheck.getCachedResult,
    VersionCheck.setCachedResult.
  rewrite W. cbn [negb window memoryCache timestamp result].
  apply Z.ltb_lt in Ht. now rewrite Ht.
Qed.

(** X25: five minutes after a result was cached [getCachedResult] returns
    nothing, and the read removes the item from [sessionStorage], the text
    stored there being one that parses back to the record. *)
Theorem getCachedResult_expires (now now' : Z) (r : VersionCheckResult)
  (st : State) :
  window st = true ->
  CACHE_TTL <= now' - now ->
  JSON_stringify (mkCached r now) <> "" ->
  JSON_parse (JSON_stringify (mkCached r now)) = Some (mkCached r now) ->
  sessionFits (JSON_stringify (mkCached r now)) = true ->
  let st1 := setCachedResult now r st in
  sessionItem st1 = Some (JSON_stringify (mkCached r now))
  /\ fst (getCachedResult now' st1) = None
  /\ sessionItem (snd (getCachedResult now' st1)) = None.
Proof.
  intros W Ht Hne Hp Hf.
  unfold VersionCheck.getCachedResult, VersionCheck.setCachedResult.
  rewrite W, Hf.
  cbn [negb window memoryCache sessionItem timestamp result].
  apply String.eqb_neq in Hne. rewrite Hne, Hp.
  cbn [timestamp result].
  apply Z.ltb_ge in Ht. rewrite Ht. cbn. auto.
Qed.

Lemma call_requests (now : Z) (st : State) :
  let st' := snd (checkForUpdates now st) in
  (requests st' = requests st
   /\ (pendingRequest st' = pendingRequest st))
  \/ (requests st' = S (requests st)
      /\ pendingRequest st = false /\ pendingRequest st' = true).
Proof.
  unfold VersionCheck.checkForUpdates.
  assert (G : pendingRequest (snd (getCachedResult now st))
              = pendingRequest st
              /\ requests (snd (getCachedResult now st)) = requests st).
  { unfold VersionCheck.getCachedResult.
    destruct (negb (window st)); [auto|].
    assert (S0 : forall p : option VersionCheckResult * State,
              p = match sessionItem st with
                  | Some cached =>
                      if (cached =? "")%string then (None, st)
                      else
                        match JSON_parse cached with
                        | Some c =>
                            if now - timestamp c <? CACHE_TTL
                            then (Some (result c),
                                  mkState (window st) (Some c)
                                    (sessionItem st) (pendingRequest st)
                                    (requests st))
                            else (None,
                                  mkState (window st) (memoryCache st) None
                                    (pendingRequest st) (requests st))
                        | None => (None, st)
                        end
                  | None => (None, st)
                  end ->
              pendingRequest (snd p) = pendingRequest st
              /\ requests (snd p) = requests st).
    { intros p ->. destruct (sessionItem st) as [cached|]; [|auto].
      destruct (cached =? "")%string; [auto|].
      destruct (JSON_parse cached) as [c|]; [|auto].
      destruct (now - timestamp c <? CACHE_TTL); cbn; auto. }
    destruct (memoryCache st) as [m|].
    - destruct (now - timestamp m <? CACHE_TTL); [auto|].
      now apply S0.
    - now apply S0. }
  destruct (getCachedResult now st) as [[cached|] st'];
    cbn [snd] in *; destruct G as [G1 G2].
  - left. auto.
  - destruct (pendingRequest st') eqn:P; cbn [snd].
    + left. rewrite P. auto.
    + right. cbn. rewrite <- G1. auto.
Qed.

(** X26: however many calls of [checkForUpdates] come in before a request
    settles, they start one request at most, and none at all when one is
    already under way. *)
Theorem checkForUpdates_dedupes (evs : list Event) (st : State) :
  forallb is_call evs = true ->
  (requests (run evs st) <= S (requests st))%nat
  /\ (pendingRequest st = true -> requests (run evs st) = requests st).
Proof.
  intros Hc.
  assert (P : forall evs st,
    forallb is_call evs = true -> pendingRequest st = true ->
    requests (run evs st) = requests st
    /\ pendingRequest (run evs st) = true).
  { clear. intros evs. unfold VersionCheck.run.
    induction evs as [|ev evs IH]; intros st Hc Hp; simpl; [auto|].
    simpl in Hc. apply andb_prop in Hc. destruct Hc as [Hev Hc].
    destruct ev as [now|]; [|discriminate]. cbn [VersionCheck.step].
    destruct (call_requests now st) as [[R1 R2]|[_ [R2 _]]];
      [|congruence].
    destruct (IH (snd (checkForUpdates now st)) Hc) as [I1 I2];
      [congruence|]. split; congruence. }
  split; [|intros Hp; now apply P].
  revert st. unfold VersionCheck.run.
  induction evs as [|ev evs IH]; intros st; simpl; [lia|].
  simpl in Hc. apply andb_prop in Hc. destruct Hc as [Hev Hc].
  destruct ev as [now|]; [|discriminate]. cbn [VersionCheck.step].
  destruct (call_requests now st) as [[R1 R2]|[R1 [_ R3]]].
  - specialize (IH Hc (snd (checkForUpdates now st))). lia.
  - destruct (P evs (snd (checkForUpdates now st)) Hc R3) as [I1 _].
    unfold VersionCheck.run in I1. lia.
Qed.

(** X27: once a request has settled, every call made within five minutes
    is handed its result at once and starts no request. *)
Theorem checkForUpdates_cached (t : Z) (r : VersionCheckResult)
  (st : State) (evs : list Event) (now : Z) :
  window st = true ->
  pendingRequest st = true ->
  forallb (call_within t) evs = true ->
  now - t < CACHE_TTL ->
  let st' := run evs (settle t r st) in
  requests st' = requests st
  /\ pendingRequest st' = false
  /\ fst (checkForUpdates now st') = Now r.
Proof.
  intros W P Hevs Hnow.
  assert (S0 : settle t r st
               = mkState true (Some (mkCached r t))
                   (sessionItem (setCachedResult t r st)) false
                   (requests st)).
  { unfold VersionCheck.settle, VersionCheck.setCachedResult.
    rewrite P, W. reflexivity. }
  assert (Hit : forall s n, n - t < CACHE_TTL ->
    checkForUpdates n
      (mkState true (Some (mkCached r t)) s false (requests st))
    = (Now r, mkState true (Some (mkCached r t)) s false (requests st))).
  { intros s n Hn. unfold VersionCheck.checkForUpdates,
      VersionCheck.getCachedResult.
    cbn [negb window memoryCache timestamp result].
    apply Z.ltb_lt in Hn. now rewrite Hn. }
  cbv zeta. rewrite S0.
  generalize (sessionItem (setCachedResult t r st)). intros s.
  assert (R : run evs (mkState true (Some (mkCached r t)) s false
                         (requests st))
              = mkState true (Some (mkCached r t)) s false (requests st)).
  { unfold VersionCheck.run.
    induction evs as [|ev evs IH]; simpl; [reflexivity|].
    simpl in Hevs. apply andb_prop in Hevs. destruct Hevs as [Hev Hevs].
    destruct ev as [n|]; [|discriminate]. cbn [VersionCheck.step].
    simpl in Hev. apply Z.ltb_lt in Hev.
    rewrite (Hit s n Hev). cbn [snd]. now apply IH. }
  rewrite R. cbn [requests pendingRequest].
  split; [reflexivity|]. split; [reflexivity|].
  now rewrite (Hit s now Hnow).
Qed.

End ResultCache.

Lemma getCachedResult_after_set_witness :
  fst (VersionCheck.getCachedResult Scenario.parseCached 299999
         (VersionCheck.setCachedResult Scenario.stringifyCached
            (fun _ => false) 0 Scenario.upToDate
            (VersionCheck.fresh None)))
  = Some Scenario.upToDate.
Proof.
  rewrite (getCachedResult_after_set Scenario.stringifyCached
             Scenario.parseCached (fun _ => false) 0 299999
             Scenario.upToDate (VersionCheck.fresh None)).
  - reflexivity.
  - reflexivity.
  - reflexivity.
Defined.

Lemma getCachedResult_expires_witness :
  let st1 :=
    VersionCheck.setCachedResult Scenario.stringifyCached (fun _ => true)
      1000 Scenario.upToDate (VersionCheck.fresh None) in
  VersionCheck.sessionItem st1 = Some "t=1000"
  /\ fst (VersionCheck.getCachedResult Scenario.parseCached 301000 st1)
     = None
  /\ VersionCheck.sessionItem
       (snd (VersionCheck.getCachedResult Scenario.parseCached 301000 st1))
     = None.
Proof.
  apply (getCachedResult_expires Scenario.stringifyCached
           Scenario.parseCached (fun _ => true) 1000 301000
           Scenario.upToDate (VersionCheck.fresh None)).
  - reflexivity.
  - vm_compute. discriminate.
  - discriminate.
  - reflexivity.
  - reflexivity.
Defined.

Lemma checkForUpdates_dedupes_witness :
  VersionCheck.requests
    (VersionCheck.run Scenario.stringifyCached Scenario.parseCached
       (fun _ => true)
       [VersionCheck.Call 10; VersionCheck.Call 11; VersionCheck.Call 500]
       (VersionCheck.fresh None))
  = 1%nat.
Proof.
  destruct (checkForUpdates_dedupes Scenario.stringifyCached
              Scenario.parseCached (fun _ => true)
              [VersionCheck.Call 11; VersionCheck.Call 500]
              (VersionCheck.run Scenario.stringifyCached
                 Scenario.parseCached (fun _ => true)
                 [VersionCheck.Call 10] (VersionCheck.fresh None)))
    as [_ H].
  - reflexivity.
  - exact (H eq_refl).
Defined.

Lemma checkForUpdates_cached_witness :
  let st :=
    VersionCheck.run Scenario.stringifyCached Scenario.parseCached
      (fun _ => true)
      [ VersionCheck.Call 10; VersionCheck.Settles 900 Scenario.upToDate;
        VersionCheck.Call 1000; VersionCheck.Call 200000 ]
      (VersionCheck.fresh None) in
  VersionCheck.requests st = 1%nat
  /\ fst (VersionCheck.checkForUpdates Scenario.parseCached 300899 st)
     = VersionCheck.Now Scenario.upToDate.
Proof.
  destruct (checkForUpdates_cached Scenario.stringifyCached
              Scenario.parseCached (fun _ => true) 900 Scenario.upToDate
              (VersionCheck.run Scenario.stringifyCached
                 Scenario.parseCached (fun _ => true)
                 [VersionCheck.Call 10] (VersionCheck.fresh None))
              [VersionCheck.Call 1000; VersionCheck.Call 200000] 300899)
    as [H1 [_ H3]].
  - reflexivity.
  - reflexivity.
  - reflexivity.
  - reflexivity.
  - split; [exact H1|exact H3].
Defined.

(** ** [useDoubanInfo] *)

Section DoubanInfo.
Import UseDoubanInfo.
Context {Detail Comment : Type}.

Local Abbreviation Hook := (@UseDoubanInfo.Hook Detail Comment).
Local Abbreviation Event := (@UseDoubanInfo.Event Detail Comment).

Local Abbreviation settled h :=
  ((detailPending h = 0%nat -> detailLoading h = false)
   /\ (commentsPending h = 0%nat -> commentsLoading h = false)).

Lemma settled_refreshDetail (h : Hook) :
  settled h -> settled (refreshDetail h).
Proof.
  unfold refreshDetail. destruct (negb (truthy (doubanId (props h))));
    [tauto|]. cbn. intros [_ H]. split; [discriminate|exact H].
Qed.

Lemma settled_refreshComments (h : Hook) :
  settled h -> settled (refreshComments h).
Proof.
  unfold refreshComments. destruct (negb (truthy (doubanId (props h))));
    [tauto|]. cbn. intros [H _]. split; [exact H|discriminate].
Qed.

Lemma settled_effect (h : Hook) : settled h -> settled (effect h).
Proof.
  intros H. unfold effect.
  destruct (negb (truthy (doubanId (props h)))); [exact H|].
  assert (H1 : settled (if shouldFetchDetail (props h)
                        then refreshDetail h else h)).
  { destruct (shouldFetchDetail (props h));
      [now apply settled_refreshDetail|exact H]. }
  destruct (shouldFetchComments _);
    [now apply settled_refreshComments|exact H1].
Qed.

Lemma settled_step (ev : Event) (h : Hook) :
  settled h -> settled (step ev h).
Proof.
  intros H.
  destruct ev as [p| | |data|e|data|e]; cbn [step].
  - destruct (deps_changed p (props h)).
    + apply settled_effect. exact H.
    + exact H.
  - now apply settled_refreshDetail.
  - now apply settled_refreshComments.
  - revert H. destruct (detailPending h); cbn; intuition auto.
  - revert H. destruct (detailPending h); cbn; intuition auto.
  - revert H. destruct (commentsPending h); cbn; intuition auto.
  - revert H. destruct (commentsPending h); cbn; intuition auto.
Qed.

(** X28: neither loading flag of [useDoubanInfo] sticks: whatever the
    renders, refreshes and answers, once no request for the detail is
    waiting [detailLoading] is off, and likewise for the comments. *)
Theorem useDoubanInfo_loading_settles (p : Props) (evs : list Event) :
  let h := run evs (mount p) in
  (detailPending h = 0%nat -> detailLoading h = false)
  /\ (commentsPending h = 0%nat -> commentsLoading h = false).
Proof.
  assert (H0 : settled (mount (Detail:=Detail) (Comment:=Comment) p)).
  { apply settled_effect. cbn. tauto. }
  revert H0. unfold run.
  generalize (mount (Detail:=Detail) (Comment:=Comment) p).
  induction evs as [|ev evs IH]; intros h H; simpl; [exact H|].
  apply IH. now apply settled_step.
Qed.

(** X29: as long as the hook is given no id ([null], [undefined], the
    empty string or zero) it requests nothing, whatever is rendered and
    whichever refresh is called, and it shows no detail, no comments and no
    loading. *)
Theorem useDoubanInfo_without_id (p : Props) (evs : list Event) :
  truthy (doubanId p) = false ->
  forallb without_id evs = true ->
  let h := run evs (mount p) in
  detailPending h = 0%nat /\ commentsPending h = 0%nat
  /\ detail h = None /\ comments h = [] /\ commentsTotal h = 0
  /\ detailLoading h = false /\ commentsLoading h = false.
Proof.
  intros Hp Hevs.
  assert (H0 : let h := mount (Detail:=Detail) (Comment:=Comment) p in
               truthy (doubanId (props h)) = false
               /\ detailPending h = 0%nat /\ commentsPending h = 0%nat
               /\ detail h = None /\ comments h = [] /\ commentsTotal h = 0
               /\ detailLoading h = false /\ commentsLoading h = false).
  { unfold mount, effect. cbn. rewrite Hp. cbn. auto 10. }
  cut (let h := run evs (mount (Detail:=Detail) (Comment:=Comment) p) in
       truthy (doubanId (props h)) = false
       /\ detailPending h = 0%nat /\ commentsPending h = 0%nat
       /\ detail h = None /\ comments h = [] /\ commentsTotal h = 0
       /\ detailLoading h = false /\ commentsLoading h = false);
    [cbv zeta; tauto|].
  revert H0. unfold run.
  generalize (mount (Detail:=Detail) (Comment:=Comment) p).
  induction evs as [|ev evs IH]; intros h H; simpl; [exact H|].
  simpl in Hevs. apply andb_prop in Hevs. destruct Hevs as [Hev Hevs].
  apply IH; [exact Hevs|]. cbv zeta in *.
  destruct H as [I0 [I1 [I2 [I3 [I4 [I5 [I6 I7]]]]]]].
  destruct ev as [q| | |data|e|data|e]; cbn [step].
  - simpl in Hev. apply negb_true_iff in Hev.
    destruct (deps_changed q (props h)).
    + unfold effect. cbn. rewrite Hev. cbn. auto 10.
    + cbn. auto 10.
  - unfold refreshDetail. rewrite I0. cbn. auto 10.
  - unfold refreshComments. rewrite I0. cbn. auto 10.
  - rewrite I1. auto 10.
  - rewrite I1. auto 10.
  - rewrite I2. auto 10.
  - rewrite I2. auto 10.
Qed.

End DoubanInfo.

Lemma useDoubanInfo_loading_settles_witness :
  let h :=
    UseDoubanInfo.run
      [ UseDoubanInfo.DetailResolves 5;
        UseDoubanInfo.CommentsRejects (UseCachedData.OtherValue "boom") ]
      (UseDoubanInfo.mount (Detail:=Z) (Comment:=Z) Scenario.film) in
  UseDoubanInfo.detailPending h = 0%nat
  /\ UseDoubanInfo.detailLoading h = false
  /\ UseDoubanInfo.commentsLoading h = false.
Proof.
  intro h.
  destruct (useDoubanInfo_loading_settles (Detail:=Z) (Comment:=Z)
              Scenario.film
              [ UseDoubanInfo.DetailResolves 5;
                UseDoubanInfo.CommentsRejects
                  (UseCachedData.OtherValue "boom") ]) as [H1 H2].
  split; [reflexivity|]. split; [apply H1|apply H2]; reflexivity.
Defined.

Lemma useDoubanInfo_without_id_witness :
  let h :=
    UseDoubanInfo.run
      [ UseDoubanInfo.RefreshDetail;
        UseDoubanInfo.Render Scenario.noFilm';
        UseDoubanInfo.RefreshComments ]
      (UseDoubanInfo.mount (Detail:=Z) (Comment:=Z) Scenario.noFilm) in
  UseDoubanInfo.detailPending h = 0%nat
  /\ UseDoubanInfo.commentsPending h = 0%nat
  /\ UseDoubanInfo.detailLoading h = false.
Proof.
  intro h.
  destruct (useDoubanInfo_without_id (Detail:=Z) (Comment:=Z)
              Scenario.noFilm
              [ UseDoubanInfo.RefreshDetail;
                UseDoubanInfo.Render Scenario.noFilm';
                UseDoubanInfo.RefreshComments ])
    as [H1 [H2 [_ [_ [_ [H6 _]]]]]].
  - reflexivity.
  - reflexivity.
  - split; [exact H1|]. split; [exact H2|exact H6].
Defined.
